(** * nsh: the pipeline parser and the pipeline executor of [main.c]

    A shallow embedding of [get_cmd], [cmd_builder], [execute_cmd] and
    [loop], and the properties of the specification that they decide.

    Conventions of the embedding.
    - A [char*] is a [cstr]: either a pointer into the line buffer (the
      offset of its first character and the NUL-terminated text found
      there once [strtok] has cut the line) or a pointer to static
      storage (a string literal, or [argv[1]] kept in [fname]).
    - A cell of a [malloc]ed pointer array is [Garbage] until it is
      written, then [Null] or [Ptr p].
    - Array indices and counters of the parser are [nat]: every one of
      them is checked against the size of the array it indexes, so no
      [int] wraps around before the access is already out of bounds.
    - Behaviour that C leaves undefined is the result [Undefined].  *)

From Stdlib Require Import ZArith Lia Ascii String Sorted.
From stdpp Require Import base list strings.

Open Scope string_scope.
Open Scope list_scope.
Open Scope Z_scope.
Open Scope nat_scope.

(** ** Values *)

Inductive cstr : Type :=
| Tok (off : nat) (s : string)
| Lit (s : string).

Definition str (p : cstr) : string :=
  match p with
  | Tok _ s => s
  | Lit s => s
  end.

Inductive cell : Type :=
| Garbage
| Null
| Ptr (p : cstr).

Inductive ub : Type :=
| OutOfBounds
| NullDeref
| Uninit.

Inductive outcome (A : Type) : Type :=
| Ok (a : A)
| Undefined (u : ub).

Arguments Ok {A} a.
Arguments Undefined {A} u.

(** Sequencing stops at the first undefined step. *)
#[global] Instance outcome_bind : MBind outcome := λ A B k m,
  match m with
  | Ok a => k a
  | Undefined u => Undefined u
  end.

#[global] Instance outcome_ret : MRet outcome := λ A a, Ok a.

#[global] Instance cstr_eq_dec : EqDecision cstr.
Proof. solve_decision. Defined.

#[global] Instance cell_eq_dec : EqDecision cell.
Proof. solve_decision. Defined.

(** [strcmp(a, b) == 0] *)
Definition streq (a b : string) : bool := String.eqb a b.

(** ** The structures of main.c *)

Definition TKS_BUFFER_SIZE : nat := 128.
Definition MAX_CMDS : nat := 16.
Definition ARG_CELLS : nat := 101.
Definition EXIT_FAILURE : Z := 1%Z.

(** [num_args] is incremented on memory that [malloc] returned and nobody
    initialised: it stays indeterminate ([None]). *)
Record Command : Type := {
  num_args : option Z;
  args : list cell
}.

Record FullCommand : Type := {
  num_cmds : nat;
  cmds : list Command;
  file_out : option cstr;
  file_in : option cstr;
  overwrite : option Z
}.

(** [int bg; int fd; int backup; char* fname;] *)
Record globals : Type := {
  bg : Z;
  fd : Z;
  backup : Z;
  fname : option string
}.

Definition set_bg (g : globals) (v : Z) : globals :=
  {| bg := v; fd := fd g; backup := backup g; fname := fname g |}.

(** ** strtok(line, " ") *)

(** The tokens that [strtok(line, " ")] and the following
    [strtok(NULL, " ")] calls return, in order: the maximal runs of
    characters other than the space, each with the offset in the line at
    which it starts.  [cur] is the token being scanned. *)
Definition snoc_char (p : cstr) (c : ascii) : cstr :=
  match p with
  | Tok o s => Tok o (s +:+ String c EmptyString)
  | Lit s => Lit (s +:+ String c EmptyString)
  end.

Fixpoint strtok_scan (off : nat) (cur : option cstr) (s : string) : list cstr :=
  match s with
  | EmptyString =>
      match cur with
      | Some t => [t]
      | None => []
      end
  | String c s' =>
      if Ascii.eqb c " "%char then
        match cur with
        | Some t => t :: strtok_scan (S off) None s'
        | None => strtok_scan (S off) None s'
        end
      else
        match cur with
        | Some t => strtok_scan (S off) (Some (snoc_char t c)) s'
        | None => strtok_scan (S off) (Some (Tok off (String c EmptyString))) s'
        end
  end.

Definition tokens (line : string) : list cstr := strtok_scan 0 None line.

(** ** cmd_builder *)

(** The locals of [cmd_builder] together with the structure it fills. *)
Record builder : Type := {
  b_cmds : list Command;
  b_toks : list cell;
  b_pos : nat;
  b_num_cmd : nat;
  b_offset : nat;
  b_file_in : option cstr;
  b_file_out : option cstr;
  b_overwrite : option Z
}.

Definition fresh_command : Command :=
  {| num_args := None; args := replicate ARG_CELLS Garbage |}.

Definition builder_init : builder :=
  {| b_cmds := replicate MAX_CMDS fresh_command;
     b_toks := replicate TKS_BUFFER_SIZE Garbage;
     b_pos := 0; b_num_cmd := 0; b_offset := 0;
     b_file_in := None; b_file_out := None; b_overwrite := None |}.

(** [a[i] = v] on an array of [length a] cells. *)
Definition store (a : list cell) (i : nat) (v : cell) : outcome (list cell) :=
  if i <? length a then Ok (<[i := v]> a) else Undefined OutOfBounds.

(** [cmds[c].args[i] = v] *)
Definition store_arg (cs : list Command) (c i : nat) (v : cell)
  : outcome (list Command) :=
  match cs !! c with
  | Some cm =>
      (a ← store (args cm) i v;
       Ok (<[c := {| num_args := num_args cm; args := a |}]> cs))
  | None => Undefined OutOfBounds
  end.

(** [cmds[c].args[offset-1] = NULL] *)
Definition store_arg_before (cs : list Command) (c offset : nat)
  : outcome (list Command) :=
  match offset with
  | O => Undefined OutOfBounds
  | S i => store_arg cs c i Null
  end.

(** [cmds[c].num_args++] *)
Definition incr_num_args (cs : list Command) (c : nat) : outcome (list Command) :=
  match cs !! c with
  | Some cm =>
      Ok (<[c := {| num_args := (fun n => (n + 1)%Z) <$> num_args cm;
                    args := args cm |}]> cs)
  | None => Undefined OutOfBounds
  end.

(** The string a cell points to, as [strcmp] reads it. *)
Definition deref (a : list cell) (i : nat) : outcome string :=
  match a !! i with
  | Some (Ptr p) => Ok (str p)
  | Some Null => Undefined NullDeref
  | Some Garbage => Undefined Uninit
  | None => Undefined OutOfBounds
  end.

(** [pos > 0 && strcmp(toks[pos-1], op) == 0] *)
Definition prev_is (toks : list cell) (pos : nat) (op : string) : outcome bool :=
  match pos with
  | O => Ok false
  | S i => (s ← deref toks i; Ok (streq s op))
  end.

(** One turn of the [while (tok != NULL)] loop. *)
Definition builder_step (b : builder) (tok : cstr) : outcome builder :=
  (toks1 ← store (b_toks b) (b_pos b) (Ptr tok);
   cmds1 ← store_arg (b_cmds b) (b_num_cmd b) (b_offset b) (Ptr tok);
   if streq (str tok) "|" then
     cmds2 ← store_arg cmds1 (b_num_cmd b) (b_offset b) Null;
     Ok {| b_cmds := cmds2; b_toks := toks1; b_pos := S (b_pos b);
           b_num_cmd := S (b_num_cmd b); b_offset := 0;
           b_file_in := b_file_in b; b_file_out := b_file_out b;
           b_overwrite := b_overwrite b |}
   else
     gt ← prev_is toks1 (b_pos b) ">";
     if (gt : bool) then
       cmds2 ← store_arg_before cmds1 (b_num_cmd b) (b_offset b);
       Ok {| b_cmds := cmds2; b_toks := toks1; b_pos := S (b_pos b);
             b_num_cmd := b_num_cmd b; b_offset := b_offset b;
             b_file_in := b_file_in b; b_file_out := Some tok;
             b_overwrite := Some 1%Z |}
     else
       lt ← prev_is toks1 (b_pos b) "<";
       if (lt : bool) then
         cmds2 ← store_arg_before cmds1 (b_num_cmd b) (b_offset b);
         Ok {| b_cmds := cmds2; b_toks := toks1; b_pos := S (b_pos b);
               b_num_cmd := b_num_cmd b; b_offset := b_offset b;
               b_file_in := Some tok; b_file_out := b_file_out b;
               b_overwrite := b_overwrite b |}
       else
         gg ← prev_is toks1 (b_pos b) ">>";
         if (gg : bool) then
           cmds2 ← store_arg_before cmds1 (b_num_cmd b) (b_offset b);
           Ok {| b_cmds := cmds2; b_toks := toks1; b_pos := S (b_pos b);
                 b_num_cmd := b_num_cmd b; b_offset := b_offset b;
                 b_file_in := b_file_in b; b_file_out := Some tok;
                 b_overwrite := Some 0%Z |}
         else
           cmds2 ← incr_num_args cmds1 (b_num_cmd b);
           Ok {| b_cmds := cmds2; b_toks := toks1; b_pos := S (b_pos b);
                 b_num_cmd := b_num_cmd b; b_offset := S (b_offset b);
                 b_file_in := b_file_in b; b_file_out := b_file_out b;
                 b_overwrite := b_overwrite b |}).

(** The whole [while] loop, over the tokens [strtok] yields. *)
Fixpoint builder_loop (b : builder) (toks : list cstr) : outcome builder :=
  match toks with
  | [] => Ok b
  | tok :: rest => (b' ← builder_step b tok; builder_loop b' rest)
  end.

Definition fname_cell (g : globals) : cell :=
  match fname g with
  | Some s => Ptr (Lit s)
  | None => Null
  end.

(** The [if (backup)] block: one more stage, [tee -a fname]. *)
Definition append_tee (g : globals) (cs : list Command) (num_cmd : nat)
  : outcome (list Command) :=
  (c1 ← store_arg cs num_cmd 0 (Ptr (Lit "tee"));
   c2 ← store_arg c1 num_cmd 1 (Ptr (Lit "-a"));
   c3 ← store_arg c2 num_cmd 2 (fname_cell g);
   store_arg c3 num_cmd 3 Null).

Definition builder_finish (g : globals) (b : builder) : outcome FullCommand :=
  (cmds1 ← store_arg (b_cmds b) (b_num_cmd b) (b_offset b) Null;
   if (backup g =? 0)%Z then
     Ok {| num_cmds := b_num_cmd b + 1; cmds := cmds1;
           file_out := b_file_out b; file_in := b_file_in b;
           overwrite := b_overwrite b |}
   else
     cmds2 ← append_tee g cmds1 (S (b_num_cmd b));
     Ok {| num_cmds := S (b_num_cmd b) + 1; cmds := cmds2;
           file_out := b_file_out b; file_in := b_file_in b;
           overwrite := b_overwrite b |}).

Definition cmd_builder (g : globals) (line : string) : outcome FullCommand :=
  (b ← builder_loop builder_init (tokens line); builder_finish g b).

(** What [execvp] receives as [argv]: the cells up to the first [NULL]. *)
Fixpoint argv (a : list cell) : outcome (list string) :=
  match a with
  | [] => Undefined OutOfBounds
  | Garbage :: _ => Undefined Uninit
  | Null :: _ => Ok []
  | Ptr p :: rest => (r ← argv rest; Ok (str p :: r))
  end.

Definition stage_argv (fc : FullCommand) (i : nat) : outcome (list string) :=
  match cmds fc !! i with
  | Some cm => argv (args cm)
  | None => Undefined OutOfBounds
  end.

(** ** get_cmd *)

Fixpoint last_char (s : string) : option ascii :=
  match s with
  | EmptyString => None
  | String c EmptyString => Some c
  | String _ s' => last_char s'
  end.

Fixpoint drop_last (s : string) : string :=
  match s with
  | EmptyString => EmptyString
  | String _ EmptyString => EmptyString
  | String c s' => String c (drop_last s')
  end.

(** [raw] is what [getline] left in [line], terminator included.
    [line[strlen(line)-1]] is an access at index -1 when the text is
    empty.  The result is the returned line and the globals, [bg]
    possibly set. *)
Definition get_cmd (g : globals) (raw : string) : outcome (string * globals) :=
  match last_char raw with
  | None => Undefined OutOfBounds
  | Some _ =>
      let line := drop_last raw in
      match last_char line with
      | None => Undefined OutOfBounds
      | Some c =>
          if Ascii.eqb c "&"%char
          then Ok (drop_last line, set_bg g 1%Z)
          else Ok (line, g)
      end
  end.

(** ** The operating system, as far as execute_cmd talks to it *)

(** The shell's descriptor table is not bounded and processes are not
    limited: [dup], [dup2] and [close] fail only on a descriptor that is
    not open, [open] only when the environment says so, and [pipe] and
    [fork] do not fail.  A child is recorded when it is forked, with the
    descriptors it inherits and the argument vector it passes to
    [execvp]; what the program does afterwards is the environment's. *)

(** An open file description. *)
Inductive desc : Type :=
| Inherited (n : nat)
| FileRd (path : string)
| FileWr (path : string) (trunc : bool)
| PipeRd (id : nat)
| PipeWr (id : nat).

(** A forked child: its pid, the descriptor table it inherited and the
    [argv] it hands to [execvp]. *)
Record proc : Type := {
  p_pid : Z;
  p_fds : list (option desc);
  p_argv : list string
}.

(** How a child ends.  [ChildExit code]: its program ends it with that
    status, or [execvp] returns and the child calls [perror] and
    [exit(EXIT_FAILURE)].  [ChildUndefined]: [execvp] was handed a null
    pointer for the program's name, which is undefined; the child calls
    neither [perror] nor [exit] and is, in practice, killed by a
    signal. *)
Inductive child_end : Type :=
| ChildExit (code : Z)
| ChildUndefined.

Inductive event : Type :=
| EvPrompt
| EvWrite (fd : Z) (data : string) (count : nat)
| EvPerror
| EvWait (pid : Z) (status : child_end).

(** The shell process: its descriptor table (index = descriptor), the
    children forked so far, and what it printed or waited for. *)
Record os : Type := {
  fdt : list (option desc);
  procs : list proc;
  next_pid : Z;
  next_pipe : nat;
  events : list event
}.

(** What the shell cannot decide: which files open, and how a program
    image ends ([None]: [execvp] fails). *)
Record environ : Type := {
  can_read : string → bool;
  can_write : string → bool;
  run : list string → option Z
}.

Inductive result (A : Type) : Type :=
| Ret (a : A) (s : os)
| Exited (code : Z) (s : os)
| Undef (u : ub).

Arguments Ret {A} a s.
Arguments Exited {A} code s.
Arguments Undef {A} u.

Definition exec (A : Type) : Type := os → result A.

#[global] Instance exec_bind : MBind exec := λ A B k m s,
  match m s with
  | Ret a s' => k a s'
  | Exited c s' => Exited c s'
  | Undef u => Undef u
  end.

#[global] Instance exec_ret : MRet exec := λ A a s, Ret a s.

Definition lift {A : Type} (m : outcome A) : exec A := λ s,
  match m with
  | Ok a => Ret a s
  | Undefined u => Undef u
  end.

Definition fd_get (t : list (option desc)) (fd : Z) : option desc :=
  if (fd <? 0)%Z then None else mjoin (t !! Z.to_nat fd).

Fixpoint fd_set (t : list (option desc)) (n : nat) (v : option desc)
  : list (option desc) :=
  match n, t with
  | O, [] => [v]
  | O, _ :: t' => v :: t'
  | S n', [] => None :: fd_set [] n' v
  | S n', x :: t' => x :: fd_set t' n' v
  end.

(** The lowest free descriptor gets [d]. *)
Fixpoint fd_alloc (t : list (option desc)) (d : desc) : nat * list (option desc) :=
  match t with
  | [] => (0, [Some d])
  | None :: t' => (0, Some d :: t')
  | Some x :: t' => let '(n, t'') := fd_alloc t' d in (S n, Some x :: t'')
  end.

Definition with_fdt (s : os) (t : list (option desc)) : os :=
  {| fdt := t; procs := procs s; next_pid := next_pid s;
     next_pipe := next_pipe s; events := events s |}.

Definition emit (e : event) : exec unit := λ s,
  Ret tt {| fdt := fdt s; procs := procs s; next_pid := next_pid s;
            next_pipe := next_pipe s; events := events s ++ [e] |}.

Definition sys_dup (old : Z) : exec Z := λ s,
  match fd_get (fdt s) old with
  | Some d => let '(n, t) := fd_alloc (fdt s) d in Ret (Z.of_nat n) (with_fdt s t)
  | None => Ret (-1)%Z s
  end.

Definition sys_dup2 (old new : Z) : exec Z := λ s,
  match fd_get (fdt s) old with
  | Some d =>
      if (new <? 0)%Z then Ret (-1)%Z s
      else Ret new (with_fdt s (fd_set (fdt s) (Z.to_nat new) (Some d)))
  | None => Ret (-1)%Z s
  end.

Definition sys_close (fd : Z) : exec Z := λ s,
  match fd_get (fdt s) fd with
  | Some _ => Ret 0%Z (with_fdt s (fd_set (fdt s) (Z.to_nat fd) None))
  | None => Ret (-1)%Z s
  end.

Definition sys_open (ok : bool) (d : desc) : exec Z := λ s,
  if ok then let '(n, t) := fd_alloc (fdt s) d in Ret (Z.of_nat n) (with_fdt s t)
  else Ret (-1)%Z s.

(** [pipe(fds)]: the result is [(fds[READ], fds[WRITE])]. *)
Definition sys_pipe : exec (Z * Z) := λ s,
  let '(r, t1) := fd_alloc (fdt s) (PipeRd (next_pipe s)) in
  let '(w, t2) := fd_alloc t1 (PipeWr (next_pipe s)) in
  Ret (Z.of_nat r, Z.of_nat w)
      {| fdt := t2; procs := procs s; next_pid := next_pid s;
         next_pipe := S (next_pipe s); events := events s |}.

(** [fork()] seen from the parent; the child goes on to [execvp] with
    [av]. *)
Definition sys_fork (av : list string) : exec Z := λ s,
  Ret (next_pid s)
      {| fdt := fdt s;
         procs := procs s ++ [{| p_pid := next_pid s; p_fds := fdt s; p_argv := av |}];
         next_pid := (next_pid s + 1)%Z;
         next_pipe := next_pipe s; events := events s |}.

Definition sys_exit {A : Type} (code : Z) : exec A := λ s, Exited code s.

Section Shell.

Variable env : environ.

(** How the child [p] ends.  With a program name, [execvp] either
    starts the program, which ends with a status of its own, or returns,
    and the child ends with [EXIT_FAILURE] after [perror].  Without one
    ([args[0]] is [NULL]), [execvp(NULL, args)] is undefined. *)
Definition child_status (p : proc) : child_end :=
  match p_argv p with
  | [] => ChildUndefined
  | av => ChildExit (default EXIT_FAILURE (run env av))
  end.

Definition find_proc (ps : list proc) (pid : Z) : option proc :=
  snd <$> list_find (λ p, p_pid p = pid) ps.

(** [waitpid(pid, &status, 0)] on the local [pid], which nothing has
    assigned when the stage loop did not run.  The result is what
    [status] holds afterwards. *)
Definition sys_waitpid (pid : option Z) : exec (option child_end) := λ s,
  match pid with
  | None => Undef Uninit
  | Some p =>
      match find_proc (procs s) p with
      | Some c =>
          Ret (Some (child_status c))
              {| fdt := fdt s; procs := procs s; next_pid := next_pid s;
                 next_pipe := next_pipe s;
                 events := events s ++ [EvWait p (child_status c)] |}
      | None => Ret None s
      end
  end.

(** [cmd->cmds->args[0]], read by [strcmp]. *)
Definition first_arg (cmd : FullCommand) : outcome string :=
  match cmds cmd !! 0 with
  | Some cm => deref (args cm) 0
  | None => Undefined OutOfBounds
  end.

Definition read_overwrite (cmd : FullCommand) : outcome Z :=
  match overwrite cmd with
  | Some v => Ok v
  | None => Undefined Uninit
  end.

(** The body of the last stage's [if (cmd->file_out != NULL)]: the
    result is [fd_out].  The test after [open] is the source's, on
    [fd_in]. *)
Definition open_output (cmd : FullCommand) (tout fd_in : Z) : exec Z :=
  match file_out cmd with
  | Some f =>
      ow ← lift (read_overwrite cmd);
      fd_out ← sys_open (can_write env (str f))
                        (FileWr (str f) (negb (ow =? 0)%Z));
      if (fd_in <? 0)%Z
      then (_ ← emit EvPerror; sys_exit EXIT_FAILURE)
      else mret fd_out
  | None => sys_dup tout
  end.

(** [for (int i = 0; i < num_cmds; i++)], with [n] turns left.  The
    result is the local [pid].  [num_cmds cmd - 1] is read only when a
    turn runs, that is when [num_cmds cmd] is positive.  The child's read
    of [cmds[i].args] for [execvp] is taken at the [fork]. *)
Fixpoint stage_loop (cmd : FullCommand) (tout : Z) (n i : nat)
    (fd_in : Z) (pid : option Z) : exec (option Z) :=
  match n with
  | O => mret pid
  | S n' =>
      _ ← sys_dup2 fd_in 0%Z;
      _ ← sys_close fd_in;
      '(fd_in', fd_out) ←
        (if i =? num_cmds cmd - 1 then
           fd_out ← open_output cmd tout fd_in;
           mret (fd_in, fd_out)
         else
           '(r, w) ← sys_pipe;
           mret (r, w));
      _ ← sys_dup2 fd_out 1%Z;
      _ ← sys_close fd_out;
      av ← lift (stage_argv cmd i);
      pid' ← sys_fork av;
      stage_loop cmd tout n' (S i) fd_in' (Some pid')
  end.

Definition open_input (cmd : FullCommand) (tin : Z) : exec Z :=
  match file_in cmd with
  | Some f =>
      fd_in ← sys_open (can_read env (str f)) (FileRd (str f));
      if (fd_in <? 0)%Z
      then (_ ← emit EvPerror; sys_exit EXIT_FAILURE)
      else mret fd_in
  | None => sys_dup tin
  end.

Definition execute_cmd (cmd : FullCommand) (bg_flag : Z) : exec Z :=
  name ← lift (first_arg cmd);
  if streq name "quit" then mret 0%Z
  else
    tin ← sys_dup 0%Z;
    tout ← sys_dup 1%Z;
    fd_in ← open_input cmd tin;
    pid ← stage_loop cmd tout (num_cmds cmd) 0 fd_in None;
    _ ← sys_dup2 tin 0%Z;
    _ ← sys_dup2 tout 1%Z;
    _ ← sys_close tin;
    _ ← sys_close tout;
    _ ← (if (bg_flag =? 0)%Z then sys_waitpid pid else mret None);
    mret 1%Z.

(** [write(fd, "> ", 3); write(fd, in, strlen(in) + 1); write(fd, "\n", 2);] *)
Definition write_transcript (g : globals) (line : string) : exec unit :=
  if (backup g =? 0)%Z then mret tt
  else
    _ ← emit (EvWrite (fd g) "> " 3);
    _ ← emit (EvWrite (fd g) line (String.length line + 1));
    emit (EvWrite (fd g) (String "010"%char EmptyString) 2).

(** One turn of the [do ... while (status)] loop on the line [raw] that
    [getline] delivers; the result is [status] and the globals. *)
Definition loop_turn (g : globals) (raw : string) : exec (Z * globals) :=
  _ ← emit EvPrompt;
  '(line, g') ← lift (get_cmd g raw);
  _ ← write_transcript g' line;
  cmd ← lift (cmd_builder g' line);
  status ← execute_cmd cmd (bg g');
  mret (status, g').

(** The loop over the lines standard input holds.  At the end of input
    [getline] fails and [get_cmd] reads a buffer nobody filled. *)
Fixpoint loop (g : globals) (input : list string) : exec globals :=
  match input with
  | [] => _ ← emit EvPrompt; lift (Undefined Uninit)
  | raw :: rest =>
      '(status, g') ← loop_turn g raw;
      if (status =? 0)%Z then mret g' else loop g' rest
  end.

End Shell.

(** ** Notions used to state the properties *)

Definition is_pipe (t : cstr) : bool := streq (str t) "|".

(** The number of [|] tokens of a line. *)
Fixpoint count_pipes (l : list cstr) : nat :=
  match l with
  | [] => 0
  | t :: r => (if is_pipe t then 1 else 0) + count_pipes r
  end.

Definition backup_on (g : globals) : bool := negb (backup g =? 0)%Z.

Definition tee_stages (g : globals) : nat := if backup_on g then 1 else 0.

(** Which branch of the loop body a token takes, given the token before
    it ([toks[pos-1]], none for the first). *)
Inductive kind : Type :=
| KPipe
| KOut (ow : Z)
| KIn
| KArg.

Definition classify (prev : option cstr) (tok : cstr) : kind :=
  if is_pipe tok then KPipe
  else match prev with
       | None => KArg
       | Some p =>
           if streq (str p) ">" then KOut 1%Z
           else if streq (str p) "<" then KIn
           else if streq (str p) ">>" then KOut 0%Z
           else KArg
       end.

(** The array writes of the loop body when every index is in range. *)
Definition put (c i : nat) (v : cell) (cs : list Command) : list Command :=
  alter (λ cm, {| num_args := num_args cm; args := <[i := v]> (args cm) |}) c cs.

Definition bump (c : nat) (cs : list Command) : list Command :=
  alter (λ cm, {| num_args := (λ n, (n + 1)%Z) <$> num_args cm;
                  args := args cm |}) c cs.

Definition cell_at (cs : list Command) (c i : nat) : option cell :=
  cs !! c ≫= λ cm, args cm !! i.

Definition step_pure (prev : option cstr) (b : builder) (tok : cstr) : builder :=
  let cmds1 := put (b_num_cmd b) (b_offset b) (Ptr tok) (b_cmds b) in
  let toks1 := <[b_pos b := Ptr tok]> (b_toks b) in
  match classify prev tok with
  | KPipe =>
      {| b_cmds := put (b_num_cmd b) (b_offset b) Null cmds1; b_toks := toks1;
         b_pos := S (b_pos b); b_num_cmd := S (b_num_cmd b); b_offset := 0;
         b_file_in := b_file_in b; b_file_out := b_file_out b;
         b_overwrite := b_overwrite b |}
  | KOut ow =>
      {| b_cmds := put (b_num_cmd b) (pred (b_offset b)) Null cmds1; b_toks := toks1;
         b_pos := S (b_pos b); b_num_cmd := b_num_cmd b; b_offset := b_offset b;
         b_file_in := b_file_in b; b_file_out := Some tok;
         b_overwrite := Some ow |}
  | KIn =>
      {| b_cmds := put (b_num_cmd b) (pred (b_offset b)) Null cmds1; b_toks := toks1;
         b_pos := S (b_pos b); b_num_cmd := b_num_cmd b; b_offset := b_offset b;
         b_file_in := Some tok; b_file_out := b_file_out b;
         b_overwrite := b_overwrite b |}
  | KArg =>
      {| b_cmds := bump (b_num_cmd b) cmds1; b_toks := toks1;
         b_pos := S (b_pos b); b_num_cmd := b_num_cmd b; b_offset := S (b_offset b);
         b_file_in := b_file_in b; b_file_out := b_file_out b;
         b_overwrite := b_overwrite b |}
  end.

(** Every index the loop body uses is inside its array. *)
Definition in_bounds (b : builder) : bool :=
  (b_pos b <? TKS_BUFFER_SIZE) && (b_num_cmd b <? MAX_CMDS)
  && (b_offset b <? ARG_CELLS).

Fixpoint run_pure (prev : option cstr) (b : builder) (l : list cstr) : builder :=
  match l with
  | [] => b
  | tok :: r => run_pure (Some tok) (step_pure prev b tok) r
  end.

Fixpoint fits (prev : option cstr) (b : builder) (l : list cstr) : bool :=
  match l with
  | [] => true
  | tok :: r => in_bounds b && fits (Some tok) (step_pure prev b tok) r
  end.

Definition tee_pure (g : globals) (c : nat) (cs : list Command) : list Command :=
  put c 3 Null (put c 2 (fname_cell g) (put c 1 (Ptr (Lit "-a"))
    (put c 0 (Ptr (Lit "tee")) cs))).

Definition finish_pure (g : globals) (b : builder) : FullCommand :=
  let cmds1 := put (b_num_cmd b) (b_offset b) Null (b_cmds b) in
  {| num_cmds := b_num_cmd b + 1 + tee_stages g;
     cmds := if backup_on g then tee_pure g (S (b_num_cmd b)) cmds1 else cmds1;
     file_out := b_file_out b; file_in := b_file_in b;
     overwrite := b_overwrite b |}.

Definition finish_fits (g : globals) (b : builder) : bool :=
  (b_num_cmd b + tee_stages g <? MAX_CMDS) && (b_offset b <? ARG_CELLS).

(** The arrays have the sizes [cmd_builder] allocated. *)
Definition shape (cs : list Command) : Prop :=
  length cs = MAX_CMDS ∧ Forall (λ cm, length (args cm) = ARG_CELLS) cs.

(** What holds of the locals at the head of the loop: [prev] is the
    token read last, kept in [toks[pos-1]], and a stage that has already
    received a token other than [|] has a positive [offset]. *)
Definition inv (prev : option cstr) (b : builder) : Prop :=
  shape (b_cmds b) ∧ length (b_toks b) = TKS_BUFFER_SIZE ∧
  match prev with
  | None => b_pos b = 0
  | Some p => ∃ i, b_pos b = S i ∧ b_toks b !! i = Some (Ptr p) ∧
                   (is_pipe p = false → 0 < b_offset b)
  end.

(** The stages of a token list: the runs between [|] tokens. *)
Fixpoint segments (l : list cstr) : list (list cstr) :=
  match l with
  | [] => [[]]
  | t :: r =>
      if is_pipe t then [] :: segments r
      else match segments r with
           | s :: ss => (t :: s) :: ss
           | [] => [[t]]
           end
  end.

(** The tokens stored as arguments: those of kind [KArg]. *)
Fixpoint kept (prev : option cstr) (l : list cstr) : list cstr :=
  match l with
  | [] => []
  | t :: r =>
      match classify prev t with
      | KArg => t :: kept (Some t) r
      | _ => kept (Some t) r
      end
  end.

Definition off_of (p : cstr) : nat :=
  match p with
  | Tok o _ => o
  | Lit _ => 0
  end.


(** The locals when the loop ends, and whether the whole of
    [cmd_builder] stays inside its arrays. *)
Definition parsed (line : string) : builder :=
  run_pure None builder_init (tokens line).

Definition line_fits (g : globals) (line : string) : bool :=
  fits None builder_init (tokens line) && finish_fits g (parsed line).

(** ** Notions used to state the properties of execute_cmd *)

Definition slot (t : list (option desc)) (n : nat) : option desc :=
  mjoin (t !! n).

(** What a child finds on its standard input and standard output. *)
Definition stdin_of (p : proc) : option desc := fd_get (p_fds p) 0%Z.
Definition stdout_of (p : proc) : option desc := fd_get (p_fds p) 1%Z.

(** The children [cs], in the order they were forked, form a chain: the
    first reads [d_in], the last writes [d_last], and each one in
    between writes the pipe the next one reads. *)
Fixpoint wired (d_in : desc) (cs : list proc) (d_last : desc) : Prop :=
  match cs with
  | [] => True
  | p :: rest =>
      stdin_of p = Some d_in ∧
      match rest with
      | [] => stdout_of p = Some d_last
      | _ => ∃ k, stdout_of p = Some (PipeWr k) ∧ wired (PipeRd k) rest d_last
      end
  end.

(** The children [cs] are the stages [i, i+1, ...] of [cmd], with the
    pids [pid0, pid0+1, ...]. *)
Definition staged (cmd : FullCommand) (i : nat) (pid0 : Z) (cs : list proc) : Prop :=
  ∀ k p, cs !! k = Some p →
         p_pid p = (pid0 + Z.of_nat k)%Z ∧ stage_argv cmd (i + k) = Ok (p_argv p).

(** Everything but the descriptor table is as before. *)
Definition fds_only (s s' : os) : Prop :=
  procs s' = procs s ∧ events s' = events s ∧ next_pid s' = next_pid s.

(** [s'] is [s] with descriptor [x] now holding [v]. *)
Definition fds_upd (s s' : os) (x : Z) (v : option desc) : Prop :=
  fds_only s s' ∧
  ∀ m, fd_get (fdt s') m = if decide (m = x) then v else fd_get (fdt s) m.

Definition is_wait (e : event) : bool :=
  match e with
  | EvWait _ _ => true
  | _ => false
  end.

Definition wait_events (s : os) : list event := List.filter is_wait (events s).

(** The state in which a computation leaves the shell, when it ends
    defined. *)
Definition final_os {A : Type} (r : result A) : option os :=
  match r with
  | Ret _ s => Some s
  | Exited _ s => Some s
  | Undef _ => None
  end.

(** [m] never waits for a child. *)
Definition no_wait {A : Type} (m : exec A) : Prop :=
  ∀ s s', final_os (m s) = Some s' → wait_events s' = wait_events s.




(** The loop has taken the lines [input] one after the other, each turn
    ending with a status other than 0, and is back at its head. *)
Inductive session (env : environ) : globals → os → list string → globals → os → Prop :=
| session_nil g s : session env g s [] g s
| session_cons g s raw st g1 s1 rest g2 s2 :
    loop_turn env g raw s = Ret (st, g1) s1 →
    st ≠ 0%Z →
    session env g1 s1 rest g2 s2 →
    session env g s (raw :: rest) g2 s2.

Definition boot : os :=
  {| fdt := [Some (Inherited 0); Some (Inherited 1); Some (Inherited 2)];
     procs := []; next_pid := 100; next_pipe := 0; events := [] |}.

(** Every file opens and every program ends with status 0. *)
Definition env_ok : environ :=
  {| can_read := λ _, true; can_write := λ _, true; run := λ _, Some 0%Z |}.

(** No file opens. *)
Definition env_nofile : environ :=
  {| can_read := λ _, false; can_write := λ _, false; run := λ _, Some 0%Z |}.

(** What the stage loop relies on when it starts a turn: [fd_in] and
    [tout] are open and are neither each other nor 0 or 1, which are
    open too. *)
Definition loop_pre (s : os) (tout fd_in : Z) (d_in d_out : desc) : Prop :=
  fd_get (fdt s) fd_in = Some d_in ∧ fd_get (fdt s) tout = Some d_out ∧
  is_Some (fd_get (fdt s) 0%Z) ∧ is_Some (fd_get (fdt s) 1%Z) ∧
  fd_in ≠ 0%Z ∧ fd_in ≠ 1%Z ∧ fd_in ≠ tout ∧ tout ≠ 0%Z ∧ tout ≠ 1%Z.

(** What the first stage reads and what the last stage writes. *)
Definition source_desc (cmd : FullCommand) (d0 : desc) : desc :=
  match file_in cmd with
  | Some f => FileRd (str f)
  | None => d0
  end.

Definition sink_desc (cmd : FullCommand) (d1 : desc) : desc :=
  match file_out cmd with
  | Some f => FileWr (str f) (negb (default 0%Z (overwrite cmd) =? 0)%Z)
  | None => d1
  end.

(** The redirection files, if any, open. *)
Definition input_ready (env : environ) (cmd : FullCommand) : Prop :=
  match file_in cmd with
  | Some f => can_read env (str f) = true
  | None => True
  end.

Definition output_ready (env : environ) (cmd : FullCommand) : Prop :=
  match file_out cmd with
  | Some f => can_write env (str f) = true ∧ is_Some (overwrite cmd)
  | None => True
  end.

(** Every stage has an argument vector [execvp] can read. *)
Definition stages_readable (cmd : FullCommand) : Prop :=
  ∀ j, j < num_cmds cmd → ∃ av, stage_argv cmd j = Ok av.

(** [execvp] can read the argument vector [a]. *)
Definition readable (a : list cell) : Prop := ∃ av, argv a = Ok av.

(** The stages already closed are readable, and the cells of the current
    stage below [offset] have been written. *)
Definition filled (b : builder) : Prop :=
  (∀ c, c < b_num_cmd b → ∃ cm, b_cmds b !! c = Some cm ∧ readable (args cm)) ∧
  (∀ i, i < b_offset b →
        ∃ x, cell_at (b_cmds b) (b_num_cmd b) i = Some x ∧ x ≠ Garbage).


(** The token read last once the tokens [l] have been taken after
    [prev]. *)
Definition last_tok (prev : option cstr) (l : list cstr) : option cstr :=
  match last l with
  | Some t => Some t
  | None => prev
  end.

(** ** Sample configurations and inputs *)

Definition no_backup : globals :=
  {| bg := 0; fd := (-1); backup := 0; fname := None |}.

Definition with_backup : globals :=
  {| bg := 0; fd := 3; backup := 1; fname := Some "log" |}.

Definition nl : string := String "010"%char EmptyString.

Fixpoint repeat_string (n : nat) (s : string) : string :=
  match n with
  | O => EmptyString
  | S n' => s +:+ repeat_string n' s
  end.

Definition seventeen_stages : string := repeat_string 16 "a | " +:+ "a".

Definition many_args : string := repeat_string 101 "a ".

(** The files the Pipeline redirects to can be opened. *)
Definition files_open (env : environ) (cmd : FullCommand) : Prop :=
  (∀ f, file_in cmd = Some f → can_read env (str f) = true) ∧
  (∀ f, file_out cmd = Some f → can_write env (str f) = true).

(** Only [events] differs. *)
Definition events_only (s s' : os) : Prop :=
  fdt s' = fdt s ∧ procs s' = procs s ∧ next_pid s' = next_pid s ∧
  next_pipe s' = next_pipe s.

Definition quit_pipeline : FullCommand := finish_pure no_backup (parsed "quit").

Definition sample_pipeline : FullCommand :=
  finish_pure no_backup (parsed "echo hi | tr a-z A-Z").


Definition missing_input_pipeline : FullCommand :=
  finish_pure no_backup (parsed "cat < missing").


(** ** Notions used to state further properties of the tokens *)

(** [s] has no space. *)
Fixpoint no_space (s : string) : bool :=
  match s with
  | EmptyString => true
  | String c s' => negb (Ascii.eqb c " "%char) && no_space s'
  end.

(** [p] is empty or ends with a space; [r] is empty or starts with one. *)
Definition ends_with_space (p : string) : Prop :=
  p = EmptyString ∨ ∃ p', p = p' +:+ " ".

Definition starts_with_space (r : string) : Prop :=
  r = EmptyString ∨ ∃ r', r = String " "%char r'.

(** The token [t] is the text found in [line] at its offset: a run of
    characters other than the space, with a space or an end of the line
    on either side. *)
Definition located (line : string) (t : cstr) : Prop :=
  ∃ o c before after,
    t = Tok o c ∧ line = before +:+ c +:+ after ∧ String.length before = o ∧
    c ≠ EmptyString ∧ no_space c = true ∧
    ends_with_space before ∧ starts_with_space after.

(** What [strtok_scan] knows of the text [pre] it has read. *)
Definition scanned (pre : string) (cur : option cstr) : Prop :=
  match cur with
  | None => ends_with_space pre
  | Some t => ∃ o c before,
      t = Tok o c ∧ pre = before +:+ c ∧ String.length before = o ∧
      c ≠ EmptyString ∧ no_space c = true ∧ ends_with_space before
  end.

(** The words [ws] with one space between them. *)
Fixpoint unwords (ws : list string) : string :=
  match ws with
  | [] => EmptyString
  | [w] => w
  | w :: rest => w +:+ " " +:+ unwords rest
  end.

(** A word: not empty, no space. *)
Definition is_word (w : string) : Prop := w ≠ EmptyString ∧ no_space w = true.


(** ** Notions used to state further properties of cmd_builder *)

Definition is_redirect (t : cstr) : bool :=
  streq (str t) ">" || streq (str t) "<" || streq (str t) ">>".

(** The arguments a stage made of the tokens [seg] passes to its
    program: the tokens up to the first redirection operator; the
    operator itself when nothing follows it in the stage; nothing of
    what follows the operator otherwise. *)
Fixpoint visible (seg : list cstr) : list cstr :=
  match seg with
  | [] => []
  | t :: r =>
      if is_redirect t
      then match r with
           | [] => [t]
           | _ :: _ => []
           end
      else t :: visible r
  end.

Definition ends_with_op (cur : list cstr) : bool :=
  match last cur with
  | Some t => is_redirect t
  | None => false
  end.

(** The argument array of the stage being filled: either every token
    read for it is stored ([Open]), or a [NULL] stored over a
    redirection operator has cut it ([Sealed]). *)
Inductive stage_state : Type :=
| Open (cur : list cstr)
| Sealed (cur : list cstr).

Definition next_state (st : stage_state) (t : cstr) : stage_state :=
  match st with
  | Open cur =>
      if ends_with_op cur then Sealed (take (pred (length cur)) cur)
      else Open (cur ++ [t])
  | Sealed cur => Sealed cur
  end.

Definition expected (st : stage_state) (seg : list cstr) : list cstr :=
  match st with
  | Open cur =>
      if ends_with_op cur
      then match seg with
           | [] => cur
           | _ :: _ => take (pred (length cur)) cur
           end
      else cur ++ visible seg
  | Sealed cur => cur
  end.

Definition stage_cells (cs : list Command) (c : nat) (st : stage_state)
    (offset : nat) : Prop :=
  match st with
  | Open cur =>
      length cur = offset ∧
      ∀ i t, cur !! i = Some t → cell_at cs c i = Some (Ptr t)
  | Sealed cur =>
      length cur < offset ∧
      (∀ i t, cur !! i = Some t → cell_at cs c i = Some (Ptr t)) ∧
      cell_at cs c (length cur) = Some Null
  end.

Definition stage_rel (prev : option cstr) (b : builder) (st : stage_state) : Prop :=
  stage_cells (b_cmds b) (b_num_cmd b) st (b_offset b) ∧
  match st with
  | Open cur =>
      match last cur with
      | Some t => prev = Some t
      | None => match prev with
                | Some p => is_redirect p = false
                | None => True
                end
      end
  | Sealed _ => True
  end.

Definition argv_at (cs : list Command) (c : nat) : outcome (list string) :=
  match cs !! c with
  | Some cm => argv (args cm)
  | None => Undefined OutOfBounds
  end.

(** ** print_command *)

(** What [print_command] prints, one item for each conversion. *)
Inductive printed : Type :=
| PrCommands (n : nat)
| PrCommand (i : nat)
| PrArguments (n : Z)
| PrArg (s : string)
| PrNewline
| PrInputFile (f : string)
| PrOutputFile (f : string).

(** [for (int j = 0; j < num_arg; j++) fprintf(stdout, "%s ", args[j]);]
    with [n] turns left. *)
Fixpoint print_args (a : list cell) (j n : nat) : outcome (list printed) :=
  match n with
  | O => Ok []
  | S n' =>
      s ← deref a j;
      rest ← print_args a (S j) n';
      Ok (PrArg s :: rest)
  end.

(** [printf("... %s\n", p)] *)
Definition print_file (mk : string → printed) (p : option cstr)
  : outcome (list printed) :=
  match p with
  | Some f => Ok [mk (str f)]
  | None => Undefined NullDeref
  end.

(** The body of the outer [for] of [print_command], for stage [i], with
    [n] turns left. *)
Fixpoint print_stages (cmd : FullCommand) (i n : nat) : outcome (list printed) :=
  match n with
  | O => Ok []
  | S n' =>
      cm ← match cmds cmd !! i with
           | Some cm => Ok cm
           | None => Undefined OutOfBounds
           end;
      num_arg ← match num_args cm with
                | Some v => Ok v
                | None => Undefined Uninit
                end;
      printed_args ← print_args (args cm) 0 (Z.to_nat num_arg);
      input ← print_file PrInputFile (file_in cmd);
      output ← print_file PrOutputFile (file_out cmd);
      rest ← print_stages cmd (S i) n';
      Ok ([PrCommand (i + 1); PrArguments num_arg] ++ printed_args
          ++ [PrNewline] ++ input ++ output ++ rest)
  end.

Definition print_command (cmd : FullCommand) : outcome (list printed) :=
  rest ← print_stages cmd 0 (num_cmds cmd);
  Ok (PrCommands (num_cmds cmd) :: rest).


(** ** The capacity of the parser's arrays *)

(** The tokens [l] fit what [cmd_builder] allocates: the token buffer,
    the stages (the transcript stage included) and, in each stage, the
    argument cells, the terminating [NULL] counted. *)
Definition within_capacity (g : globals) (l : list cstr) : Prop :=
  length l ≤ TKS_BUFFER_SIZE ∧
  count_pipes l + tee_stages g < MAX_CMDS ∧
  Forall (λ seg, length (kept None seg) < ARG_CELLS) (segments l).

#[global] Instance within_capacity_dec g l : Decision (within_capacity g l).
Proof. unfold within_capacity. apply _. Defined.


(** ** The descriptors the children inherit *)

(** What the last stage finds on descriptor 1: the output file when one
    is named and opens, the shell's saved standard output when none is
    named, and otherwise what descriptor 1 held when the last turn of
    the stage loop began. *)
Definition last_stdout (env : environ) (cmd : FullCommand) (d_out d_cur : desc)
  : desc :=
  match file_out cmd with
  | Some f =>
      if can_write env (str f)
      then FileWr (str f) (negb (default 0%Z (overwrite cmd) =? 0)%Z)
      else d_cur
  | None => d_out
  end.

(** The whole descriptor table of each child of [cs], in the order they
    were forked.  [base] is what the descriptors other than 0 and 1 hold
    in the shell, [d_in] what the first child reads, [d_cur] what
    descriptor 1 holds before the first child's turn, and [id] the
    number of the next pipe.  A child that is not the last one writes
    pipe [id] and holds, besides [base], the read end of that same pipe
    at some descriptor [r]. *)
Fixpoint chain (base : Z → option desc) (final : desc → desc)
    (d_in d_cur : desc) (id : nat) (cs : list proc) : Prop :=
  match cs with
  | [] => True
  | p :: rest =>
      fd_get (p_fds p) 0%Z = Some d_in ∧
      match rest with
      | [] =>
          fd_get (p_fds p) 1%Z = Some (final d_cur) ∧
          ∀ m, m ≠ 0%Z → m ≠ 1%Z → fd_get (p_fds p) m = base m
      | _ :: _ =>
          fd_get (p_fds p) 1%Z = Some (PipeWr id) ∧
          (∃ r, r ≠ 0%Z ∧ r ≠ 1%Z ∧ base r = None ∧
                ∀ m, m ≠ 0%Z → m ≠ 1%Z →
                     fd_get (p_fds p) m =
                       if decide (m = r) then Some (PipeRd id) else base m) ∧
          chain base final (PipeRd id) (PipeWr id) (S id) rest
      end
  end.

(** The descriptors other than 0 and 1 of a child of [execute_cmd],
    apart from a pipe's read end: the shell's own, and [tin] and [tout],
    the copies of the shell's standard input and output. *)
Definition saved_table (s : os) (tin tout : Z) (d0 d1 : desc) (m : Z)
  : option desc :=
  if decide (m = tin) then Some d0
  else if decide (m = tout) then Some d1
  else fd_get (fdt s) m.

(** No descriptor of [s] is the write end of a pipe yet to be made. *)
Definition pipes_fresh (s : os) : Prop :=
  ∀ m k, fd_get (fdt s) m = Some (PipeWr k) → k < next_pipe s.


(** ** main *)

Definition EXIT_SUCCESS : Z := 0%Z.

(** What [main] prints on the standard error stream when it is given
    more than one argument. *)
Definition usage : string := "nsh usage: './nsh filename'" +:+ nl.

(** [if (fd != -1) close(fd); return EXIT_SUCCESS;] *)
Definition main_exit (g : globals) : exec Z :=
  _ ← (if (fd g =? -1)%Z then mret 0%Z else sys_close (fd g));
  mret EXIT_SUCCESS.

(** [main], on the argument vector [args] (the program's name first) and
    the lines [input] of the standard input.  The globals start at zero
    and [fd] is set to -1; the result is what [main] returns. *)
Definition main (env : environ) (args input : list string) : exec Z :=
  match args with
  | [_] =>
      g' ← loop env {| bg := 0; fd := -1; backup := 0; fname := None |} input;
      main_exit g'
  | [_; path] =>
      n ← sys_open (can_write env path) (FileWr path false);
      if (n =? -1)%Z then
        _ ← emit EvPerror;
        mret EXIT_FAILURE
      else
        g' ← loop env {| bg := 0; fd := n; backup := 1; fname := Some path |}
               input;
        main_exit g'
  | _ =>
      _ ← emit (EvWrite 2 usage (String.length usage));
      mret EXIT_FAILURE
  end.

(** [main] gets as far as the command loop. *)
Definition startable (env : environ) (args : list string) : Prop :=
  match args with
  | [_] => True
  | [_; path] => can_write env path = true
  | _ => False
  end.

(** The line [raw], as [getline] delivers it, has [quit] for its first
    word. *)
Definition quits (raw : string) : Prop :=
  ∃ g line g', get_cmd g raw = Ok (line, g') ∧
               str <$> head (tokens line) = Some "quit".

(** ** Sample runs of the embedding *)

Example tokens_skip_spaces :
  tokens "  a |  bc " = [Tok 2 "a"; Tok 4 "|"; Tok 7 "bc"].
Proof. reflexivity. Qed.

Example parse_three_stages :
  ∃ fc, cmd_builder no_backup "a | b | c" = Ok fc ∧
        num_cmds fc = 3 ∧
        stage_argv fc 0 = Ok ["a"] ∧ stage_argv fc 1 = Ok ["b"] ∧
        stage_argv fc 2 = Ok ["c"] ∧
        file_in fc = None ∧ file_out fc = None.
Proof. eexists. split; [by vm_compute|]. by vm_compute. Qed.

Example parse_both_redirections :
  ∃ fc, cmd_builder no_backup "cat < in.txt > out.txt" = Ok fc ∧
        num_cmds fc = 1 ∧ stage_argv fc 0 = Ok ["cat"] ∧
        str <$> file_in fc = Some "in.txt" ∧
        str <$> file_out fc = Some "out.txt" ∧ overwrite fc = Some 1%Z.
Proof. eexists. split; [by vm_compute|]. by vm_compute. Qed.

(** The [NULL] stored over a redirection operator ends the argument
    vector there: what follows the operand in the same stage is not
    passed to the program. *)
Example parse_words_after_operand :
  ∃ fc, cmd_builder no_backup "cat > out.txt notes" = Ok fc ∧
        stage_argv fc 0 = Ok ["cat"].
Proof. eexists. split; [by vm_compute|]. by vm_compute. Qed.

Example get_cmd_background :
  get_cmd no_backup ("sleep 5 &" +:+ nl) = Ok ("sleep 5 ", set_bg no_backup 1%Z).
Proof. reflexivity. Qed.

Example run_two_stages :
  ∃ s', execute_cmd env_ok sample_pipeline 0%Z boot = Ret 1%Z s' ∧
        (p_argv <$> procs s') = [["echo"; "hi"]; ["tr"; "a-z"; "A-Z"]] ∧
        (stdout_of <$> procs s') = [Some (PipeWr 0); Some (Inherited 1)] ∧
        (stdin_of <$> procs s') = [Some (Inherited 0); Some (PipeRd 0)].
Proof. eexists. split; [by vm_compute|]. by vm_compute. Qed.

(** ** The arrays *)

Lemma shape_put c i v cs : shape cs → shape (put c i v cs).
Proof.
  intros [Hl Hf]. split.
  - unfold put. by rewrite length_alter.
  - unfold put. apply Forall_alter; [done|].
    intros cm _ Hcm. simpl. by rewrite length_insert.
Qed.

Lemma shape_bump c cs : shape cs → shape (bump c cs).
Proof.
  intros [Hl Hf]. split.
  - unfold bump. by rewrite length_alter.
  - unfold bump. apply Forall_alter; [done|]. by intros cm _ Hcm.
Qed.

Lemma shape_lookup cs c :
  shape cs → c < MAX_CMDS → ∃ cm, cs !! c = Some cm ∧ length (args cm) = ARG_CELLS.
Proof.
  intros [Hl Hf] Hc.
  destruct (lookup_lt_is_Some_2 cs c) as [cm Hcm]; [lia|].
  exists cm. split; [done|].
  by apply (Forall_lookup_1 _ _ _ _ Hf Hcm).
Qed.

Lemma store_eq (a : list cell) i v :
  store a i v = if i <? length a then Ok (<[i := v]> a) else Undefined OutOfBounds.
Proof. done. Qed.

Lemma store_arg_eq cs c i v :
  shape cs →
  store_arg cs c i v =
    if (c <? MAX_CMDS) && (i <? ARG_CELLS) then Ok (put c i v cs)
    else Undefined OutOfBounds.
Proof.
  intros Hs. unfold store_arg.
  destruct (c <? MAX_CMDS) eqn:Hc; simpl.
  - apply Nat.ltb_lt in Hc.
    destruct (shape_lookup cs c Hs Hc) as (cm & Hcm & Hlen).
    rewrite Hcm. unfold store. rewrite Hlen.
    destruct (i <? ARG_CELLS); simpl; [|done].
    f_equal. unfold put.
    apply list_eq. intros j.
    destruct (decide (c = j)) as [->|Hne].
    + rewrite list_lookup_alter_eq, Hcm. simpl.
      apply list_lookup_insert_eq. by apply lookup_lt_Some in Hcm.
    + by rewrite list_lookup_alter_ne, list_lookup_insert_ne.
  - apply Nat.ltb_ge in Hc. destruct Hs as [Hl _].
    rewrite (lookup_ge_None_2 cs c); [done|lia].
Qed.

Lemma incr_num_args_eq cs c :
  shape cs →
  incr_num_args cs c =
    if c <? MAX_CMDS then Ok (bump c cs) else Undefined OutOfBounds.
Proof.
  intros Hs. unfold incr_num_args.
  destruct (c <? MAX_CMDS) eqn:Hc.
  - apply Nat.ltb_lt in Hc.
    destruct (shape_lookup cs c Hs Hc) as (cm & Hcm & Hlen).
    rewrite Hcm. f_equal. unfold bump.
    apply list_eq. intros j.
    destruct (decide (c = j)) as [->|Hne].
    + rewrite list_lookup_alter_eq, Hcm. simpl.
      apply list_lookup_insert_eq. by apply lookup_lt_Some in Hcm.
    + by rewrite list_lookup_alter_ne, list_lookup_insert_ne.
  - apply Nat.ltb_ge in Hc. destruct Hs as [Hl _].
    rewrite (lookup_ge_None_2 cs c); [done|lia].
Qed.

Lemma cell_at_put_ne cs c i v c' i' :
  (c, i) ≠ (c', i') → cell_at (put c i v cs) c' i' = cell_at cs c' i'.
Proof.
  intros Hne. unfold cell_at, put.
  destruct (decide (c = c')) as [->|Hc].
  - rewrite list_lookup_alter_eq. destruct (cs !! c') as [cm|]; simpl; [|done].
    apply list_lookup_insert_ne. congruence.
  - by rewrite list_lookup_alter_ne.
Qed.

Lemma cell_at_put_eq cs c i v :
  shape cs → c < MAX_CMDS → i < ARG_CELLS → cell_at (put c i v cs) c i = Some v.
Proof.
  intros Hs Hc Hi. unfold cell_at, put.
  destruct (shape_lookup cs c Hs Hc) as (cm & Hcm & Hlen).
  rewrite list_lookup_alter_eq, Hcm. simpl.
  apply list_lookup_insert_eq. lia.
Qed.

Lemma cell_at_bump cs c c' i' : cell_at (bump c cs) c' i' = cell_at cs c' i'.
Proof.
  unfold cell_at, bump.
  destruct (decide (c = c')) as [->|Hc].
  - rewrite list_lookup_alter_eq. by destruct (cs !! c').
  - by rewrite list_lookup_alter_ne.
Qed.

(** ** The loop of cmd_builder, turn by turn *)

Lemma streq_eq a b : streq a b = true ↔ a = b.
Proof. apply String.eqb_eq. Qed.

Lemma prev_is_eq prev b tok op :
  inv prev b →
  prev_is (<[b_pos b := Ptr tok]> (b_toks b)) (b_pos b) op =
    Ok (match prev with
        | Some p => streq (str p) op
        | None => false
        end).
Proof.
  intros (_ & _ & Hp). destruct prev as [p|].
  - destruct Hp as (i & Hpos & Hi & _). rewrite Hpos. simpl.
    unfold deref. rewrite list_lookup_insert_ne by lia. by rewrite Hi.
  - by rewrite Hp.
Qed.

Lemma operator_not_pipe p op :
  streq (str p) op = true → op ≠ "|" → is_pipe p = false.
Proof.
  intros H Hop. apply streq_eq in H. unfold is_pipe.
  destruct (streq (str p) "|") eqn:E; [|done].
  apply streq_eq in E. congruence.
Qed.

Lemma store_arg_before_eq prev b tok op :
  inv prev b → in_bounds b = true →
  (match prev with
   | Some p => streq (str p) op
   | None => false
   end) = true →
  op ≠ "|" →
  store_arg_before (put (b_num_cmd b) (b_offset b) (Ptr tok) (b_cmds b))
                   (b_num_cmd b) (b_offset b) =
    Ok (put (b_num_cmd b) (pred (b_offset b)) Null
            (put (b_num_cmd b) (b_offset b) (Ptr tok) (b_cmds b))).
Proof.
  intros (Hs & _ & Hp) Hb Hop Hne.
  destruct prev as [p|]; [|done].
  destruct Hp as (i & _ & _ & Hoff).
  specialize (Hoff (operator_not_pipe _ _ Hop Hne)).
  unfold in_bounds in Hb. apply andb_prop in Hb as [Hb Hb3].
  apply andb_prop in Hb as [Hb1 Hb2].
  destruct (b_offset b) as [|o] eqn:Eo; [lia|]. simpl.
  rewrite store_arg_eq by (by apply shape_put).
  rewrite Hb2. simpl.
  apply Nat.ltb_lt in Hb3.
  assert ((o <? ARG_CELLS) = true) as -> by (apply Nat.ltb_lt; lia).
  done.
Qed.

Lemma builder_step_eq prev b tok :
  inv prev b →
  builder_step b tok =
    if in_bounds b then Ok (step_pure prev b tok) else Undefined OutOfBounds.
Proof.
  intros Hinv. pose proof Hinv as (Hs & Ht & Hp).
  unfold builder_step. rewrite store_eq, Ht.
  unfold in_bounds.
  destruct (b_pos b <? TKS_BUFFER_SIZE) eqn:Hb1; simpl; [|done].
  rewrite store_arg_eq by done.
  destruct (b_num_cmd b <? MAX_CMDS) eqn:Hb2; simpl; [|done].
  destruct (b_offset b <? ARG_CELLS) eqn:Hb3; simpl; [|done].
  assert (in_bounds b = true) as Hb.
  { unfold in_bounds. by rewrite Hb1, Hb2, Hb3. }
  unfold step_pure, classify. fold (is_pipe tok).
  destruct (is_pipe tok) eqn:Hpipe.
  { rewrite store_arg_eq by (by apply shape_put). by rewrite Hb2, Hb3. }
  rewrite (prev_is_eq prev b tok ">" Hinv). simpl.
  destruct prev as [p|]; simpl.
  - destruct (streq (str p) ">") eqn:E1.
    { rewrite (store_arg_before_eq (Some p) b tok ">"); done. }
    rewrite (prev_is_eq (Some p) b tok "<" Hinv). simpl.
    destruct (streq (str p) "<") eqn:E2.
    { rewrite (store_arg_before_eq (Some p) b tok "<"); done. }
    rewrite (prev_is_eq (Some p) b tok ">>" Hinv). simpl.
    destruct (streq (str p) ">>") eqn:E3.
    { rewrite (store_arg_before_eq (Some p) b tok ">>"); done. }
    rewrite incr_num_args_eq by (by apply shape_put). by rewrite Hb2.
  - rewrite (prev_is_eq None b tok "<" Hinv). simpl.
    rewrite (prev_is_eq None b tok ">>" Hinv). simpl.
    rewrite incr_num_args_eq by (by apply shape_put). by rewrite Hb2.
Qed.

Lemma classify_pipe prev tok : classify prev tok = KPipe ↔ is_pipe tok = true.
Proof.
  unfold classify. destruct (is_pipe tok); [done|].
  split; [|done]. destruct prev as [p|]; [|done].
  by repeat case_match.
Qed.

Lemma classify_operand prev tok :
  classify prev tok ≠ KPipe → classify prev tok ≠ KArg →
  is_pipe tok = false ∧ ∃ p, prev = Some p ∧ is_pipe p = false.
Proof.
  unfold classify. destruct (is_pipe tok); [done|]. intros _ H.
  split; [done|]. destruct prev as [p|]; [|done].
  exists p. split; [done|].
  destruct (streq (str p) ">") eqn:E1; [by eapply operator_not_pipe|].
  destruct (streq (str p) "<") eqn:E2; [by eapply operator_not_pipe|].
  destruct (streq (str p) ">>") eqn:E3; [by eapply operator_not_pipe|].
  done.
Qed.

Lemma step_pos prev b tok : b_pos (step_pure prev b tok) = S (b_pos b).
Proof. unfold step_pure. by destruct (classify prev tok). Qed.

Lemma step_toks prev b tok :
  b_toks (step_pure prev b tok) = <[b_pos b := Ptr tok]> (b_toks b).
Proof. unfold step_pure. by destruct (classify prev tok). Qed.

Lemma step_num_cmd prev b tok :
  b_num_cmd (step_pure prev b tok) = (if is_pipe tok then 1 else 0) + b_num_cmd b.
Proof.
  unfold step_pure, classify. destruct (is_pipe tok); [done|].
  destruct prev as [p|]; [|done]. by repeat case_match.
Qed.

Lemma step_offset_le prev b tok : b_offset (step_pure prev b tok) ≤ S (b_offset b).
Proof. unfold step_pure. destruct (classify prev tok); simpl; lia. Qed.

Lemma step_shape prev b tok :
  shape (b_cmds b) → shape (b_cmds (step_pure prev b tok)).
Proof.
  intros Hs. unfold step_pure.
  destruct (classify prev tok); simpl;
    repeat first [apply shape_put | apply shape_bump]; done.
Qed.

Lemma inv_step prev b tok :
  inv prev b → in_bounds b = true → inv (Some tok) (step_pure prev b tok).
Proof.
  intros (Hs & Ht & Hp) Hb. split; [by apply step_shape|].
  rewrite step_toks, step_pos, length_insert. split; [done|].
  exists (b_pos b). split; [done|]. split.
  - apply list_lookup_insert_eq. rewrite Ht.
    unfold in_bounds in Hb. apply andb_prop in Hb as [Hb _].
    apply andb_prop in Hb as [Hb _]. by apply Nat.ltb_lt.
  - intros Hnp. unfold step_pure.
    destruct (classify prev tok) eqn:Hk; simpl; try lia.
    + apply classify_pipe in Hk. congruence.
    + destruct (classify_operand prev tok) as (_ & p & -> & Hpp);
        [congruence..|].
      destruct Hp as (i & _ & _ & Hoff). by apply Hoff.
    + destruct (classify_operand prev tok) as (_ & p & -> & Hpp);
        [congruence..|].
      destruct Hp as (i & _ & _ & Hoff). by apply Hoff.
Qed.

Lemma inv_init : inv None builder_init.
Proof.
  split; [|split]; [|done..]. split; [done|].
  apply Forall_replicate. done.
Qed.

Lemma builder_loop_eq l : ∀ prev b,
  inv prev b →
  builder_loop b l =
    if fits prev b l then Ok (run_pure prev b l) else Undefined OutOfBounds.
Proof.
  induction l as [|tok r IH]; intros prev b Hinv; simpl; [done|].
  rewrite (builder_step_eq prev b tok Hinv).
  destruct (in_bounds b) eqn:Hb; simpl; [|done].
  apply IH. by apply inv_step.
Qed.

Lemma run_shape l : ∀ prev b, shape (b_cmds b) → shape (b_cmds (run_pure prev b l)).
Proof.
  induction l as [|tok r IH]; intros prev b Hs; simpl; [done|].
  apply IH. by apply step_shape.
Qed.

Lemma run_pos l : ∀ prev b, b_pos (run_pure prev b l) = b_pos b + length l.
Proof.
  induction l as [|tok r IH]; intros prev b; simpl; [lia|].
  rewrite IH, step_pos. lia.
Qed.

Lemma run_num_cmd l : ∀ prev b,
  b_num_cmd (run_pure prev b l) = b_num_cmd b + count_pipes l.
Proof.
  induction l as [|tok r IH]; intros prev b; simpl; [lia|].
  rewrite IH, step_num_cmd. lia.
Qed.

Lemma run_offset_le l : ∀ prev b,
  b_offset (run_pure prev b l) ≤ b_offset b + length l.
Proof.
  induction l as [|tok r IH]; intros prev b; simpl; [lia|].
  etrans; [apply IH|]. pose proof (step_offset_le prev b tok). lia.
Qed.

(** The loop stays inside its arrays when the line is short enough. *)
Lemma fits_intro l : ∀ prev b,
  b_pos b + length l ≤ TKS_BUFFER_SIZE →
  b_num_cmd b + count_pipes l < MAX_CMDS →
  b_offset b + length l ≤ ARG_CELLS →
  fits prev b l = true.
Proof.
  induction l as [|tok r IH]; intros prev b H1 H2 H3; simpl in *; [done|].
  apply andb_true_intro. split.
  - unfold in_bounds. rewrite !andb_true_iff, !Nat.ltb_lt. lia.
  - apply IH.
    + rewrite step_pos. lia.
    + rewrite step_num_cmd. lia.
    + pose proof (step_offset_le prev b tok). lia.
Qed.

(** A loop that stayed inside its arrays read no more tokens than
    [toks] holds and met no more [|] than there are stages. *)
Lemma fits_elim l : ∀ prev b,
  b_pos b ≤ TKS_BUFFER_SIZE → b_num_cmd b ≤ MAX_CMDS →
  fits prev b l = true →
  b_pos b + length l ≤ TKS_BUFFER_SIZE ∧ b_num_cmd b + count_pipes l ≤ MAX_CMDS.
Proof.
  induction l as [|tok r IH]; intros prev b H1 H2 Hf; simpl in *; [lia|].
  apply andb_prop in Hf as [Hb Hf].
  unfold in_bounds in Hb. rewrite !andb_true_iff, !Nat.ltb_lt in Hb.
  destruct Hb as [[Hb1 Hb2] Hb3].
  apply IH in Hf.
  - rewrite step_pos, step_num_cmd in Hf. lia.
  - rewrite step_pos. lia.
  - rewrite step_num_cmd. destruct (is_pipe tok); lia.
Qed.

Lemma append_tee_eq g cs c :
  shape cs →
  append_tee g cs c =
    if c <? MAX_CMDS then Ok (tee_pure g c cs) else Undefined OutOfBounds.
Proof.
  intros Hs. unfold append_tee, tee_pure.
  rewrite store_arg_eq by done.
  destruct (c <? MAX_CMDS) eqn:Hc; simpl; [|done].
  rewrite store_arg_eq by (by apply shape_put). rewrite Hc. simpl.
  rewrite store_arg_eq by (by repeat apply shape_put). rewrite Hc. simpl.
  rewrite store_arg_eq by (by repeat apply shape_put). by rewrite Hc.
Qed.

Lemma builder_finish_eq g b :
  shape (b_cmds b) →
  builder_finish g b =
    if finish_fits g b then Ok (finish_pure g b) else Undefined OutOfBounds.
Proof.
  intros Hs. unfold builder_finish, finish_fits, finish_pure, tee_stages, backup_on.
  rewrite store_arg_eq by done.
  destruct (backup g =? 0)%Z eqn:Hbk; simpl.
  - rewrite Nat.add_0_r.
    destruct (b_num_cmd b <? MAX_CMDS); simpl; [|done].
    destruct (b_offset b <? ARG_CELLS); simpl; [|done].
    do 2 f_equal. lia.
  - replace (b_num_cmd b + 1) with (S (b_num_cmd b)) by lia.
    destruct (b_offset b <? ARG_CELLS) eqn:Ho;
      destruct (b_num_cmd b <? MAX_CMDS) eqn:Hc; simpl;
      rewrite ?andb_false_r; try done.
    + rewrite append_tee_eq by (by apply shape_put).
      destruct (S (b_num_cmd b) <? MAX_CMDS); simpl; [|done].
      do 2 f_equal. lia.
    + apply Nat.ltb_ge in Hc.
      assert ((S (b_num_cmd b) <? MAX_CMDS) = false) as ->; [|done].
      apply Nat.ltb_ge. lia.
Qed.

(** [cmd_builder] either builds the structure or writes outside one of
    its arrays; it has no other way to end. *)
Lemma cmd_builder_eq g line :
  cmd_builder g line =
    if line_fits g line then Ok (finish_pure g (parsed line))
    else Undefined OutOfBounds.
Proof.
  unfold cmd_builder, line_fits, parsed.
  rewrite (builder_loop_eq _ None builder_init inv_init).
  destruct (fits None builder_init (tokens line)); simpl; [|done].
  apply builder_finish_eq. apply run_shape. apply inv_init.
Qed.

Lemma parsed_num_cmd line : b_num_cmd (parsed line) = count_pipes (tokens line).
Proof. unfold parsed. by rewrite run_num_cmd. Qed.

Lemma line_fits_intro g line :
  length (tokens line) ≤ 100 →
  count_pipes (tokens line) + tee_stages g < MAX_CMDS →
  line_fits g line = true.
Proof.
  intros Hlen Hk. unfold line_fits. apply andb_true_intro. split.
  - apply fits_intro; simpl; unfold TKS_BUFFER_SIZE, ARG_CELLS; lia.
  - unfold finish_fits. rewrite parsed_num_cmd.
    rewrite andb_true_iff, !Nat.ltb_lt. split; [done|].
    pose proof (run_offset_le (tokens line) None builder_init) as Ho.
    fold (parsed line) in Ho. simpl in Ho. unfold ARG_CELLS. lia.
Qed.

Lemma line_fits_elim g line :
  line_fits g line = true →
  length (tokens line) ≤ TKS_BUFFER_SIZE ∧
  count_pipes (tokens line) + tee_stages g < MAX_CMDS.
Proof.
  unfold line_fits. intros H. apply andb_prop in H as [Hf Hfin].
  apply fits_elim in Hf; simpl; [|unfold TKS_BUFFER_SIZE; lia|unfold MAX_CMDS; lia].
  unfold finish_fits in Hfin. rewrite parsed_num_cmd in Hfin.
  rewrite andb_true_iff, !Nat.ltb_lt in Hfin. simpl in Hf. lia.
Qed.

(** C1 (amended).  For every input line with k [|] tokens, a Pipeline
    that [cmd_builder] produces has [num_cmds] = k+1 when transcript
    backup is off and k+2 when it is on: the appended [tee -a fname]
    stage is counted.  And [cmd_builder] does produce one when the line
    fits its fixed arrays: at most 100 tokens, and at most 16 stages with
    the transcript stage counted. *)
Theorem cmd_builder_stage_count g line :
  (∀ fc, cmd_builder g line = Ok fc →
         num_cmds fc = if (backup g =? 0)%Z
                       then count_pipes (tokens line) + 1
                       else count_pipes (tokens line) + 2) ∧
  (length (tokens line) ≤ 100 →
   count_pipes (tokens line) + tee_stages g < MAX_CMDS →
   ∃ fc, cmd_builder g line = Ok fc).
Proof.
  split.
  - intros fc. rewrite cmd_builder_eq.
    destruct (line_fits g line); [|done]. intros [= <-].
    simpl. rewrite parsed_num_cmd.
    unfold tee_stages, backup_on. destruct (backup g =? 0)%Z; simpl; lia.
  - intros Hlen Hk. rewrite cmd_builder_eq, line_fits_intro by done. by eexists.
Qed.

Lemma cmd_builder_stage_count_witness :
  ∃ fc, cmd_builder no_backup "a | b | c" = Ok fc ∧ num_cmds fc = 3.
Proof.
  destruct (cmd_builder_stage_count no_backup "a | b | c") as [Hn Hex].
  destruct Hex as [fc Hfc]; [vm_compute; lia..|].
  exists fc. split; [done|]. apply (Hn fc Hfc).
Defined.

(** With transcript backup on, a line with one [|] parses to three
    stages, not two. *)
Lemma stage_count_backup_counterexample :
  count_pipes (tokens "a | b") = 1 ∧
  ∃ fc, cmd_builder with_backup "a | b" = Ok fc ∧ num_cmds fc = 3.
Proof. split; [done|]. eexists. split; [by vm_compute|done]. Qed.

(** C8 (the code at the failing inputs).  A line with more than 128
    tokens, or whose stages (the transcript stage counted) are more than
    16, makes [cmd_builder] write outside an array it allocated: it
    reports nothing and builds no Pipeline. *)
Theorem cmd_builder_overflow g line :
  TKS_BUFFER_SIZE < length (tokens line) ∨
  MAX_CMDS ≤ count_pipes (tokens line) + tee_stages g →
  cmd_builder g line = Undefined OutOfBounds.
Proof.
  intros H. rewrite cmd_builder_eq.
  destruct (line_fits g line) eqn:Hf; [|done].
  apply line_fits_elim in Hf. lia.
Qed.

Lemma cmd_builder_overflow_witness :
  cmd_builder no_backup seventeen_stages = Undefined OutOfBounds.
Proof.
  apply (cmd_builder_overflow no_backup seventeen_stages).
  right. vm_compute. lia.
Defined.

(** One stage with 101 arguments overruns its argument array when the
    closing [NULL] is stored. *)
Lemma cmd_builder_overflow_args :
  length (tokens many_args) = 101 ∧
  cmd_builder no_backup many_args = Undefined OutOfBounds.
Proof. split; by vm_compute. Qed.

(** ** The descriptor table *)

Lemma slot_fd_set_eq t : ∀ n v, slot (fd_set t n v) n = v.
Proof.
  unfold slot. induction t as [|x t IH]; intros n v.
  - induction n as [|n IHn]; simpl; [done|]. apply IHn.
  - destruct n as [|n]; simpl; [done|]. apply IH.
Qed.

Lemma slot_fd_set_ne t : ∀ n m v, n ≠ m → slot (fd_set t n v) m = slot t m.
Proof.
  unfold slot. induction t as [|x t IH]; intros n m v Hne.
  - revert m Hne. induction n as [|n IHn]; intros m Hne; simpl.
    + destruct m; [done|]. done.
    + destruct m as [|m]; [done|]. simpl.
      rewrite IHn by lia. by destruct m.
  - destruct n as [|n], m as [|m]; simpl; try done. apply IH. lia.
Qed.

Lemma fd_alloc_spec t d : ∀ n t',
  fd_alloc t d = (n, t') →
  slot t n = None ∧ slot t' n = Some d ∧ ∀ m, m ≠ n → slot t' m = slot t m.
Proof.
  unfold slot. induction t as [|x t IH]; intros n t' H; simpl in H.
  - injection H as <- <-. split; [done|]. split; [done|].
    intros [|m] Hm; [done|]. done.
  - destruct x as [x|].
    + destruct (fd_alloc t d) as [n0 t0] eqn:E. injection H as <- <-.
      destruct (IH n0 t0 eq_refl) as (H1 & H2 & H3).
      split; [done|]. split; [done|].
      intros [|m] Hm; [done|]. simpl. apply H3. lia.
    + injection H as <- <-. split; [done|]. split; [done|].
      intros [|m] Hm; [done|]. done.
Qed.

Lemma fd_get_slot t (n : nat) : fd_get t (Z.of_nat n) = slot t n.
Proof.
  unfold fd_get, slot.
  assert ((Z.of_nat n <? 0)%Z = false) as -> by (apply Z.ltb_ge; lia).
  by rewrite Nat2Z.id.
Qed.

Lemma fd_get_nonneg t fd d : fd_get t fd = Some d → (0 ≤ fd)%Z.
Proof.
  unfold fd_get. destruct (fd <? 0)%Z eqn:E; [done|].
  intros _. by apply Z.ltb_ge in E.
Qed.

Lemma fd_get_fd_set t (n : nat) v m :
  fd_get (fd_set t n v) m = if decide (m = Z.of_nat n) then v else fd_get t m.
Proof.
  destruct (decide (m = Z.of_nat n)) as [->|Hne].
  - rewrite fd_get_slot. apply slot_fd_set_eq.
  - unfold fd_get. destruct (m <? 0)%Z eqn:E; [done|].
    apply Z.ltb_ge in E. apply slot_fd_set_ne. lia.
Qed.

Lemma fd_get_fd_alloc t d n t' :
  fd_alloc t d = (n, t') →
  fd_get t (Z.of_nat n) = None ∧
  ∀ m, fd_get t' m = if decide (m = Z.of_nat n) then Some d else fd_get t m.
Proof.
  intros H. destruct (fd_alloc_spec t d n t' H) as (H1 & H2 & H3). split.
  - by rewrite fd_get_slot.
  - intros m. destruct (decide (m = Z.of_nat n)) as [->|Hne].
    + by rewrite fd_get_slot.
    + unfold fd_get. destruct (m <? 0)%Z eqn:E; [done|].
      apply Z.ltb_ge in E. apply H3. lia.
Qed.

(** ** The system calls *)

Lemma bind_Ret {A B : Type} (m : exec A) (k : A → exec B) s a s' :
  m s = Ret a s' → (m ≫= k) s = k a s'.
Proof. intros H. unfold mbind, exec_bind. by rewrite H. Qed.

Lemma bind_lift_Ok {A B : Type} (a : A) (k : A → exec B) s :
  (lift (Ok a) ≫= k) s = k a s.
Proof. done. Qed.

Lemma fds_only_trans s1 s2 s3 : fds_only s1 s2 → fds_only s2 s3 → fds_only s1 s3.
Proof. intros (?&?&?) (?&?&?). repeat split; congruence. Qed.

Lemma sys_dup_spec s old d :
  fd_get (fdt s) old = Some d →
  ∃ new s', sys_dup old s = Ret new s' ∧ (0 ≤ new)%Z ∧
            fd_get (fdt s) new = None ∧ fds_upd s s' new (Some d).
Proof.
  intros H. unfold sys_dup. rewrite H.
  destruct (fd_alloc (fdt s) d) as [n t'] eqn:E.
  destruct (fd_get_fd_alloc _ _ _ _ E) as [H1 H2].
  exists (Z.of_nat n), (with_fdt s t'). repeat split; [lia|done..].
Qed.

Lemma sys_open_spec s d :
  ∃ new s', sys_open true d s = Ret new s' ∧ (0 ≤ new)%Z ∧
            fd_get (fdt s) new = None ∧ fds_upd s s' new (Some d).
Proof.
  unfold sys_open.
  destruct (fd_alloc (fdt s) d) as [n t'] eqn:E.
  destruct (fd_get_fd_alloc _ _ _ _ E) as [H1 H2].
  exists (Z.of_nat n), (with_fdt s t'). repeat split; [lia|done..].
Qed.

Lemma sys_dup2_spec s old new d :
  fd_get (fdt s) old = Some d → (0 ≤ new)%Z →
  ∃ s', sys_dup2 old new s = Ret new s' ∧ fds_upd s s' new (Some d).
Proof.
  intros H Hn. unfold sys_dup2. rewrite H.
  assert ((new <? 0)%Z = false) as -> by (apply Z.ltb_ge; lia).
  eexists. split; [done|]. split; [done|]. simpl. intros m.
  rewrite fd_get_fd_set. rewrite Z2Nat.id by done. done.
Qed.

Lemma sys_close_spec s fd d :
  fd_get (fdt s) fd = Some d →
  ∃ s', sys_close fd s = Ret 0%Z s' ∧ fds_upd s s' fd None.
Proof.
  intros H. unfold sys_close. rewrite H.
  eexists. split; [done|]. split; [done|]. simpl. intros m.
  rewrite fd_get_fd_set. rewrite Z2Nat.id by (by eapply fd_get_nonneg). done.
Qed.

Lemma sys_pipe_spec s :
  ∃ r w s', sys_pipe s = Ret (r, w) s' ∧ (0 ≤ r)%Z ∧ (0 ≤ w)%Z ∧ r ≠ w ∧
            fd_get (fdt s) r = None ∧ fd_get (fdt s) w = None ∧
            fds_only s s' ∧
            ∀ m, fd_get (fdt s') m =
                 if decide (m = w) then Some (PipeWr (next_pipe s))
                 else if decide (m = r) then Some (PipeRd (next_pipe s))
                 else fd_get (fdt s) m.
Proof.
  unfold sys_pipe.
  destruct (fd_alloc (fdt s) (PipeRd (next_pipe s))) as [r t1] eqn:E1.
  destruct (fd_alloc t1 (PipeWr (next_pipe s))) as [w t2] eqn:E2.
  destruct (fd_get_fd_alloc _ _ _ _ E1) as [H1 H2].
  destruct (fd_get_fd_alloc _ _ _ _ E2) as [H3 H4].
  assert (Z.of_nat r ≠ Z.of_nat w) as Hne.
  { intros Heq. rewrite H2, <- Heq in H3. by rewrite decide_True in H3. }
  exists (Z.of_nat r), (Z.of_nat w). eexists.
  split; [done|]. split; [lia|]. split; [lia|]. split; [done|].
  split; [done|]. split.
  { rewrite H2 in H3. by rewrite decide_False in H3. }
  split; [done|]. simpl. intros m. rewrite H4.
  destruct (decide (m = Z.of_nat w)); [done|]. by rewrite H2.
Qed.

(** Whatever their arguments, [dup2] and [close] return to the caller
    and touch the descriptor table only. *)
Lemma sys_dup2_frame s old new :
  ∃ r s', sys_dup2 old new s = Ret r s' ∧ fds_only s s'.
Proof.
  unfold sys_dup2. destruct (fd_get (fdt s) old);
    [destruct (new <? 0)%Z|]; (do 2 eexists; split; [done|by repeat split]).
Qed.

Lemma sys_close_frame s fd :
  ∃ r s', sys_close fd s = Ret r s' ∧ fds_only s s'.
Proof.
  unfold sys_close. destruct (fd_get (fdt s) fd);
    (do 2 eexists; split; [done|by repeat split]).
Qed.

(** ** The stage loop *)

Ltac fd_case :=
  match goal with
  | |- context [decide (?a = ?b)] =>
      first [ rewrite (decide_True (P := a = b)) by done
            | rewrite (decide_False (P := a = b)) by (done || congruence) ]
  end.

Lemma open_output_spec env cmd tout fd_in s d_out :
  output_ready env cmd →
  fd_get (fdt s) tout = Some d_out → (0 ≤ fd_in)%Z →
  ∃ fd_out s', open_output env cmd tout fd_in s = Ret fd_out s' ∧
               fd_get (fdt s) fd_out = None ∧
               fds_upd s s' fd_out (Some (sink_desc cmd d_out)).
Proof.
  unfold output_ready, open_output, sink_desc. intros Hout Ht Hfd.
  destruct (file_out cmd) as [f|].
  - destruct Hout as [Hw [ow How]]. unfold read_overwrite. rewrite How, Hw.
    rewrite bind_lift_Ok.
    destruct (sys_open_spec s (FileWr (str f) (negb (ow =? 0)%Z)))
      as (fd_out & s' & E & _ & Hfree & U).
    rewrite (bind_Ret _ _ _ _ _ E).
    assert ((fd_in <? 0)%Z = false) as -> by (apply Z.ltb_ge; lia).
    by exists fd_out, s'.
  - destruct (sys_dup_spec s tout d_out Ht) as (fd_out & s' & E & _ & Hfree & U).
    by exists fd_out, s'.
Qed.

(** Redirecting the output to [fd_out] and forking one stage. *)
Lemma spawn_spec {A : Type} (k : Z → exec A) s fd_out dl av :
  fd_get (fdt s) fd_out = Some dl → fd_out ≠ 1%Z →
  ∃ s' p,
    (sys_dup2 fd_out 1%Z ≫= λ _, sys_close fd_out ≫= λ _,
       lift (Ok av) ≫= λ av0, sys_fork av0 ≫= k) s = k (next_pid s) s' ∧
    procs s' = procs s ++ [p] ∧ p_pid p = next_pid s ∧ p_argv p = av ∧
    p_fds p = fdt s' ∧ events s' = events s ∧
    next_pid s' = (next_pid s + 1)%Z ∧
    ∀ m, fd_get (fdt s') m =
         if decide (m = fd_out) then None
         else if decide (m = 1%Z) then Some dl
         else fd_get (fdt s) m.
Proof.
  intros Hfd Hne.
  destruct (sys_dup2_spec s fd_out 1%Z dl Hfd) as (s1 & E1 & F1 & U1); [done|].
  rewrite (bind_Ret _ _ _ _ _ E1).
  assert (fd_get (fdt s1) fd_out = Some dl) as Hfd1.
  { rewrite U1. by fd_case. }
  destruct (sys_close_spec s1 fd_out dl Hfd1) as (s2 & E2 & F2 & U2).
  rewrite (bind_Ret _ _ _ _ _ E2).
  destruct F1 as (P1 & V1 & Q1), F2 as (P2 & V2 & Q2).
  rewrite bind_lift_Ok.
  exists {| fdt := fdt s2;
            procs := procs s2 ++ [{| p_pid := next_pid s2; p_fds := fdt s2;
                                     p_argv := av |}];
            next_pid := (next_pid s2 + 1)%Z; next_pipe := next_pipe s2;
            events := events s2 |},
         {| p_pid := next_pid s2; p_fds := fdt s2; p_argv := av |}.
  split.
  { replace (next_pid s) with (next_pid s2) by congruence. done. }
  simpl. split_and!; try done; try congruence.
  intros m. rewrite U2. destruct (decide (m = fd_out)); [done|]. apply U1.
Qed.

Lemma stage_loop_spec env cmd tout d_out :
  output_ready env cmd →
  ∀ n i fd_in pid s d_in,
    i + n = num_cmds cmd →
    (0 < n → loop_pre s tout fd_in d_in d_out) →
    stages_readable cmd →
    ∃ pid' s' (cs : list proc),
      stage_loop env cmd tout n i fd_in pid s = Ret pid' s' ∧
      procs s' = procs s ++ cs ∧ length cs = n ∧
      events s' = events s ∧
      next_pid s' = (next_pid s + Z.of_nat n)%Z ∧
      staged cmd i (next_pid s) cs ∧
      wired d_in cs (sink_desc cmd d_out) ∧
      pid' = match n with
             | O => pid
             | S _ => Some (next_pid s + Z.of_nat n - 1)%Z
             end.
Proof.
  intros Hout. induction n as [|n IH]; intros i fd_in pid s d_in Hn Hpre Hargs.
  { exists pid, s, []. simpl. rewrite app_nil_r.
    split_and!; try done. lia. }
  destruct Hpre as (Hin & Htout & [d0 H0] & [d1 H1] & N1 & N2 & N3 & N4 & N5);
    [lia|].
  destruct (Hargs i) as [av Hav]; [lia|].
  simpl.
  destruct (sys_dup2_spec s fd_in 0%Z d_in Hin) as (s1 & E1 & F1 & U1); [done|].
  rewrite (bind_Ret _ _ _ _ _ E1).
  assert (fd_get (fdt s1) fd_in = Some d_in) as Hin1.
  { rewrite U1. by fd_case. }
  destruct (sys_close_spec s1 fd_in d_in Hin1) as (s2 & E2 & F2 & U2).
  rewrite (bind_Ret _ _ _ _ _ E2).
  assert (fd_get (fdt s2) 0%Z = Some d_in) as H02.
  { rewrite U2. fd_case. rewrite U1. by fd_case. }
  assert (fd_get (fdt s2) 1%Z = Some d1) as H12.
  { rewrite U2. fd_case. rewrite U1. by fd_case. }
  assert (fd_get (fdt s2) tout = Some d_out) as Ht2.
  { rewrite U2. fd_case. rewrite U1. by fd_case. }
  assert (fds_only s s2) as (P2 & V2 & Q2) by (by eapply fds_only_trans).
  rewrite Hav.
  destruct (i =? num_cmds cmd - 1) eqn:Hlast.
  - apply Nat.eqb_eq in Hlast. assert (n = 0) as -> by lia.
    destruct (open_output_spec env cmd tout fd_in s2 d_out Hout Ht2)
      as (fd_out & s3 & E3 & Hfree & (P3 & V3 & Q3) & U3);
      [by eapply fd_get_nonneg|].
    assert (fd_get (fdt s3) fd_out = Some (sink_desc cmd d_out)) as Hfd3.
    { rewrite U3. by fd_case. }
    assert (fd_out ≠ 1%Z) as Hne1 by congruence.
    assert (fd_out ≠ 0%Z) as Hne0 by congruence.
    rewrite (bind_Ret _ (λ '(fd_in', fd_out), _) s2 (fd_in, fd_out) s3)
      by (by rewrite (bind_Ret _ _ _ _ _ E3)).
    destruct (spawn_spec
                (λ pid'0, stage_loop env cmd tout 0 (S i) fd_in (Some pid'0))
                s3 fd_out (sink_desc cmd d_out) av Hfd3 Hne1)
      as (s6 & p & E6 & P6 & Hpid & Hargv & Hfds & V6 & Q6 & U6).
    rewrite E6. simpl.
    exists (Some (next_pid s3)), s6, [p].
    split_and!; try done; try congruence.
    + rewrite Q6, Q3, Q2. lia.
    + intros k p' Hk. destruct k as [|k]; [|done].
      injection Hk as <-. rewrite Nat.add_0_r, Z.add_0_r. split; congruence.
    + simpl. split.
      * unfold stdin_of. rewrite Hfds, U6. do 2 fd_case.
        rewrite U3. by fd_case.
      * unfold stdout_of. rewrite Hfds, U6. by do 2 fd_case.
    + f_equal. rewrite Q3, Q2. lia.
  - apply Nat.eqb_neq in Hlast.
    destruct (sys_pipe_spec s2)
      as (r & w & s3 & E3 & Hr & Hw & Hrw & Fr & Fw & (P3 & V3 & Q3) & U3).
    assert (w ≠ 1%Z) as Hw1 by congruence.
    assert (w ≠ 0%Z) as Hw0 by congruence.
    assert (r ≠ 1%Z) as Hr1 by congruence.
    assert (r ≠ 0%Z) as Hr0 by congruence.
    assert (r ≠ tout) as Hrt by congruence.
    assert (w ≠ tout) as Hwt by congruence.
    assert (fd_get (fdt s3) w = Some (PipeWr (next_pipe s2))) as Hfd3.
    { rewrite U3. by fd_case. }
    rewrite (bind_Ret _ (λ '(fd_in', fd_out), _) s2 (r, w) s3)
      by (by rewrite (bind_Ret _ _ _ _ _ E3)).
    destruct (spawn_spec
                (λ pid'0, stage_loop env cmd tout n (S i) r (Some pid'0))
                s3 w (PipeWr (next_pipe s2)) av Hfd3 Hw1)
      as (s6 & p & E6 & P6 & Hpid & Hargv & Hfds & V6 & Q6 & U6).
    rewrite E6.
    destruct (IH (S i) r (Some (next_pid s3)) s6 (PipeRd (next_pipe s2)))
      as (pid' & s' & cs & E & P & L & V & Q & St & W & Epid);
      [lia| |done|].
    { intros _. unfold loop_pre. split_and!; try done.
      - rewrite U6. do 2 fd_case. rewrite U3. by do 2 fd_case.
      - rewrite U6. do 2 fd_case. rewrite U3. by do 2 fd_case.
      - exists d_in. rewrite U6. do 2 fd_case. rewrite U3. by do 2 fd_case.
      - eexists. rewrite U6. by do 2 fd_case. }
    exists pid', s', (p :: cs).
    split_and!; try done.
    + rewrite P, P6, P3, P2. by rewrite <- app_assoc.
    + simpl. by rewrite L.
    + congruence.
    + rewrite Q, Q6, Q3, Q2. lia.
    + intros k p' Hk. destruct k as [|k].
      * injection Hk as <-. rewrite Nat.add_0_r, Z.add_0_r.
        split; congruence.
      * simpl in Hk. destruct (St k p' Hk) as [St1 St2]. split.
        -- rewrite St1, Q6, Q3, Q2. lia.
        -- rewrite <- St2. f_equal. lia.
    + simpl. split.
      * unfold stdin_of. rewrite Hfds, U6. do 2 fd_case.
        rewrite U3. by do 2 fd_case.
      * destruct cs as [|c cs']; [simpl in L; lia|].
        exists (next_pipe s2). split; [|done].
        unfold stdout_of. rewrite Hfds, U6. by do 2 fd_case.
    + rewrite Epid. destruct n as [|n']; [lia|].
      f_equal. rewrite Q6, Q3, Q2. lia.
Qed.

(** ** execute_cmd *)

Lemma open_input_spec env cmd tin s d0 :
  input_ready env cmd →
  fd_get (fdt s) tin = Some d0 →
  ∃ fd_in s', open_input env cmd tin s = Ret fd_in s' ∧
              fd_get (fdt s) fd_in = None ∧
              fds_upd s s' fd_in (Some (source_desc cmd d0)).
Proof.
  unfold input_ready, open_input, source_desc. intros Hin Ht.
  destruct (file_in cmd) as [f|].
  - rewrite Hin.
    destruct (sys_open_spec s (FileRd (str f)))
      as (fd_in & s' & E & Hpos & Hfree & U).
    rewrite (bind_Ret _ _ _ _ _ E).
    assert ((fd_in <? 0)%Z = false) as -> by (apply Z.ltb_ge; lia).
    by exists fd_in, s'.
  - destruct (sys_dup_spec s tin d0 Ht) as (fd_in & s' & E & _ & Hfree & U).
    by exists fd_in, s'.
Qed.

(** The pid of the last child forked designates that child. *)
Lemma find_proc_last cmd (ps cs : list proc) np lp :
  Forall (λ p, (p_pid p < np)%Z) ps →
  staged cmd 0 np cs →
  last cs = Some lp →
  find_proc (ps ++ cs) (np + Z.of_nat (length cs) - 1)%Z = Some lp ∧
  p_pid lp = (np + Z.of_nat (length cs) - 1)%Z.
Proof.
  intros Hps Hst Hlast. rewrite last_lookup in Hlast.
  assert (0 < length cs) as Hlen.
  { destruct cs; [done|]. simpl. lia. }
  destruct (Hst _ _ Hlast) as [Hpid _].
  assert (p_pid lp = (np + Z.of_nat (length cs) - 1)%Z) as Hpid' by lia.
  split; [|done]. unfold find_proc.
  assert (list_find (λ p, p_pid p = (np + Z.of_nat (length cs) - 1)%Z) (ps ++ cs)
          = Some (length ps + pred (length cs), lp)) as ->; [|done].
  apply list_find_Some. split_and!; [|done|].
  - rewrite lookup_app_r by lia. rewrite <- Hlast. f_equal. lia.
  - intros j y Hj Hlt Hy.
    destruct (decide (j < length ps)) as [Hjl|Hjl].
    + rewrite lookup_app_l in Hj by done.
      pose proof (Forall_lookup_1 _ _ _ _ Hps Hj) as Hy'. simpl in Hy'. lia.
    + rewrite lookup_app_r in Hj by lia.
      destruct (Hst _ _ Hj) as [Hpj _]. lia.
Qed.

(** What [execute_cmd] does when the first stage names a program other
    than [quit] and the redirection files open: it forks every stage,
    wired from the input source to the output sink, then waits for the
    last child unless [bg_flag] is set, and returns 1. *)
Lemma execute_cmd_spec env cmd bg_flag s name d0 d1 :
  first_arg cmd = Ok name → name ≠ "quit" →
  fd_get (fdt s) 0%Z = Some d0 → fd_get (fdt s) 1%Z = Some d1 →
  Forall (λ p, (p_pid p < next_pid s)%Z) (procs s) →
  input_ready env cmd → output_ready env cmd →
  stages_readable cmd → 0 < num_cmds cmd →
  ∃ s' (cs : list proc) lp,
    execute_cmd env cmd bg_flag s = Ret 1%Z s' ∧
    procs s' = procs s ++ cs ∧ length cs = num_cmds cmd ∧
    staged cmd 0 (next_pid s) cs ∧
    wired (source_desc cmd d0) cs (sink_desc cmd d1) ∧
    last cs = Some lp ∧
    events s' = events s ++
                (if (bg_flag =? 0)%Z
                 then [EvWait (p_pid lp) (child_status env lp)] else []).
Proof.
  intros Hname Hq H0 H1 Hpids Hin Hout Hargs Hn.
  unfold execute_cmd. rewrite Hname, bind_lift_Ok.
  assert (streq name "quit" = false) as ->.
  { destruct (streq name "quit") eqn:E; [|done]. by apply streq_eq in E. }
  destruct (sys_dup_spec s 0%Z d0 H0)
    as (tin & s1 & E1 & _ & Ftin & (P1 & V1 & Q1) & U1).
  rewrite (bind_Ret _ _ _ _ _ E1).
  assert (tin ≠ 0%Z) as T0 by congruence.
  assert (tin ≠ 1%Z) as T1 by congruence.
  assert (fd_get (fdt s1) 1%Z = Some d1) as H11.
  { rewrite U1. by fd_case. }
  destruct (sys_dup_spec s1 1%Z d1 H11)
    as (tout & s2 & E2 & _ & Ftout & (P2 & V2 & Q2) & U2).
  rewrite (bind_Ret _ _ _ _ _ E2).
  assert (fd_get (fdt s1) 0%Z = Some d0) as H01.
  { rewrite U1. by fd_case. }
  assert (fd_get (fdt s1) tin = Some d0) as Htin1.
  { rewrite U1. by fd_case. }
  assert (tout ≠ 0%Z) as O0 by congruence.
  assert (tout ≠ 1%Z) as O1 by congruence.
  assert (tout ≠ tin) as Ot by congruence.
  assert (fd_get (fdt s2) tin = Some d0) as Htin2.
  { rewrite U2. by fd_case. }
  assert (fd_get (fdt s2) tout = Some d1) as Htout2.
  { rewrite U2. by fd_case. }
  assert (fd_get (fdt s2) 0%Z = Some d0) as H02.
  { rewrite U2. by fd_case. }
  assert (fd_get (fdt s2) 1%Z = Some d1) as H12.
  { rewrite U2. by fd_case. }
  destruct (open_input_spec env cmd tin s2 d0 Hin Htin2)
    as (fd_in & s3 & E3 & Ffd & (P3 & V3 & Q3) & U3).
  rewrite (bind_Ret _ _ _ _ _ E3).
  assert (fd_in ≠ 0%Z) as I0 by congruence.
  assert (fd_in ≠ 1%Z) as I1 by congruence.
  assert (fd_in ≠ tout) as It by congruence.
  destruct (stage_loop_spec env cmd tout d1 Hout (num_cmds cmd) 0 fd_in None s3
              (source_desc cmd d0))
    as (pid & s4 & cs & E4 & P4 & L4 & V4 & Q4 & St & W & Epid); [done| |done|].
  { intros _. unfold loop_pre. split_and!; try done.
    - rewrite U3. by fd_case.
    - rewrite U3. by fd_case.
    - exists d0. rewrite U3. by fd_case.
    - exists d1. rewrite U3. by fd_case. }
  rewrite (bind_Ret _ _ _ _ _ E4).
  destruct (sys_dup2_frame s4 tin 0%Z) as (r5 & s5 & E5 & F5).
  rewrite (bind_Ret _ _ _ _ _ E5).
  destruct (sys_dup2_frame s5 tout 1%Z) as (r6 & s6 & E6 & F6).
  rewrite (bind_Ret _ _ _ _ _ E6).
  destruct (sys_close_frame s6 tin) as (r7 & s7 & E7 & F7).
  rewrite (bind_Ret _ _ _ _ _ E7).
  destruct (sys_close_frame s7 tout) as (r8 & s8 & E8 & F8).
  rewrite (bind_Ret _ _ _ _ _ E8).
  assert (fds_only s4 s8) as (P8 & V8 & Q8).
  { eapply fds_only_trans; [|done]. eapply fds_only_trans; [|done].
    by eapply fds_only_trans. }
  assert (next_pid s3 = next_pid s) as Q by congruence.
  assert (procs s3 = procs s) as P by congruence.
  assert (events s3 = events s) as V by congruence.
  rewrite Q in St.
  destruct (last cs) as [lp|] eqn:Hlast; cycle 1.
  { apply last_None in Hlast. subst cs. simpl in L4. lia. }
  exists (if (bg_flag =? 0)%Z
          then {| fdt := fdt s8; procs := procs s8; next_pid := next_pid s8;
                  next_pipe := next_pipe s8;
                  events := events s8
                            ++ [EvWait (p_pid lp) (child_status env lp)] |}
          else s8), cs, lp.
  split_and!; try done.
  - destruct (bg_flag =? 0)%Z; [|done].
    destruct (find_proc_last cmd (procs s) cs (next_pid s) lp Hpids St Hlast)
      as [Hfind Hlp].
    unfold mbind at 1, exec_bind, sys_waitpid.
    rewrite Epid. destruct (num_cmds cmd) as [|n] eqn:En; [lia|].
    rewrite P8, P4, P, Q, <- L4, Hfind, <- Hlp. done.
  - destruct (bg_flag =? 0)%Z; simpl; congruence.
  - destruct (bg_flag =? 0)%Z; simpl; [|rewrite app_nil_r]; congruence.
Qed.

(** ** What the loop of cmd_builder leaves in the argument arrays *)

Lemma lookup_put_ne c c' i v cs : c ≠ c' → put c i v cs !! c' = cs !! c'.
Proof. intros H. unfold put. by rewrite list_lookup_alter_ne. Qed.

Lemma lookup_bump_ne c c' cs : c ≠ c' → bump c cs !! c' = cs !! c'.
Proof. intros H. unfold bump. by rewrite list_lookup_alter_ne. Qed.

Lemma step_frame prev b tok c :
  c ≠ b_num_cmd b → b_cmds (step_pure prev b tok) !! c = b_cmds b !! c.
Proof.
  intros Hc. unfold step_pure.
  destruct (classify prev tok); simpl;
    rewrite ?lookup_bump_ne, ?lookup_put_ne by done; done.
Qed.

Lemma step_num_cmd_le prev b tok : b_num_cmd b ≤ b_num_cmd (step_pure prev b tok).
Proof. rewrite step_num_cmd. lia. Qed.

Lemma run_frame l : ∀ prev b c,
  c < b_num_cmd b → b_cmds (run_pure prev b l) !! c = b_cmds b !! c.
Proof.
  induction l as [|tok r IH]; intros prev b c Hc; simpl; [done|].
  rewrite IH by (pose proof (step_num_cmd_le prev b tok); lia).
  apply step_frame. lia.
Qed.

Lemma finish_frame g b c :
  c < b_num_cmd b → cmds (finish_pure g b) !! c = b_cmds b !! c.
Proof.
  intros Hc. unfold finish_pure, tee_pure. simpl.
  destruct (backup_on g); rewrite ?lookup_put_ne by lia; done.
Qed.

Lemma cell_at_Some cs c i x :
  cell_at cs c i = Some x ↔ ∃ cm, cs !! c = Some cm ∧ args cm !! i = Some x.
Proof.
  unfold cell_at. destruct (cs !! c) as [cm|]; simpl.
  - split; [by exists cm|]. by intros (? & [= <-] & ?).
  - split; [done|]. by intros (? & ? & ?).
Qed.

Lemma argv_head_null a : a !! 0 = Some Null → argv a = Ok [].
Proof. destruct a as [|[]]; by intros [=]. Qed.

Lemma readable_intro a : ∀ n,
  (∀ i, i < n → ∃ x, a !! i = Some x ∧ x ≠ Garbage) →
  a !! n = Some Null → readable a.
Proof.
  induction a as [|x a IH]; intros n Hpre Hn; [done|].
  destruct n as [|n].
  - injection Hn as ->. by exists [].
  - destruct (Hpre 0) as (x0 & Hx0 & Hg); [lia|]. injection Hx0 as <-.
    destruct (IH n) as [av Hav]; [|done|].
    { intros i Hi. apply (Hpre (S i)). lia. }
    destruct x as [| |p]; [done|by exists []|].
    exists (str p :: av). simpl. by rewrite Hav.
Qed.

Lemma filled_init : filled builder_init.
Proof. split; simpl; intros ? ?; lia. Qed.

Lemma in_bounds_elim b :
  in_bounds b = true →
  b_pos b < TKS_BUFFER_SIZE ∧ b_num_cmd b < MAX_CMDS ∧ b_offset b < ARG_CELLS.
Proof.
  unfold in_bounds. rewrite !andb_true_iff, !Nat.ltb_lt. tauto.
Qed.

(** Closing the current stage with [NULL] at [offset] makes it
    readable. *)
Lemma close_stage_readable b cs :
  filled b → shape cs → b_num_cmd b < MAX_CMDS → b_offset b < ARG_CELLS →
  (∀ i, i ≠ b_offset b →
        cell_at cs (b_num_cmd b) i = cell_at (b_cmds b) (b_num_cmd b) i) →
  ∃ cm, put (b_num_cmd b) (b_offset b) Null cs !! b_num_cmd b = Some cm ∧
        readable (args cm).
Proof.
  intros [_ Hpre] Hs Hc Ho Hsame.
  pose proof (cell_at_put_eq cs _ _ Null Hs Hc Ho) as Hnull.
  apply cell_at_Some in Hnull as (cm & Hcm & Hn).
  exists cm. split; [done|].
  apply (readable_intro _ (b_offset b)); [|done].
  intros i Hi. destruct (Hpre i Hi) as (x & Hx & Hg).
  exists x. split; [|done].
  rewrite <- Hsame in Hx by lia.
  rewrite <- (cell_at_put_ne cs (b_num_cmd b) (b_offset b) Null) in Hx
    by (intros [=]; lia).
  apply cell_at_Some in Hx as (cm' & Hcm' & Hx). congruence.
Qed.

Lemma filled_step prev b tok :
  inv prev b → in_bounds b = true → filled b → filled (step_pure prev b tok).
Proof.
  intros Hinv Hb Hf. pose proof Hinv as (Hs & _ & Hp).
  pose proof Hf as [Hclosed Hpre].
  apply in_bounds_elim in Hb as (Hb1 & Hb2 & Hb3).
  assert (shape (put (b_num_cmd b) (b_offset b) (Ptr tok) (b_cmds b))) as Hs1
    by (by apply shape_put).
  unfold step_pure. destruct (classify prev tok) eqn:Hk; split; simpl.
  - intros c Hc. destruct (decide (c = b_num_cmd b)) as [->|Hne].
    + apply (close_stage_readable b); try done.
      intros i Hi. apply cell_at_put_ne. intros [=]; lia.
    + rewrite !lookup_put_ne by done. apply Hclosed. lia.
  - intros i Hi. lia.
  - intros c Hc. rewrite !lookup_put_ne by lia. by apply Hclosed.
  - intros i Hi.
    destruct (decide (i = pred (b_offset b))) as [->|Hne].
    + exists Null. split; [|done].
      apply cell_at_put_eq; [done..|lia].
    + rewrite !cell_at_put_ne by (intros [=]; lia). by apply Hpre.
  - intros c Hc. rewrite !lookup_put_ne by lia. by apply Hclosed.
  - intros i Hi.
    destruct (decide (i = pred (b_offset b))) as [->|Hne].
    + exists Null. split; [|done].
      apply cell_at_put_eq; [done..|lia].
    + rewrite !cell_at_put_ne by (intros [=]; lia). by apply Hpre.
  - intros c Hc. rewrite lookup_bump_ne, lookup_put_ne by lia. by apply Hclosed.
  - intros i Hi. rewrite cell_at_bump.
    destruct (decide (i = b_offset b)) as [->|Hne].
    + exists (Ptr tok). split; [|done]. by apply cell_at_put_eq.
    + rewrite cell_at_put_ne by (intros [=]; lia). apply Hpre. lia.
Qed.


Lemma last_tok_cons prev t l : last_tok prev (t :: l) = last_tok (Some t) l.
Proof.
  unfold last_tok. destruct l as [|c l]; [done|].
  change (last (t :: c :: l)) with (last (c :: l)).
  destruct (last (c :: l)) eqn:E; [done|]. by apply last_None in E.
Qed.

Lemma run_inv l : ∀ prev b,
  inv prev b → fits prev b l = true → inv (last_tok prev l) (run_pure prev b l).
Proof.
  induction l as [|tok r IH]; intros prev b Hinv Hf; [done|].
  simpl in Hf. apply andb_prop in Hf as [Hb Hf].
  rewrite last_tok_cons. simpl. apply IH; [|done]. by apply inv_step.
Qed.

Lemma run_filled l : ∀ prev b,
  inv prev b → fits prev b l = true → filled b → filled (run_pure prev b l).
Proof.
  induction l as [|tok r IH]; intros prev b Hinv Hf Hfill; [done|].
  simpl in Hf. apply andb_prop in Hf as [Hb Hf]. simpl.
  apply IH; [by apply inv_step|done|by apply filled_step].
Qed.

Lemma tee_readable g cs c :
  shape cs → c < MAX_CMDS →
  ∃ cm, tee_pure g c cs !! c = Some cm ∧ readable (args cm).
Proof.
  intros Hs Hc. unfold tee_pure.
  set (c0 := put c 0 (Ptr (Lit "tee")) cs).
  set (c1 := put c 1 (Ptr (Lit "-a")) c0).
  set (c2 := put c 2 (fname_cell g) c1).
  assert (shape c0) as Hs0 by (by apply shape_put).
  assert (shape c1) as Hs1 by (by apply shape_put).
  assert (shape c2) as Hs2 by (by apply shape_put).
  unfold c2, c1, c0 in *. clear c0 c1 c2.
  match goal with |- context [put c 3 Null ?x] => set (c2 := x) end.
  assert (cell_at (put c 3 Null c2) c 3 = Some Null) as H3
    by (apply cell_at_put_eq; [done..|unfold ARG_CELLS; lia]).
  unfold c2 in *. clear c2.
  assert (cell_at (put c 3 Null (put c 2 (fname_cell g)
            (put c 1 (Ptr (Lit "-a")) (put c 0 (Ptr (Lit "tee")) cs)))) c 2
          = Some (fname_cell g)) as H2.
  { rewrite cell_at_put_ne by (intros [=]).
    apply cell_at_put_eq; [done..|unfold ARG_CELLS; lia]. }
  assert (cell_at (put c 3 Null (put c 2 (fname_cell g)
            (put c 1 (Ptr (Lit "-a")) (put c 0 (Ptr (Lit "tee")) cs)))) c 1
          = Some (Ptr (Lit "-a"))) as H1.
  { rewrite !cell_at_put_ne by (intros [=]).
    apply cell_at_put_eq; [done..|unfold ARG_CELLS; lia]. }
  assert (cell_at (put c 3 Null (put c 2 (fname_cell g)
            (put c 1 (Ptr (Lit "-a")) (put c 0 (Ptr (Lit "tee")) cs)))) c 0
          = Some (Ptr (Lit "tee"))) as H0.
  { rewrite !cell_at_put_ne by (intros [=]).
    apply cell_at_put_eq; [done..|unfold ARG_CELLS; lia]. }
  apply cell_at_Some in H3 as (cm & Hcm & H3).
  apply cell_at_Some in H2 as (cm2 & Hcm2 & H2).
  apply cell_at_Some in H1 as (cm1 & Hcm1 & H1).
  apply cell_at_Some in H0 as (cm0 & Hcm0 & H0).
  assert (cm2 = cm) as -> by congruence.
  assert (cm1 = cm) as -> by congruence.
  assert (cm0 = cm) as -> by congruence.
  exists cm. split; [done|].
  apply (readable_intro _ 3); [|done].
  intros i Hi. destruct i as [|[|[|i]]]; [eexists; split; [done|]..|lia]; try done.
  unfold fname_cell. by destruct (fname g).
Qed.

Lemma finish_fits_elim g b :
  finish_fits g b = true →
  b_num_cmd b + tee_stages g < MAX_CMDS ∧ b_offset b < ARG_CELLS.
Proof. unfold finish_fits. rewrite andb_true_iff, !Nat.ltb_lt. tauto. Qed.

Lemma finish_readable g b :
  shape (b_cmds b) → filled b → finish_fits g b = true →
  stages_readable (finish_pure g b).
Proof.
  intros Hs Hfill Hfit j Hj.
  apply finish_fits_elim in Hfit as [Hc Ho].
  unfold stage_argv.
  destruct (decide (j < b_num_cmd b)) as [Hlt|Hge].
  { rewrite finish_frame by done.
    destruct Hfill as [Hclosed _].
    destruct (Hclosed j Hlt) as (cm & -> & Hr). done. }
  destruct (close_stage_readable b (b_cmds b) Hfill Hs) as (cm & Hcm & Hr);
    [lia|done|done|].
  simpl in Hj. unfold finish_pure, tee_stages in *. simpl.
  destruct (backup_on g).
  - destruct (decide (j = b_num_cmd b)) as [->|Hne].
    + unfold tee_pure. rewrite !lookup_put_ne by lia. by rewrite Hcm.
    + assert (j = S (b_num_cmd b)) as -> by lia.
      destruct (tee_readable g (put (b_num_cmd b) (b_offset b) Null (b_cmds b))
                  (S (b_num_cmd b))) as (cm' & -> & Hr'); [|lia|done].
      by apply shape_put.
  - assert (j = b_num_cmd b) as -> by lia. by rewrite Hcm.
Qed.

Lemma step_overwrite prev b tok :
  (is_Some (b_file_out b) → is_Some (b_overwrite b)) →
  is_Some (b_file_out (step_pure prev b tok)) →
  is_Some (b_overwrite (step_pure prev b tok)).
Proof. unfold step_pure. destruct (classify prev tok); simpl; eauto. Qed.

Lemma run_overwrite l : ∀ prev b,
  (is_Some (b_file_out b) → is_Some (b_overwrite b)) →
  is_Some (b_file_out (run_pure prev b l)) →
  is_Some (b_overwrite (run_pure prev b l)).
Proof.
  induction l as [|tok r IH]; intros prev b H; simpl; [done|].
  apply IH. by apply step_overwrite.
Qed.

(** A Pipeline that [cmd_builder] returns has at least one stage, every
    stage has an argument vector that ends with [NULL], and [overwrite]
    is assigned whenever there is an output file. *)
Lemma cmd_builder_well_formed g line fc :
  cmd_builder g line = Ok fc →
  fc = finish_pure g (parsed line) ∧ line_fits g line = true ∧
  0 < num_cmds fc ∧ stages_readable fc ∧
  (is_Some (file_out fc) → is_Some (overwrite fc)).
Proof.
  rewrite cmd_builder_eq. destruct (line_fits g line) eqn:Hfit; [|done].
  intros [= <-]. split; [done|]. split; [done|].
  unfold line_fits in Hfit. apply andb_prop in Hfit as [Hf Hfin].
  split; [simpl; lia|]. split.
  - apply finish_readable; [|apply run_filled|done].
    + apply run_shape, inv_init.
    + apply inv_init.
    + done.
    + apply filled_init.
  - simpl. apply run_overwrite. simpl. by intros [? ?].
Qed.

(** ** The claims about execute_cmd and loop *)

Lemma sys_dup_frame s old : ∃ r s', sys_dup old s = Ret r s' ∧ fds_only s s'.
Proof.
  unfold sys_dup. destruct (fd_get (fdt s) old) as [d|].
  - destruct (fd_alloc (fdt s) d) as [n t]. by eexists _, _.
  - by eexists _, _.
Qed.

Lemma write_transcript_spec g line s :
  ∃ s', write_transcript g line s = Ret tt s' ∧ events_only s s' ∧
        wait_events s' = wait_events s.
Proof.
  unfold write_transcript. destruct (backup g =? 0)%Z.
  - by exists s.
  - eexists. split; [done|]. split; [done|].
    unfold wait_events. simpl. rewrite !List.filter_app. simpl.
    by rewrite !app_nil_r.
Qed.

Lemma execute_parsed env g line fc bg_flag s name d0 d1 :
  cmd_builder g line = Ok fc →
  first_arg fc = Ok name → name ≠ "quit" →
  fd_get (fdt s) 0%Z = Some d0 → fd_get (fdt s) 1%Z = Some d1 →
  Forall (λ p, (p_pid p < next_pid s)%Z) (procs s) →
  files_open env fc →
  ∃ s' (cs : list proc) lp,
    execute_cmd env fc bg_flag s = Ret 1%Z s' ∧
    procs s' = procs s ++ cs ∧ length cs = num_cmds fc ∧
    staged fc 0 (next_pid s) cs ∧
    wired (source_desc fc d0) cs (sink_desc fc d1) ∧
    last cs = Some lp ∧
    events s' = events s ++
                (if (bg_flag =? 0)%Z
                 then [EvWait (p_pid lp) (child_status env lp)] else []).
Proof.
  intros Hb Hname Hq H0 H1 Hp [Hin Hout].
  destruct (cmd_builder_well_formed g line fc Hb) as (_ & _ & Hn & Hr & How).
  eapply execute_cmd_spec; try done.
  - unfold input_ready. destruct (file_in fc) as [f|]; [|done]. by apply Hin.
  - unfold output_ready. destruct (file_out fc) as [f|] eqn:E; [|done].
    split; [by apply Hout|]. apply How. by rewrite ?E.
Qed.

(** A turn of the loop up to the call of [execute_cmd]: a prompt and,
    with backup on, the transcript writes. *)
Lemma loop_turn_spec env g raw s line g' cmd :
  get_cmd g raw = Ok (line, g') → cmd_builder g' line = Ok cmd →
  ∃ s1, events_only s s1 ∧ wait_events s1 = wait_events s ∧
        loop_turn env g raw s =
          (execute_cmd env cmd (bg g') ≫= λ st, mret (st, g')) s1.
Proof.
  intros Hget Hb. unfold loop_turn.
  set (s0 := {| fdt := fdt s; procs := procs s; next_pid := next_pid s;
                next_pipe := next_pipe s; events := events s ++ [EvPrompt] |}).
  rewrite (bind_Ret _ _ s tt s0) by done.
  rewrite Hget, bind_lift_Ok.
  destruct (write_transcript_spec g' line s0) as (s1 & E1 & (F1 & P1 & Q1 & K1) & W1).
  rewrite (bind_Ret _ _ _ _ _ E1), Hb, bind_lift_Ok.
  exists s1. split; [done|]. split; [|done].
  rewrite W1. unfold wait_events. simpl. rewrite List.filter_app. simpl.
  by rewrite app_nil_r.
Qed.

(** C6.  When the first stage's program name is [quit], [execute_cmd]
    returns 0 and leaves the operating system as it was: no file is
    opened, no pipe created, no process forked; and [loop], which runs
    while the status is not 0, returns without reading another line. *)
Theorem quit_directive env cmd :
  first_arg cmd = Ok "quit" →
  (∀ bg_flag s, execute_cmd env cmd bg_flag s = Ret 0%Z s) ∧
  (∀ g raw rest line g' s,
     get_cmd g raw = Ok (line, g') → cmd_builder g' line = Ok cmd →
     ∃ s', loop env g (raw :: rest) s = Ret g' s' ∧ events_only s s').
Proof.
  intros Hq.
  assert (∀ bg_flag s, execute_cmd env cmd bg_flag s = Ret 0%Z s) as Hexec.
  { intros bg_flag s. unfold execute_cmd. by rewrite Hq, bind_lift_Ok. }
  split; [done|].
  intros g raw rest line g' s Hget Hb.
  destruct (loop_turn_spec env g raw s line g' cmd Hget Hb) as (s1 & F & _ & E).
  exists s1. split; [|done]. simpl.
  rewrite (bind_Ret _ _ s (0%Z, g') s1); [done|].
  rewrite E. by rewrite (bind_Ret _ _ _ _ _ (Hexec (bg g') s1)).
Qed.

Lemma quit_directive_witness :
  execute_cmd env_ok quit_pipeline 0%Z boot = Ret 0%Z boot ∧
  ∃ s', loop env_ok no_backup ["quit" +:+ nl; "ls" +:+ nl] boot
        = Ret no_backup s' ∧ events_only boot s'.
Proof.
  destruct (quit_directive env_ok quit_pipeline) as [H1 H2]; [by vm_compute|].
  split; [apply H1|].
  apply (H2 no_backup ("quit" +:+ nl) ["ls" +:+ nl] "quit" no_backup boot);
    by vm_compute.
Defined.

(** C2 (amended).  When the first stage names a program other than
    [quit] and the input file cannot be opened, [execute_cmd] reports
    the failure with [perror] and ends the interpreter process with
    [EXIT_FAILURE] before any stage is forked; [loop] ends with it and
    reads no further line. *)
Theorem input_open_failure env cmd name f :
  first_arg cmd = Ok name → name ≠ "quit" →
  file_in cmd = Some f → can_read env (str f) = false →
  (∀ bg_flag s,
     ∃ s', execute_cmd env cmd bg_flag s = Exited EXIT_FAILURE s' ∧
           procs s' = procs s ∧ events s' = events s ++ [EvPerror]) ∧
  (∀ g raw rest line g' s,
     get_cmd g raw = Ok (line, g') → cmd_builder g' line = Ok cmd →
     ∃ s', loop env g (raw :: rest) s = Exited EXIT_FAILURE s' ∧
           procs s' = procs s ∧ last (events s') = Some EvPerror).
Proof.
  intros Hname Hq Hf Hno.
  assert (∀ bg_flag s,
     ∃ s', execute_cmd env cmd bg_flag s = Exited EXIT_FAILURE s' ∧
           procs s' = procs s ∧ events s' = events s ++ [EvPerror]) as Hexec.
  { intros bg_flag s. unfold execute_cmd. rewrite Hname, bind_lift_Ok.
    assert (streq name "quit" = false) as ->.
    { destruct (streq name "quit") eqn:E; [|done]. by apply streq_eq in E. }
    destruct (sys_dup_frame s 0%Z) as (tin & s1 & E1 & P1 & V1 & _).
    rewrite (bind_Ret _ _ _ _ _ E1).
    destruct (sys_dup_frame s1 1%Z) as (tout & s2 & E2 & P2 & V2 & _).
    rewrite (bind_Ret _ _ _ _ _ E2).
    unfold open_input. rewrite Hf, Hno.
    eexists. split; [done|]. simpl. split; congruence. }
  split; [done|].
  intros g raw rest line g' s Hget Hb.
  destruct (loop_turn_spec env g raw s line g' cmd Hget Hb)
    as (s1 & (_ & P1 & _) & _ & E).
  destruct (Hexec (bg g') s1) as (s' & E' & P' & V').
  exists s'. split; [|split; [congruence|]].
  - simpl. unfold mbind at 1, exec_bind. rewrite E.
    unfold mbind, exec_bind. by rewrite E'.
  - rewrite V'. apply last_snoc.
Qed.

Lemma input_open_failure_witness :
  (∃ s', execute_cmd env_nofile missing_input_pipeline 0%Z boot
         = Exited EXIT_FAILURE s' ∧
         procs s' = procs boot ∧ events s' = events boot ++ [EvPerror]) ∧
  ∃ s', loop env_nofile no_backup ["cat < missing" +:+ nl; "ls" +:+ nl] boot
        = Exited EXIT_FAILURE s' ∧
        procs s' = procs boot ∧ last (events s') = Some EvPerror.
Proof.
  destruct (input_open_failure env_nofile missing_input_pipeline "cat"
              (Tok 6 "missing")) as [H1 H2]; [by vm_compute..|].
  split; [apply H1|].
  apply (H2 no_backup ("cat < missing" +:+ nl) ["ls" +:+ nl] "cat < missing"
            no_backup boot); by vm_compute.
Defined.

(** The line [cat < missing], with no file that opens, ends the loop:
    the next line is never read.  And when the output file of [ls > out]
    does not open, the stage is forked all the same and nothing is
    reported. *)
Lemma io_setup_counterexample :
  (∃ s', loop env_nofile no_backup ["cat < missing" +:+ nl; "ls" +:+ nl] boot
         = Exited EXIT_FAILURE s') ∧
  (∃ fc s', cmd_builder no_backup "ls > out" = Ok fc ∧
            execute_cmd env_nofile fc 0%Z boot = Ret 1%Z s' ∧
            length (procs s') = 1 ∧ EvPerror ∉ events s').
Proof.
  split.
  - eexists. by vm_compute.
  - eexists _, _. split; [by vm_compute|]. split; [by vm_compute|].
    split; [done|]. simpl. by intros [[=]|[]%elem_of_nil]%elem_of_cons.
Qed.

(** C3 (amended).  For a Pipeline whose first stage names a program
    other than [quit] and whose redirection files open: with
    [bg_flag] 0, [execute_cmd] waits for the process of the last stage
    and returns 1 to its caller whatever the status that process ended
    with; with [bg_flag] set it returns 1 without waiting for any
    stage. *)
Theorem execute_cmd_wait_policy env g line fc name s d0 d1 :
  cmd_builder g line = Ok fc →
  first_arg fc = Ok name → name ≠ "quit" →
  fd_get (fdt s) 0%Z = Some d0 → fd_get (fdt s) 1%Z = Some d1 →
  Forall (λ p, (p_pid p < next_pid s)%Z) (procs s) →
  files_open env fc →
  (∃ s' lp, execute_cmd env fc 0%Z s = Ret 1%Z s' ∧
            last (procs s') = Some lp ∧
            stage_argv fc (num_cmds fc - 1) = Ok (p_argv lp) ∧
            events s' = events s ++ [EvWait (p_pid lp) (child_status env lp)]) ∧
  (∀ bg_flag, bg_flag ≠ 0%Z →
     ∃ s', execute_cmd env fc bg_flag s = Ret 1%Z s' ∧ events s' = events s).
Proof.
  intros Hb Hname Hq H0 H1 Hp Hfiles. split.
  - destruct (execute_parsed env g line fc 0%Z s name d0 d1)
      as (s' & cs & lp & E & P & L & St & _ & Hlast & V); try done.
    exists s', lp. split; [done|]. split; [|split; [|done]].
    + rewrite P. rewrite last_app, Hlast. done.
    + rewrite last_lookup in Hlast. destruct (St _ _ Hlast) as [_ Ha].
      rewrite <- Ha. f_equal. lia.
  - intros bg_flag Hbg.
    destruct (execute_parsed env g line fc bg_flag s name d0 d1)
      as (s' & cs & lp & E & _ & _ & _ & _ & _ & V); try done.
    exists s'. split; [done|].
    assert ((bg_flag =? 0)%Z = false) as Hz by (by apply Z.eqb_neq).
    rewrite Hz in V. by rewrite app_nil_r in V.
Qed.

Lemma execute_cmd_wait_policy_witness :
  (∃ s' lp, execute_cmd env_ok sample_pipeline 0%Z boot = Ret 1%Z s' ∧
            last (procs s') = Some lp ∧
            stage_argv sample_pipeline (num_cmds sample_pipeline - 1)
              = Ok (p_argv lp) ∧
            events s' = events boot ++ [EvWait (p_pid lp) (child_status env_ok lp)]) ∧
  ∃ s', execute_cmd env_ok sample_pipeline 1%Z boot = Ret 1%Z s' ∧
        events s' = events boot.
Proof.
  destruct (execute_cmd_wait_policy env_ok no_backup "echo hi | tr a-z A-Z"
              sample_pipeline "echo" boot (Inherited 0) (Inherited 1))
    as [Hfg Hbg]; [by vm_compute..|].
  split; [exact Hfg|]. by apply Hbg.
Defined.

(** [echo hi | tr a-z A-Z] in the foreground, every program ending with
    status 0: [execute_cmd] waits for the last stage, which ends with 0,
    and returns 1. *)
Lemma wait_status_counterexample :
  ∃ s', execute_cmd env_ok sample_pipeline 0%Z boot = Ret 1%Z s' ∧
        events s' = [EvWait 101 (ChildExit 0)].
Proof. eexists. split; by vm_compute. Qed.

(** C5 (the code at the failing input).  A line without tokens parses to
    a Pipeline of one stage (two with backup on) whose first stage has
    no program name, and [execute_cmd] hands that null pointer to
    [strcmp]. *)
Theorem blank_line_undefined env g line :
  tokens line = [] →
  ∃ fc, cmd_builder g line = Ok fc ∧
        num_cmds fc = 1 + tee_stages g ∧
        stage_argv fc 0 = Ok [] ∧
        ∀ bg_flag s, execute_cmd env fc bg_flag s = Undef NullDeref.
Proof.
  intros Ht.
  assert (line_fits g line = true) as Hfit.
  { apply line_fits_intro; rewrite Ht; simpl; [lia|].
    unfold tee_stages, MAX_CMDS. destruct (backup_on g); lia. }
  exists (finish_pure g (parsed line)).
  split; [by rewrite cmd_builder_eq, Hfit|].
  unfold parsed. rewrite Ht.
  change (run_pure None builder_init []) with builder_init.
  split; [done|].
  assert (cell_at (cmds (finish_pure g builder_init)) 0 0 = Some Null) as Hc.
  { unfold finish_pure, tee_pure. simpl.
    destruct (backup_on g); by rewrite ?cell_at_put_ne by (intros [=]). }
  apply cell_at_Some in Hc as (cm & Hcm & Hnull). split.
  - unfold stage_argv. rewrite Hcm. by apply argv_head_null.
  - intros bg_flag s. unfold execute_cmd, first_arg, deref.
    by rewrite Hcm, Hnull.
Qed.

Lemma blank_line_undefined_witness :
  ∃ fc, cmd_builder no_backup " " = Ok fc ∧
        num_cmds fc = 1 + tee_stages no_backup ∧
        stage_argv fc 0 = Ok [] ∧
        execute_cmd env_ok fc 0%Z boot = Undef NullDeref.
Proof.
  destruct (blank_line_undefined env_ok no_backup " ")
    as (fc & Hb & Hn & Ha & Hexec); [by vm_compute|].
  exists fc. by split_and!.
Defined.

(** A line made of one space, read by [loop]. *)
Lemma blank_line_loop :
  loop env_ok no_backup [" " +:+ nl; "ls" +:+ nl] boot = Undef NullDeref.
Proof. by vm_compute. Qed.

(** ** get_cmd and the background flag *)

Lemma last_char_snoc s c : last_char (s +:+ String c EmptyString) = Some c.
Proof.
  induction s as [|a s IH]; [done|]. simpl.
  destruct (s +:+ String c EmptyString) eqn:E; [|done].
  by destruct s.
Qed.

Lemma drop_last_snoc s c : drop_last (s +:+ String c EmptyString) = s.
Proof.
  induction s as [|a s IH]; [done|]. simpl.
  destruct (s +:+ String c EmptyString) eqn:E.
  - by destruct s.
  - by rewrite IH.
Qed.

Lemma append_assoc (a b c : string) : (a +:+ b) +:+ c = a +:+ (b +:+ c).
Proof.
  induction a as [|x a IH]; [done|].
  change (String x ((a +:+ b) +:+ c) = String x (a +:+ (b +:+ c))).
  by f_equal.
Qed.

(** A line that ends in [&] sets [bg] and loses the [&]. *)
Lemma get_cmd_amp g body :
  get_cmd g (body +:+ "&" +:+ nl) = Ok (body, set_bg g 1%Z).
Proof.
  unfold get_cmd, nl.
  rewrite <- append_assoc, last_char_snoc, drop_last_snoc.
  by rewrite last_char_snoc, drop_last_snoc.
Qed.

(** [get_cmd] assigns [bg] only the value 1, and nothing else. *)
Lemma get_cmd_globals g raw line g' :
  get_cmd g raw = Ok (line, g') → g' = g ∨ g' = set_bg g 1%Z.
Proof.
  unfold get_cmd. destruct (last_char raw); [|done].
  destruct (last_char (drop_last raw)) as [c|]; [|done].
  destruct (Ascii.eqb c "&"); intros [= _ <-]; eauto.
Qed.











(** ** Computations that never wait *)

Lemma no_wait_bind {A B : Type} (m : exec A) (k : A → exec B) :
  no_wait m → (∀ a, no_wait (k a)) → no_wait (m ≫= k).
Proof.
  intros Hm Hk s s' H. unfold mbind, exec_bind in H.
  destruct (m s) as [a s1|c s1|u] eqn:E.
  - rewrite <- (Hm s s1) by (by rewrite E). by apply (Hk a).
  - injection H as <-. apply Hm. by rewrite E.
  - done.
Qed.

Lemma no_wait_ret {A : Type} (a : A) : no_wait (mret a).
Proof. by intros s s' [= <-]. Qed.

Lemma no_wait_lift {A : Type} (m : outcome A) : no_wait (lift m).
Proof. intros s s'. unfold lift. destruct m; by intros [= <-]. Qed.

Lemma no_wait_exit {A : Type} c : no_wait (@sys_exit A c).
Proof. by intros s s' [= <-]. Qed.

Lemma no_wait_emit e : is_wait e = false → no_wait (emit e).
Proof.
  intros He s s' [= <-]. unfold wait_events. simpl.
  rewrite List.filter_app. simpl. rewrite He. by rewrite app_nil_r.
Qed.

Lemma no_wait_fds_only {A : Type} (m : exec A) :
  (∀ s, ∃ r s', m s = Ret r s' ∧ events s' = events s) → no_wait m.
Proof.
  intros H s s' Hf. destruct (H s) as (r & s1 & E & V).
  rewrite E in Hf. injection Hf as <-. unfold wait_events. by rewrite V.
Qed.

Lemma no_wait_dup old : no_wait (sys_dup old).
Proof.
  apply no_wait_fds_only. intros s.
  destruct (sys_dup_frame s old) as (r & s' & E & _ & V & _). eauto.
Qed.

Lemma no_wait_dup2 old new : no_wait (sys_dup2 old new).
Proof.
  apply no_wait_fds_only. intros s.
  destruct (sys_dup2_frame s old new) as (r & s' & E & _ & V & _). eauto.
Qed.

Lemma no_wait_close fd : no_wait (sys_close fd).
Proof.
  apply no_wait_fds_only. intros s.
  destruct (sys_close_frame s fd) as (r & s' & E & _ & V & _). eauto.
Qed.

Lemma no_wait_open ok d : no_wait (sys_open ok d).
Proof.
  apply no_wait_fds_only. intros s. unfold sys_open.
  destruct ok; [|by eauto]. destruct (fd_alloc (fdt s) d). by eauto.
Qed.

Lemma no_wait_pipe : no_wait sys_pipe.
Proof.
  apply no_wait_fds_only. intros s.
  destruct (sys_pipe_spec s) as (r & w & s' & E & _ & _ & _ & _ & _ & (_ & V & _) & _).
  eauto.
Qed.

Lemma no_wait_fork av : no_wait (sys_fork av).
Proof. apply no_wait_fds_only. intros s. by eexists _, _. Qed.

Lemma no_wait_open_output env cmd tout fd_in :
  no_wait (open_output env cmd tout fd_in).
Proof.
  unfold open_output. destruct (file_out cmd); [|apply no_wait_dup].
  apply no_wait_bind; [apply no_wait_lift|]. intros ow.
  apply no_wait_bind; [apply no_wait_open|]. intros fd_out.
  destruct (fd_in <? 0)%Z; [|apply no_wait_ret].
  apply no_wait_bind; [by apply no_wait_emit|]. intros _. apply no_wait_exit.
Qed.

Lemma no_wait_open_input env cmd tin : no_wait (open_input env cmd tin).
Proof.
  unfold open_input. destruct (file_in cmd); [|apply no_wait_dup].
  apply no_wait_bind; [apply no_wait_open|]. intros fd_in.
  destruct (fd_in <? 0)%Z; [|apply no_wait_ret].
  apply no_wait_bind; [by apply no_wait_emit|]. intros _. apply no_wait_exit.
Qed.

Lemma no_wait_stage_loop env cmd tout n : ∀ i fd_in pid,
  no_wait (stage_loop env cmd tout n i fd_in pid).
Proof.
  induction n as [|n IH]; intros i fd_in pid; simpl; [apply no_wait_ret|].
  apply no_wait_bind; [apply no_wait_dup2|]. intros _.
  apply no_wait_bind; [apply no_wait_close|]. intros _.
  apply no_wait_bind.
  { destruct (i =? num_cmds cmd - 1).
    - apply no_wait_bind; [apply no_wait_open_output|]. intros ?.
      apply no_wait_ret.
    - apply no_wait_bind; [apply no_wait_pipe|]. intros [r w].
      apply no_wait_ret. }
  intros [fd_in' fd_out].
  apply no_wait_bind; [apply no_wait_dup2|]. intros _.
  apply no_wait_bind; [apply no_wait_close|]. intros _.
  apply no_wait_bind; [apply no_wait_lift|]. intros av.
  apply no_wait_bind; [apply no_wait_fork|]. intros pid'. apply IH.
Qed.

(** With [bg_flag] set, [execute_cmd] never waits, however it ends. *)
Lemma no_wait_execute_cmd env cmd bg_flag :
  bg_flag ≠ 0%Z → no_wait (execute_cmd env cmd bg_flag).
Proof.
  intros Hbg. unfold execute_cmd.
  apply no_wait_bind; [apply no_wait_lift|]. intros name.
  destruct (streq name "quit"); [apply no_wait_ret|].
  apply no_wait_bind; [apply no_wait_dup|]. intros tin.
  apply no_wait_bind; [apply no_wait_dup|]. intros tout.
  apply no_wait_bind; [apply no_wait_open_input|]. intros fd_in.
  apply no_wait_bind; [apply no_wait_stage_loop|]. intros pid.
  apply no_wait_bind; [apply no_wait_dup2|]. intros _.
  apply no_wait_bind; [apply no_wait_dup2|]. intros _.
  apply no_wait_bind; [apply no_wait_close|]. intros _.
  apply no_wait_bind; [apply no_wait_close|]. intros _.
  apply no_wait_bind; [|intros _; apply no_wait_ret].
  assert ((bg_flag =? 0)%Z = false) as -> by (by apply Z.eqb_neq).
  apply no_wait_ret.
Qed.

Lemma no_wait_write_transcript g line : no_wait (write_transcript g line).
Proof.
  intros s s' H. destruct (write_transcript_spec g line s) as (s1 & E & _ & W).
  rewrite E in H. by injection H as <-.
Qed.

Lemma get_cmd_bg_kept g raw line g' :
  get_cmd g raw = Ok (line, g') → bg g ≠ 0%Z → bg g' ≠ 0%Z.
Proof.
  intros H Hbg. by destruct (get_cmd_globals _ _ _ _ H) as [->| ->].
Qed.

Lemma no_wait_lift_bind {A B : Type} (m : outcome A) (k : A → exec B) :
  (∀ a, m = Ok a → no_wait (k a)) → no_wait (lift m ≫= k).
Proof.
  intros H. destruct m as [a|u]; [|by intros s s' [=]].
  intros s s'. rewrite bind_lift_Ok. by apply H.
Qed.

Lemma no_wait_loop_turn env g raw : bg g ≠ 0%Z → no_wait (loop_turn env g raw).
Proof.
  intros Hbg. unfold loop_turn.
  apply no_wait_bind; [by apply no_wait_emit|]. intros _.
  apply no_wait_lift_bind. intros [line g'] Hget.
  apply no_wait_bind; [apply no_wait_write_transcript|]. intros _.
  apply no_wait_bind; [apply no_wait_lift|]. intros cmd.
  apply no_wait_bind; [|intros ?; apply no_wait_ret].
  apply no_wait_execute_cmd. by eapply get_cmd_bg_kept.
Qed.

Lemma loop_turn_globals env g raw s st g' s' :
  loop_turn env g raw s = Ret (st, g') s' → g' = g ∨ g' = set_bg g 1%Z.
Proof.
  unfold loop_turn. unfold mbind at 1, exec_bind. simpl.
  destruct (get_cmd g raw) as [[line g1]|u] eqn:Hget; [|done].
  rewrite bind_lift_Ok.
  intros H. apply get_cmd_globals in Hget.
  unfold mbind, exec_bind in H.
  repeat (match type of H with
          | match ?m with _ => _ end = _ => destruct m; try done
          end).
  unfold mret, exec_ret in H. by injection H as _ <- _.
Qed.

(** Once [bg] is set, the rest of the loop never waits. *)
Lemma no_wait_loop env input : ∀ g, bg g ≠ 0%Z → no_wait (loop env g input).
Proof.
  induction input as [|raw rest IH]; intros g Hbg; simpl.
  { apply no_wait_bind; [by apply no_wait_emit|]. intros _. apply no_wait_lift. }
  intros s s' H. unfold mbind, exec_bind in H.
  destruct (loop_turn env g raw s) as [[st g'] s1|c s1|u] eqn:E; [| |done].
  - pose proof (no_wait_loop_turn env g raw Hbg s s1) as W1.
    rewrite E in W1. specialize (W1 eq_refl).
    destruct (st =? 0)%Z.
    + injection H as <-. done.
    + rewrite <- W1. apply (IH g'); [|done].
      by destruct (loop_turn_globals _ _ _ _ _ _ _ E) as [->| ->].
  - injection H as <-.
    pose proof (no_wait_loop_turn env g raw Hbg s s1) as W1.
    rewrite E in W1. by apply W1.
Qed.

Lemma session_bg_kept env g s input g' s' :
  session env g s input g' s' → bg g ≠ 0%Z →
  bg g' ≠ 0%Z ∧ wait_events s' = wait_events s.
Proof.
  induction 1 as [|g s raw st g1 s1 rest g2 s2 Hturn Hst Hsess IH]; intros Hbg;
    [done|].
  pose proof (no_wait_loop_turn env g raw Hbg s s1) as W1.
  rewrite Hturn in W1. specialize (W1 eq_refl).
  destruct IH as [IH1 IH2].
  { by destruct (loop_turn_globals _ _ _ _ _ _ _ Hturn) as [->| ->]. }
  split; [done|]. congruence.
Qed.

(** C10.  The background flag is sticky.  When a line ends in [&],
    [get_cmd] sets [bg], and nothing clears it: after that line and any
    number of further lines [bg] is still set, [execute_cmd] has
    waited for no stage of any of them, and it waits for none in
    whatever the loop reads afterwards, whether those lines end in [&] or
    not. *)
Theorem background_sticky env g s body rest g' s' :
  session env g s ((body +:+ "&" +:+ nl) :: rest) g' s' →
  bg g' ≠ 0%Z ∧ wait_events s' = wait_events s ∧
  ∀ more, no_wait (loop env g' more).
Proof.
  intros Hsess.
  inversion Hsess as [|? ? ? st g1 s1 ? ? ? Hturn Hst Hrest]; subst.
  assert (bg g1 ≠ 0%Z) as Hbg1.
  { revert Hturn. unfold loop_turn. unfold mbind at 1, exec_bind. simpl.
    rewrite get_cmd_amp, bind_lift_Ok. intros H.
    unfold mbind, exec_bind in H.
    repeat (match type of H with
            | match ?m with _ => _ end = _ => destruct m; try done
            end).
    unfold mret, exec_ret in H. by injection H as _ <- _. }
  assert (wait_events s1 = wait_events s) as W1.
  { revert Hturn. unfold loop_turn. unfold mbind at 1, exec_bind. simpl.
    rewrite get_cmd_amp, bind_lift_Ok. intros H.
    assert (no_wait (write_transcript (set_bg g 1%Z) body ≫= λ _,
              lift (cmd_builder (set_bg g 1%Z) body) ≫= λ cmd,
              execute_cmd env cmd (bg (set_bg g 1%Z)) ≫= λ status,
              mret (status, set_bg g 1%Z))) as Hnw.
    { apply no_wait_bind; [apply no_wait_write_transcript|]. intros _.
      apply no_wait_bind; [apply no_wait_lift|]. intros cmd.
      apply no_wait_bind; [|intros ?; apply no_wait_ret].
      by apply no_wait_execute_cmd. }
    rewrite (Hnw _ _ (f_equal final_os H)).
    unfold wait_events. simpl. rewrite List.filter_app. simpl.
    by rewrite app_nil_r. }
  destruct (session_bg_kept env g1 s1 rest g' s' Hrest Hbg1) as [Hbg' W'].
  split; [done|]. split; [congruence|].
  intros more. by apply no_wait_loop.
Qed.

(** ** The tokens of a line are distinct pointers *)






(** ** Where the redirection operands go *)


Lemma classify_in prev tok :
  classify prev tok = KIn → ∃ p, prev = Some p ∧ str p = "<".
Proof.
  unfold classify. destruct (is_pipe tok); [done|].
  destruct prev as [p|]; [|done].
  destruct (streq (str p) ">"); [done|].
  destruct (streq (str p) "<") eqn:E; [|by destruct (streq (str p) ">>")].
  intros _. exists p. split; [done|]. by apply streq_eq.
Qed.

Lemma classify_out prev tok ow :
  classify prev tok = KOut ow → ∃ p, prev = Some p ∧ (str p = ">" ∨ str p = ">>").
Proof.
  unfold classify. destruct (is_pipe tok); [done|].
  destruct prev as [p|]; [|done].
  destruct (streq (str p) ">") eqn:E1.
  { intros _. exists p. split; [done|]. left. by apply streq_eq. }
  destruct (streq (str p) "<"); [done|].
  destruct (streq (str p) ">>") eqn:E3; [|done].
  intros _. exists p. split; [done|]. right. by apply streq_eq.
Qed.




(** With no [<] among the tokens read, [file_in] keeps its value. *)
Lemma run_file_in_keep l : ∀ prev b,
  (∀ p, prev = Some p → str p ≠ "<") →
  Forall (λ t, str t ≠ "<") l →
  b_file_in (run_pure prev b l) = b_file_in b.
Proof.
  induction l as [|tok r IH]; intros prev b Hprev Hl; [done|].
  apply Forall_cons in Hl as [Htok Hr]. simpl.
  rewrite IH; [|by intros p [= <-]|done].
  unfold step_pure. destruct (classify prev tok) eqn:Hk; try done.
  apply classify_in in Hk as (p & -> & Hp). by destruct (Hprev p).
Qed.

(** With neither [>] nor [>>] among the tokens read, [file_out] and
    [overwrite] keep their values. *)
Lemma run_file_out_keep l : ∀ prev b,
  (∀ p, prev = Some p → str p ≠ ">" ∧ str p ≠ ">>") →
  Forall (λ t, str t ≠ ">" ∧ str t ≠ ">>") l →
  b_file_out (run_pure prev b l) = b_file_out b ∧
  b_overwrite (run_pure prev b l) = b_overwrite b.
Proof.
  induction l as [|tok r IH]; intros prev b Hprev Hl; [done|].
  apply Forall_cons in Hl as [Htok Hr]. simpl.
  destruct (IH (Some tok) (step_pure prev b tok)) as [-> ->];
    [by intros p [= <-]|done|].
  unfold step_pure. destruct (classify prev tok) eqn:Hk; try done.
  apply classify_out in Hk as (p & -> & Hp).
  destruct (Hprev p eq_refl). by destruct Hp.
Qed.
















(** ** Empty stages *)

Lemma segments_length l : length (segments l) = count_pipes l + 1.
Proof.
  induction l as [|t r IH]; [done|]. simpl.
  destruct (is_pipe t); simpl; [by rewrite IH|].
  destruct (segments r) as [|s ss]; simpl in *; lia.
Qed.






Lemma background_sticky_witness :
  ∃ g' s',
    session env_ok no_backup boot
      [("sleep 5 " +:+ "&" +:+ nl); "ls" +:+ nl] g' s' ∧
    bg g' ≠ 0%Z ∧ wait_events s' = wait_events boot ∧
    no_wait (loop env_ok g' ["ls" +:+ nl; "quit" +:+ nl]).
Proof.
  eassert (session env_ok no_backup boot
             [("sleep 5 " +:+ "&" +:+ nl); "ls" +:+ nl] _ _) as H.
  { eapply session_cons; [by vm_compute|done|].
    eapply session_cons; [by vm_compute|done|]. apply session_nil. }
  eexists _, _. split; [exact H|].
  destruct (background_sticky _ _ _ _ _ _ _ H) as (H1 & H2 & H3).
  split_and!; [exact H1|exact H2|apply H3].
Defined.

(** After [sleep 5 &], the line [ls], which does not end in [&], is run
    without a wait. *)
Lemma background_sticky_example :
  ∃ g' s', loop env_ok no_backup
             [("sleep 5 &" +:+ nl); "ls" +:+ nl; "quit" +:+ nl] boot = Ret g' s' ∧
           bg g' = 1%Z ∧ length (procs s') = 2 ∧ wait_events s' = [].
Proof. eexists _, _. split; [by vm_compute|]. by vm_compute. Qed.

(** ** The tokens of a line *)

Lemma append_nil_r (s : string) : s +:+ EmptyString = s.
Proof.
  induction s as [|a s IH]; [done|].
  change (String a (s +:+ EmptyString) = String a s). by f_equal.
Qed.

Lemma append_snoc (p : string) a (s : string) :
  (p +:+ String a EmptyString) +:+ s = p +:+ String a s.
Proof. by rewrite append_assoc. Qed.

Lemma length_snoc (p : string) a :
  String.length (p +:+ String a EmptyString) = S (String.length p).
Proof.
  induction p as [|b p IH]; [done|].
  change (S (String.length (p +:+ String a EmptyString)) = S (S (String.length p))).
  by f_equal.
Qed.

Lemma no_space_snoc (c : string) a :
  no_space (c +:+ String a EmptyString) = no_space c && negb (Ascii.eqb a " ").
Proof.
  induction c as [|b c IH]; simpl; [by rewrite andb_true_r|].
  change (negb (Ascii.eqb b " ") && no_space (c +:+ String a EmptyString)
          = negb (Ascii.eqb b " ") && no_space c && negb (Ascii.eqb a " ")).
  by rewrite IH, andb_assoc.
Qed.

Lemma snoc_not_empty (c : string) a : c +:+ String a EmptyString ≠ EmptyString.
Proof. by destruct c. Qed.

Lemma strtok_scan_located s : ∀ pre cur,
  scanned pre cur →
  Forall (located (pre +:+ s)) (strtok_scan (String.length pre) cur s).
Proof.
  induction s as [|a s IH]; intros pre cur Hcur.
  - simpl. destruct cur as [t|]; [|constructor].
    destruct Hcur as (o & c & before & -> & -> & Hlen & Hne & Hns & Hb).
    repeat constructor. exists o, c, before, EmptyString.
    rewrite !append_nil_r. split_and!; try done. by left.
  - simpl.
    assert (∀ cur',
      scanned (pre +:+ String a EmptyString) cur' →
      Forall (located (pre +:+ String a s))
             (strtok_scan (S (String.length pre)) cur' s)) as Hnext.
    { intros cur' H. rewrite <- append_snoc, <- (length_snoc pre a). by apply IH. }
    destruct (Ascii.eqb a " ") eqn:Ha.
    + apply Ascii.eqb_eq in Ha as ->.
      assert (Forall (located (pre +:+ String " " s))
                (strtok_scan (S (String.length pre)) None s)) as Hrest.
      { apply Hnext. right. by exists pre. }
      destruct cur as [t|]; [|done].
      constructor; [|done].
      destruct Hcur as (o & c & before & -> & -> & Hlen & Hne & Hns & Hb).
      exists o, c, before, (String " " s).
      rewrite append_assoc. split_and!; try done. right. by exists s.
    + destruct cur as [t|]; apply Hnext.
      * destruct Hcur as (o & c & before & -> & -> & Hlen & Hne & Hns & Hb).
        simpl. exists o, (c +:+ String a EmptyString), before.
        rewrite append_assoc, no_space_snoc, Hns, Ha.
        split_and!; try done. apply snoc_not_empty.
      * exists (String.length pre), (String a EmptyString), pre.
        simpl. rewrite Ha. by split_and!.
Qed.

(** X1.  Every token [strtok] cuts from a line is the text the line
    holds at the token's offset: a non-empty run of characters other
    than the space, bounded on either side by a space or by an end of
    the line.  (Only the space separates: a tab is part of a token.) *)
Theorem tokens_located line : Forall (located line) (tokens line).
Proof.
  apply (strtok_scan_located line EmptyString None). by left.
Qed.

Lemma snoc_char_str t a : str (snoc_char t a) = str t +:+ String a EmptyString.
Proof. by destruct t. Qed.

(** The text of the tokens depends on the text scanned so far only. *)
Lemma strtok_scan_str s : ∀ off off' cur cur',
  str <$> cur = str <$> cur' →
  str <$> strtok_scan off cur s = str <$> strtok_scan off' cur' s.
Proof.
  induction s as [|a s IH]; intros off off' cur cur' Hcur; simpl.
  - destruct cur as [t|], cur' as [t'|]; try done.
    injection Hcur as Hcur. simpl. by rewrite Hcur.
  - destruct (Ascii.eqb a " ").
    + destruct cur as [t|], cur' as [t'|]; try done.
      * injection Hcur as Hcur. rewrite !fmap_cons, Hcur. f_equal. by apply IH.
      * by apply IH.
    + destruct cur as [t|], cur' as [t'|]; try done.
      * injection Hcur as Hcur. apply IH. simpl.
        by rewrite !snoc_char_str, Hcur.
      * by apply IH.
Qed.

Lemma strtok_scan_word w : ∀ off cur s,
  no_space w = true →
  str <$> strtok_scan off cur (w +:+ s) =
  str <$> strtok_scan (off + String.length w)
            (match w, cur with
             | EmptyString, _ => cur
             | _, Some t => Some (Tok (off_of t) (str t +:+ w))
             | _, None => Some (Tok off w)
             end) s.
Proof.
  induction w as [|a w IH]; intros off cur s Hw.
  { simpl. by rewrite Nat.add_0_r. }
  simpl in Hw. apply andb_prop in Hw as [Ha Hw].
  apply negb_true_iff in Ha.
  change (String a w +:+ s) with (String a (w +:+ s)).
  simpl. rewrite Ha. rewrite <- Nat.add_succ_comm.
  destruct cur as [t|].
  - rewrite IH by done. apply strtok_scan_str.
    destruct w as [|b w]; destruct t; simpl; by rewrite ?append_snoc.
  - rewrite IH by done. by destruct w.
Qed.

Lemma strtok_scan_unwords ws : ∀ off,
  Forall is_word ws →
  str <$> strtok_scan off None (unwords ws) = ws.
Proof.
  induction ws as [|w ws IH]; intros off Hws; [done|].
  apply Forall_cons in Hws as [[Hne Hns] Hws].
  destruct ws as [|w' ws].
  - pose proof (strtok_scan_word w off None EmptyString Hns) as H.
    rewrite append_nil_r in H. simpl. rewrite H. by destruct w.
  - change (unwords (w :: w' :: ws)) with (w +:+ String " " (unwords (w' :: ws))).
    rewrite strtok_scan_word by done.
    destruct w as [|a w]; [done|]. simpl. f_equal. apply IH. done.
Qed.

(** X2.  Splitting is the inverse of joining: the tokens of words written
    with one space between them are those words, in order. *)
Theorem tokens_unwords ws :
  Forall is_word ws → str <$> tokens (unwords ws) = ws.
Proof. apply strtok_scan_unwords. Qed.

Lemma tokens_unwords_witness :
  str <$> tokens (unwords ["grep"; "-v"; "a|b"]) = ["grep"; "-v"; "a|b"].
Proof. apply tokens_unwords. repeat constructor; by vm_compute. Defined.

(** ** The line get_cmd returns *)

Lemma drop_last_last (s : string) a :
  last_char s = Some a → s = drop_last s +:+ String a EmptyString.
Proof.
  induction s as [|b s IH]; [done|]. simpl.
  destruct s as [|c s]; [by intros [= ->]|].
  intros H. change (String b (String c s)
                    = String b (drop_last (String c s) +:+ String a EmptyString)).
  f_equal. by apply IH.
Qed.

Lemma last_char_None (s : string) : last_char s = None → s = EmptyString.
Proof.
  induction s as [|a s IH]; [done|]. simpl.
  destruct s as [|b s]; [done|]. intros H. by specialize (IH H).
Qed.

(** X3.  [get_cmd] returns the text it read without its last character
    (the line terminator) and, when what remains ends in [&], without
    that one [&], setting [bg] to 1; otherwise the globals are as they
    were.  It returns exactly in these two cases. *)
Theorem get_cmd_result g raw line g' :
  get_cmd g raw = Ok (line, g') ↔
  (∃ c, raw = line +:+ String c EmptyString ∧ line ≠ EmptyString ∧
        last_char line ≠ Some "&"%char ∧ g' = g) ∨
  (∃ c, raw = line +:+ "&" +:+ String c EmptyString ∧ g' = set_bg g 1%Z).
Proof.
  split.
  - unfold get_cmd. destruct (last_char raw) as [c|] eqn:Hc; [|done].
    destruct (last_char (drop_last raw)) as [d|] eqn:Hd; [|done].
    pose proof (drop_last_last raw c Hc) as Hraw.
    destruct (Ascii.eqb d "&") eqn:E; intros [= <- <-].
    + right. exists c. apply Ascii.eqb_eq in E as ->.
      rewrite Hraw at 1. rewrite (drop_last_last _ _ Hd) at 1.
      by rewrite append_assoc.
    + left. exists c. split_and!; try done.
      * by destruct (drop_last raw).
      * rewrite Hd. intros [= ->]. by rewrite Ascii.eqb_refl in E.
  - intros [(c & -> & Hne & Hl & ->)|(c & -> & ->)].
    + unfold get_cmd. rewrite last_char_snoc, drop_last_snoc.
      destruct (last_char line) as [d|] eqn:Hd;
        [|by apply last_char_None in Hd].
      destruct (Ascii.eqb d "&") eqn:E; [|done].
      apply Ascii.eqb_eq in E. by subst.
    + unfold get_cmd. rewrite <- append_assoc, last_char_snoc, drop_last_snoc.
      by rewrite last_char_snoc, drop_last_snoc.
Qed.

(** ** The arguments of each stage *)

Lemma redirect_not_pipe p : is_redirect p = true → is_pipe p = false.
Proof.
  unfold is_redirect, is_pipe. rewrite !orb_true_iff.
  intros [[H|H]|H]; apply streq_eq in H; by rewrite H.
Qed.

Lemma classify_plain prev t :
  is_pipe t = false →
  match prev with
  | Some p => is_redirect p = false
  | None => True
  end →
  classify prev t = KArg.
Proof.
  intros Ht Hp. unfold classify. rewrite Ht. destruct prev as [p|]; [|done].
  unfold is_redirect in Hp. rewrite !orb_false_iff in Hp.
  destruct Hp as [[-> ->] ->]. done.
Qed.

Lemma classify_after_redirect p t :
  is_pipe t = false → is_redirect p = true →
  classify (Some p) t ≠ KArg ∧ classify (Some p) t ≠ KPipe.
Proof.
  intros Ht Hp. unfold classify. rewrite Ht.
  unfold is_redirect in Hp.
  destruct (streq (str p) ">"); [done|].
  destruct (streq (str p) "<"); [done|].
  destruct (streq (str p) ">>"); done.
Qed.

Lemma argv_prefix cur : ∀ a,
  (∀ i t, cur !! i = Some t → a !! i = Some (Ptr t)) →
  a !! length cur = Some Null →
  argv a = Ok (str <$> cur).
Proof.
  induction cur as [|t cur IH]; intros a Hcells Hnull.
  - by apply argv_head_null.
  - destruct a as [|x a]; [done|].
    pose proof (Hcells 0 t eq_refl) as H0. injection H0 as ->.
    simpl. rewrite (IH a); [done| |done].
    intros i t' Hi. apply (Hcells (S i) t' Hi).
Qed.

Lemma argv_at_frame cs cs' c : cs !! c = cs' !! c → argv_at cs c = argv_at cs' c.
Proof. unfold argv_at. by intros ->. Qed.

(** Storing [NULL] at [offset] closes the stage with the arguments its
    state describes. *)
Lemma close_argv cs c st offset :
  shape cs → c < MAX_CMDS → offset < ARG_CELLS →
  stage_cells cs c st offset →
  argv_at (put c offset Null cs) c
    = Ok (str <$> match st with
                  | Open cur => cur
                  | Sealed cur => cur
                  end).
Proof.
  intros Hs Hc Ho Hst.
  pose proof (cell_at_put_eq cs c offset Null Hs Hc Ho) as Hnull.
  apply cell_at_Some in Hnull as (cm & Hcm & Hn).
  unfold argv_at. rewrite Hcm.
  assert (∀ i x, i ≠ offset → cell_at cs c i = Some x → args cm !! i = Some x)
    as Hold.
  { intros i x Hi Hx.
    rewrite <- (cell_at_put_ne cs c offset Null c i) in Hx by (intros [=]; lia).
    apply cell_at_Some in Hx as (cm' & Hcm' & Hx). congruence. }
  destruct st as [cur|cur]; simpl in Hst.
  - destruct Hst as [Hlen Hcells]. apply argv_prefix.
    + intros i t Hi. apply Hold; [|by apply Hcells].
      apply lookup_lt_Some in Hi. lia.
    + by rewrite Hlen.
  - destruct Hst as (Hlen & Hcells & Hnull). apply argv_prefix.
    + intros i t Hi. apply Hold; [|by apply Hcells].
      apply lookup_lt_Some in Hi. lia.
    + apply Hold; [lia|done].
Qed.

Lemma stage_cells_put_offset cs c st offset v :
  stage_cells cs c st offset → stage_cells (put c offset v cs) c st offset.
Proof.
  destruct st as [cur|cur]; simpl.
  - intros [Hlen Hcells]. split; [done|]. intros i t Hi.
    rewrite cell_at_put_ne; [by apply Hcells|].
    apply lookup_lt_Some in Hi. intros [=]. lia.
  - intros (Hlen & Hcells & Hnull). split_and!; [done| |].
    + intros i t Hi. rewrite cell_at_put_ne; [by apply Hcells|].
      apply lookup_lt_Some in Hi. intros [=]. lia.
    + rewrite cell_at_put_ne; [done|]. intros [=]. lia.
Qed.

Lemma ends_with_op_snoc cur t : ends_with_op (cur ++ [t]) = is_redirect t.
Proof. unfold ends_with_op. by rewrite last_snoc. Qed.

Lemma expected_step st t s : expected st (t :: s) = expected (next_state st t) s.
Proof.
  destruct st as [cur|cur]; [|done]. simpl.
  destruct (ends_with_op cur) eqn:E; [done|]. simpl.
  rewrite ends_with_op_snoc.
  destruct (is_redirect t).
  - destruct s as [|x s]; [done|].
    rewrite length_app. simpl. rewrite Nat.add_1_r. simpl.
    by rewrite take_app_length, app_nil_r.
  - by rewrite <- app_assoc.
Qed.

(** One token that is not [|] moves the stage to its next state. *)
Lemma stage_rel_step prev b t st :
  inv prev b → in_bounds b = true → is_pipe t = false →
  stage_rel prev b st →
  stage_rel (Some t) (step_pure prev b t) (next_state st t).
Proof.
  intros Hinv Hb Ht [Hcells Hprev]. pose proof Hinv as (Hs & _).
  apply in_bounds_elim in Hb as (Hb1 & Hb2 & Hb3).
  assert (shape (put (b_num_cmd b) (b_offset b) (Ptr t) (b_cmds b))) as Hs1
    by (by apply shape_put).
  destruct st as [cur|cur]; simpl in *.
  - destruct Hcells as [Hlen Hcells]. unfold ends_with_op.
    destruct (last cur) as [p|] eqn:Hlast.
    + subst prev. destruct (is_redirect p) eqn:Hp.
      * destruct (classify_after_redirect p t Ht Hp) as [Hna Hnp].
        assert (0 < length cur) as Hpos.
        { destruct cur; [done|]. simpl. lia. }
        assert (b_cmds (step_pure (Some p) b t)
                = put (b_num_cmd b) (pred (b_offset b)) Null
                    (put (b_num_cmd b) (b_offset b) (Ptr t) (b_cmds b)) ∧
                b_num_cmd (step_pure (Some p) b t) = b_num_cmd b ∧
                b_offset (step_pure (Some p) b t) = b_offset b) as (E1 & E2 & E3).
        { unfold step_pure. by destruct (classify (Some p) t). }
        split; [|done]. rewrite E1, E2, E3. simpl. rewrite length_take.
        split_and!; [lia| |].
        -- intros i x Hi. apply lookup_take_Some in Hi as [Hi Hlt].
           rewrite !cell_at_put_ne by (intros [=]; lia). by apply Hcells.
        -- replace (pred (length cur) `min` length cur) with (pred (b_offset b))
             by lia.
           apply cell_at_put_eq; [done|done|lia].
      * unfold step_pure. rewrite (classify_plain (Some p) t Ht Hp).
        unfold stage_rel. simpl.
        split; [|by rewrite last_snoc].
        split; [rewrite length_app; simpl; lia|].
        intros i x Hi. rewrite cell_at_bump.
        apply lookup_app_Some in Hi as [Hi|[Hge Hi]].
        -- rewrite cell_at_put_ne; [by apply Hcells|].
           apply lookup_lt_Some in Hi. intros [=]. lia.
        -- apply list_lookup_singleton_Some in Hi as [Hi <-].
           replace i with (b_offset b) by lia. by apply cell_at_put_eq.
    + assert (classify prev t = KArg) as Hk.
      { apply classify_plain; [done|]. by destruct prev. }
      unfold step_pure. rewrite Hk. unfold stage_rel. simpl.
      split; [|by rewrite last_snoc].
      split; [rewrite length_app; simpl; lia|].
      intros i x Hi. rewrite cell_at_bump.
      apply lookup_app_Some in Hi as [Hi|[Hge Hi]].
      * rewrite cell_at_put_ne; [by apply Hcells|].
        apply lookup_lt_Some in Hi. intros [=]. lia.
      * apply list_lookup_singleton_Some in Hi as [Hi <-].
        replace i with (b_offset b) by lia. by apply cell_at_put_eq.
  - destruct Hcells as (Hlen & Hcells & Hnull). split; [|done].
    assert (classify prev t ≠ KPipe) as Hnp.
    { intros Hk. apply classify_pipe in Hk. congruence. }
    unfold step_pure. destruct (classify prev t) eqn:Hk; [done| | |]; simpl.
    + split_and!; [done| |].
      * intros i x Hi. pose proof (lookup_lt_Some _ _ _ Hi).
        rewrite !cell_at_put_ne by (intros [=]; lia). by apply Hcells.
      * destruct (decide (length cur = pred (b_offset b))) as [->|Hne].
        -- apply cell_at_put_eq; [done|done|lia].
        -- by rewrite !cell_at_put_ne by (intros [=]; lia).
    + split_and!; [done| |].
      * intros i x Hi. pose proof (lookup_lt_Some _ _ _ Hi).
        rewrite !cell_at_put_ne by (intros [=]; lia). by apply Hcells.
      * destruct (decide (length cur = pred (b_offset b))) as [->|Hne].
        -- apply cell_at_put_eq; [done|done|lia].
        -- by rewrite !cell_at_put_ne by (intros [=]; lia).
    + split_and!; [lia| |].
      * intros i x Hi. pose proof (lookup_lt_Some _ _ _ Hi).
        rewrite cell_at_bump, cell_at_put_ne by (intros [=]; lia).
        by apply Hcells.
      * by rewrite cell_at_bump, cell_at_put_ne by (intros [=]; lia).
Qed.

Lemma segments_cons_plain t r j seg :
  is_pipe t = false → segments (t :: r) !! j = Some seg →
  match j with
  | O => ∃ s, seg = t :: s ∧ segments r !! 0 = Some s
  | S _ => segments r !! j = Some seg
  end.
Proof.
  intros Ht. simpl. rewrite Ht.
  pose proof (segments_length r) as Hl.
  destruct (segments r) as [|s ss]; [simpl in Hl; lia|].
  destruct j as [|j]; simpl; [|done].
  intros [= <-]. by exists s.
Qed.

Lemma stage_argv_run g l : ∀ prev b st j seg,
  inv prev b → fits prev b l = true →
  finish_fits g (run_pure prev b l) = true →
  stage_rel prev b st →
  segments l !! j = Some seg →
  argv_at (cmds (finish_pure g (run_pure prev b l))) (b_num_cmd b + j)
    = Ok (str <$> match j with
                  | O => expected st seg
                  | S _ => visible seg
                  end).
Proof.
  induction l as [|t r IH]; intros prev b st j seg Hinv Hfits Hfin Hrel Hseg.
  - destruct j as [|j]; [|done]. injection Hseg as <-.
    rewrite Nat.add_0_r.
    change (run_pure prev b []) with b in *.
    apply finish_fits_elim in Hfin as [Hc Ho].
    destruct Hinv as (Hs & _). destruct Hrel as [Hcells _].
    assert (argv_at (cmds (finish_pure g b)) (b_num_cmd b)
            = argv_at (put (b_num_cmd b) (b_offset b) Null (b_cmds b)) (b_num_cmd b))
      as ->.
    { apply argv_at_frame. unfold finish_pure, tee_pure. simpl.
      destruct (backup_on g); by rewrite ?lookup_put_ne by lia. }
    rewrite (close_argv _ _ st) by (done || lia). f_equal. f_equal.
    destruct st as [cur|cur]; [|done]. simpl.
    destruct (ends_with_op cur); [done|]. by rewrite app_nil_r.
  - simpl in Hfits. apply andb_prop in Hfits as [Hb Hfits].
    change (run_pure prev b (t :: r))
      with (run_pure (Some t) (step_pure prev b t) r) in *.
    pose proof (inv_step prev b t Hinv Hb) as Hinv'.
    pose proof (in_bounds_elim b Hb) as (Hb1 & Hb2 & Hb3).
    destruct (is_pipe t) eqn:Hp.
    + assert (classify prev t = KPipe) as Hk by (by apply classify_pipe).
      simpl in Hseg. rewrite Hp in Hseg.
      destruct j as [|j].
      * injection Hseg as <-. rewrite Nat.add_0_r.
        rewrite (argv_at_frame _ (b_cmds (step_pure prev b t))).
        -- unfold step_pure. rewrite Hk. simpl.
           destruct Hinv as (Hs & _). destruct Hrel as [Hcells _].
           rewrite (close_argv _ _ st); [| by apply shape_put | done | done |
                                          by apply stage_cells_put_offset].
           f_equal. f_equal. destruct st as [cur|cur]; [|done]. simpl.
           destruct (ends_with_op cur); [done|]. by rewrite app_nil_r.
        -- rewrite finish_frame; [apply run_frame|].
           ++ rewrite step_num_cmd, Hp. lia.
           ++ rewrite run_num_cmd, step_num_cmd, Hp. lia.
      * replace (b_num_cmd b + S j) with (b_num_cmd (step_pure prev b t) + j)
          by (rewrite step_num_cmd, Hp; lia).
        rewrite (IH (Some t) (step_pure prev b t) (Open []) j seg); try done.
        -- by destruct j.
        -- unfold step_pure. rewrite Hk. simpl. split.
           2:{ simpl. destruct (is_redirect t) eqn:E; [|done].
               apply redirect_not_pipe in E. congruence. }
           split; [done|]. by intros i x.
    + apply segments_cons_plain in Hseg; [|done].
      replace (b_num_cmd b) with (b_num_cmd (step_pure prev b t))
        by (by rewrite step_num_cmd, Hp).
      pose proof (stage_rel_step prev b t st Hinv Hb Hp Hrel) as Hrel'.
      destruct j as [|j].
      * destruct Hseg as (s & -> & Hs).
        rewrite (IH (Some t) (step_pure prev b t) (next_state st t) 0 s);
          try done.
        by rewrite expected_step.
      * by rewrite (IH (Some t) (step_pure prev b t) (next_state st t) (S j) seg).
Qed.

Lemma stage_argv_segments g line fc j seg :
  cmd_builder g line = Ok fc →
  segments (tokens line) !! j = Some seg →
  stage_argv fc j = Ok (str <$> visible seg).
Proof.
  intros Hb Hseg.
  destruct (cmd_builder_well_formed g line fc Hb) as (-> & Hfit & _).
  unfold line_fits in Hfit. apply andb_prop in Hfit as [Hfits Hfin].
  pose proof (stage_argv_run g (tokens line) None builder_init (Open []) j seg
                inv_init Hfits Hfin) as H.
  change (b_num_cmd builder_init + j) with j in H.
  unfold stage_argv. fold (argv_at (cmds (finish_pure g (parsed line))) j).
  unfold parsed. rewrite H; [by destruct j| |done].
  split; [|done]. split; [done|]. by intros i x.
Qed.

(** X4.  The argument vector of every stage of a Pipeline that
    [cmd_builder] returns is made of the tokens of that stage up to its
    first redirection operator: the operator is passed as an argument
    when it is the last token of the stage, and when an operand follows
    it, neither the operator, nor the operand, nor any later token of the
    stage is passed to the program. *)
Theorem stage_arguments g line fc j seg :
  cmd_builder g line = Ok fc →
  segments (tokens line) !! j = Some seg →
  stage_argv fc j = Ok (str <$> visible seg).
Proof. apply stage_argv_segments. Qed.

Lemma stage_arguments_witness :
  stage_argv (finish_pure no_backup (parsed "cat -n < in notes | wc >")) 0
    = Ok ["cat"; "-n"] ∧
  stage_argv (finish_pure no_backup (parsed "cat -n < in notes | wc >")) 1
    = Ok ["wc"; ">"].
Proof.
  split.
  - apply (stage_arguments no_backup "cat -n < in notes | wc >" _ 0
             [Tok 0 "cat"; Tok 4 "-n"; Tok 7 "<"; Tok 9 "in"; Tok 12 "notes"]);
      by vm_compute.
  - apply (stage_arguments no_backup "cat -n < in notes | wc >" _ 1
             [Tok 20 "wc"; Tok 23 ">"]); by vm_compute.
Defined.

Lemma visible_plain seg :
  Forall (λ t, is_redirect t = false) seg → visible seg = seg.
Proof.
  induction 1 as [|t seg Ht _ IH]; [done|]. simpl. by rewrite Ht, IH.
Qed.

Lemma segments_elem l : ∀ j seg t,
  segments l !! j = Some seg → t ∈ seg → t ∈ l.
Proof.
  induction l as [|x r IH]; intros j seg t Hj Ht.
  - destruct j; [|done]. injection Hj as <-. by apply elem_of_nil in Ht.
  - simpl in Hj. destruct (is_pipe x) eqn:Hx.
    + destruct j as [|j]; [injection Hj as <-; by apply elem_of_nil in Ht|].
      right. by apply (IH j seg).
    + pose proof (segments_length r) as Hl.
      destruct (segments r) as [|s ss] eqn:Hs; [simpl in Hl; lia|].
      destruct j as [|j].
      * injection Hj as <-. apply elem_of_cons in Ht as [->|Ht]; [left|].
        right. by apply (IH 0 s).
      * right. by apply (IH (S j) seg).
Qed.

(** X5.  On a line without any of the tokens [<], [>] and [>>], a
    Pipeline that [cmd_builder] returns names no redirection file and the
    argument vector of each stage is exactly the words between two [|]
    tokens, in order. *)
Theorem plain_line_stages g line fc :
  cmd_builder g line = Ok fc →
  Forall (λ t, is_redirect t = false) (tokens line) →
  file_in fc = None ∧ file_out fc = None ∧
  ∀ j seg, segments (tokens line) !! j = Some seg →
           stage_argv fc j = Ok (str <$> seg).
Proof.
  intros Hb Hplain.
  destruct (cmd_builder_well_formed g line fc Hb) as (Hfc & _).
  assert (∀ t, is_redirect t = false →
               str t ≠ "<" ∧ str t ≠ ">" ∧ str t ≠ ">>") as Hop.
  { intros t Ht. unfold is_redirect in Ht. rewrite !orb_false_iff in Ht.
    destruct Ht as [[H1 H2] H3].
    split_and!; intros E; rewrite E in *; done. }
  split_and!.
  - rewrite Hfc. unfold finish_pure, parsed. simpl.
    rewrite run_file_in_keep; [done|done|].
    eapply Forall_impl; [exact Hplain|]. intros t Ht. by apply Hop.
  - rewrite Hfc. unfold finish_pure, parsed. simpl.
    edestruct (run_file_out_keep (tokens line) None builder_init) as [-> _];
      [done| |done].
    eapply Forall_impl; [exact Hplain|]. intros t Ht.
    destruct (Hop t Ht) as (_ & ? & ?). done.
  - intros j seg Hseg.
    rewrite (stage_argv_segments g line fc j seg Hb Hseg).
    rewrite visible_plain; [done|].
    apply Forall_forall. intros t Ht.
    rewrite Forall_forall in Hplain. apply Hplain.
    by apply (segments_elem _ j seg).
Qed.

Lemma plain_line_stages_witness :
  file_in (finish_pure no_backup (parsed "ls -l | grep c | wc")) = None ∧
  file_out (finish_pure no_backup (parsed "ls -l | grep c | wc")) = None ∧
  stage_argv (finish_pure no_backup (parsed "ls -l | grep c | wc")) 1
    = Ok ["grep"; "c"].
Proof.
  destruct (plain_line_stages no_backup "ls -l | grep c | wc"
              (finish_pure no_backup (parsed "ls -l | grep c | wc")))
    as (H1 & H2 & H3).
  - by vm_compute.
  - vm_compute. repeat constructor.
  - split_and!; [done|done|].
    apply (H3 1 [Tok 8 "grep"; Tok 13 "c"]). by vm_compute.
Defined.

Lemma argv_at_prefix cs c cur :
  (∀ i t, cur !! i = Some t → cell_at cs c i = Some (Ptr t)) →
  cell_at cs c (length cur) = Some Null →
  argv_at cs c = Ok (str <$> cur).
Proof.
  intros Hcells Hnull.
  apply cell_at_Some in Hnull as (cm & Hcm & Hn).
  unfold argv_at. rewrite Hcm. apply argv_prefix; [|done].
  intros i t Hi. apply Hcells in Hi.
  apply cell_at_Some in Hi as (cm' & Hcm' & Hi). congruence.
Qed.

Lemma tee_stage_argv g line fc name :
  cmd_builder g line = Ok fc →
  backup g ≠ 0%Z → fname g = Some name →
  stage_argv fc (num_cmds fc - 1) = Ok ["tee"; "-a"; name].
Proof.
  intros Hb Hbk Hname.
  destruct (cmd_builder_well_formed g line fc Hb) as (-> & Hfit & _).
  unfold line_fits in Hfit. apply andb_prop in Hfit as [Hfits Hfin].
  apply finish_fits_elim in Hfin as [Hc Ho].
  assert (backup_on g = true) as Hon.
  { unfold backup_on. by destruct (Z.eqb_spec (backup g) 0). }
  unfold tee_stages in Hc. rewrite Hon in Hc.
  change (b_num_cmd (parsed line) + 1 < MAX_CMDS) in Hc.
  pose proof (run_shape (tokens line) None builder_init (proj1 inv_init)) as Hs.
  fold (parsed line) in Hs.
  unfold stage_argv. fold (argv_at (cmds (finish_pure g (parsed line)))
                             (num_cmds (finish_pure g (parsed line)) - 1)).
  unfold finish_pure, tee_stages. rewrite Hon.
  change (num_cmds _) with (b_num_cmd (parsed line) + 1 + 1).
  replace (b_num_cmd (parsed line) + 1 + 1 - 1) with (S (b_num_cmd (parsed line)))
    by lia.
  change (cmds _) with
    (tee_pure g (S (b_num_cmd (parsed line)))
       (put (b_num_cmd (parsed line)) (b_offset (parsed line)) Null
          (b_cmds (parsed line)))).
  set (cs := put (b_num_cmd (parsed line)) (b_offset (parsed line)) Null
               (b_cmds (parsed line))).
  assert (shape cs) as Hcs by (by apply shape_put).
  set (c := S (b_num_cmd (parsed line))) in *.
  assert (c < MAX_CMDS) as Hlt by (unfold c; lia).
  unfold tee_pure, fname_cell. rewrite Hname.
  apply (argv_at_prefix _ c [Lit "tee"; Lit "-a"; Lit name]).
  - intros i t Hi.
    destruct i as [|[|[|i]]]; simpl in Hi; [| | |done]; injection Hi as <-.
    + rewrite !cell_at_put_ne by (intros [=]).
      apply cell_at_put_eq; [done|done|unfold ARG_CELLS; lia].
    + rewrite !cell_at_put_ne by (intros [=]).
      apply cell_at_put_eq; [by apply shape_put|done|unfold ARG_CELLS; lia].
    + rewrite !cell_at_put_ne by (intros [=]).
      apply cell_at_put_eq; [by do 2 apply shape_put|done|unfold ARG_CELLS; lia].
  - change (length [Lit "tee"; Lit "-a"; Lit name]) with 3.
    apply cell_at_put_eq; [by do 3 apply shape_put|done|unfold ARG_CELLS; lia].
Qed.

(** X6.  With the transcript on ([backup] not 0 and [fname] set to the
    file's name), the last stage of every Pipeline that [cmd_builder]
    returns is the command [tee -a] followed by that name, whatever the
    line. *)
Theorem transcript_stage g line fc name :
  cmd_builder g line = Ok fc →
  backup g ≠ 0%Z → fname g = Some name →
  stage_argv fc (num_cmds fc - 1) = Ok ["tee"; "-a"; name].
Proof. apply tee_stage_argv. Qed.

Lemma transcript_stage_witness :
  stage_argv (finish_pure with_backup (parsed "ls | wc"))
    (num_cmds (finish_pure with_backup (parsed "ls | wc")) - 1)
    = Ok ["tee"; "-a"; "log"].
Proof.
  apply (transcript_stage with_backup "ls | wc" _ "log"); by vm_compute.
Defined.

(** ** print_command *)

Lemma unset_put c i v cs :
  Forall (λ cm, num_args cm = None) cs →
  Forall (λ cm, num_args cm = None) (put c i v cs).
Proof. intros H. by apply Forall_alter. Qed.

Lemma unset_bump c cs :
  Forall (λ cm, num_args cm = None) cs →
  Forall (λ cm, num_args cm = None) (bump c cs).
Proof.
  intros H. apply Forall_alter; [done|]. intros cm _ Hcm. simpl. by rewrite Hcm.
Qed.

Lemma unset_step prev b t :
  Forall (λ cm, num_args cm = None) (b_cmds b) →
  Forall (λ cm, num_args cm = None) (b_cmds (step_pure prev b t)).
Proof.
  intros H. unfold step_pure.
  destruct (classify prev t); simpl;
    repeat (apply unset_put || apply unset_bump); done.
Qed.

Lemma unset_run l : ∀ prev b,
  Forall (λ cm, num_args cm = None) (b_cmds b) →
  Forall (λ cm, num_args cm = None) (b_cmds (run_pure prev b l)).
Proof.
  induction l as [|t r IH]; intros prev b H; [done|].
  simpl. apply IH. by apply unset_step.
Qed.

Lemma unset_finish g b :
  Forall (λ cm, num_args cm = None) (b_cmds b) →
  Forall (λ cm, num_args cm = None) (cmds (finish_pure g b)).
Proof.
  intros H. unfold finish_pure, tee_pure. simpl.
  destruct (backup_on g); repeat apply unset_put; done.
Qed.

(** X7.  No statement of [cmd_builder] assigns the field [num_args] of
    a stage: in every Pipeline it returns, the field is, in each of the
    16 stages, still the memory [malloc] returned, at most incremented.
    [print_command] reads it for its first stage: the number it prints
    and loops on is a value nobody initialised, which the line does not
    determine. *)
Theorem print_command_unset g line fc :
  cmd_builder g line = Ok fc →
  length (cmds fc) = MAX_CMDS ∧
  Forall (λ cm, num_args cm = None) (cmds fc) ∧
  print_command fc = Undefined Uninit.
Proof.
  intros Hb.
  destruct (cmd_builder_well_formed g line fc Hb) as (Hfc & _ & Hn & _).
  assert (Forall (λ cm, num_args cm = None) (cmds fc)) as Hun.
  { rewrite Hfc. apply unset_finish, unset_run.
    apply Forall_replicate. done. }
  assert (length (cmds fc) = MAX_CMDS) as Hlen.
  { rewrite Hfc. unfold finish_pure, tee_pure, put. simpl.
    pose proof (run_shape (tokens line) None builder_init (proj1 inv_init))
      as [Hl _]. fold (parsed line) in Hl.
    destruct (backup_on g); by rewrite !length_alter. }
  split_and!; [done|done|].
  destruct (lookup_lt_is_Some_2 (cmds fc) 0) as [cm Hcm];
    [rewrite Hlen; unfold MAX_CMDS; lia|].
  rewrite Forall_forall in Hun.
  pose proof (Hun cm (list_elem_of_lookup_2 _ _ _ Hcm)) as Hnone.
  unfold print_command.
  destruct (num_cmds fc) as [|n]; [lia|].
  simpl. rewrite Hcm. simpl. by rewrite Hnone.
Qed.

Lemma print_command_unset_witness :
  length (cmds (finish_pure no_backup (parsed "ls -l"))) = MAX_CMDS ∧
  Forall (λ cm, num_args cm = None) (cmds (finish_pure no_backup (parsed "ls -l"))) ∧
  print_command (finish_pure no_backup (parsed "ls -l")) = Undefined Uninit.
Proof. apply (print_command_unset no_backup "ls -l"). by vm_compute. Defined.

(** ** Exactly which lines fit *)

Lemma in_bounds_iff b :
  in_bounds b = true ↔
  b_pos b < TKS_BUFFER_SIZE ∧ b_num_cmd b < MAX_CMDS ∧ b_offset b < ARG_CELLS.
Proof.
  unfold in_bounds. rewrite !andb_true_iff, !Nat.ltb_lt.
  split; [by intros [[? ?] ?] | by intros (? & ? & ?)].
Qed.

Lemma finish_fits_iff g b :
  finish_fits g b = true ↔
  b_num_cmd b + tee_stages g < MAX_CMDS ∧ b_offset b < ARG_CELLS.
Proof. unfold finish_fits. by rewrite andb_true_iff, !Nat.ltb_lt. Qed.

Lemma step_offset prev b t :
  b_offset (step_pure prev b t) =
    match classify prev t with
    | KPipe => 0
    | KArg => S (b_offset b)
    | _ => b_offset b
    end.
Proof. unfold step_pure. by destruct (classify prev t). Qed.

Lemma kept_after_pipe t s : is_pipe t = true → kept (Some t) s = kept None s.
Proof.
  intros Ht. destruct s as [|x s]; [done|]. simpl.
  assert (classify (Some t) x = classify None x) as ->; [|done].
  unfold classify. destruct (is_pipe x); [done|].
  apply streq_eq in Ht. rewrite Ht. done.
Qed.

Lemma kept_head prev t s :
  length (kept prev (t :: s)) =
    match classify prev t with
    | KArg => S (length (kept (Some t) s))
    | _ => length (kept (Some t) s)
    end.
Proof. simpl. by destruct (classify prev t). Qed.

Lemma fits_capacity g l : ∀ prev b,
  b_pos b ≤ TKS_BUFFER_SIZE →
  (fits prev b l && finish_fits g (run_pure prev b l) = true ↔
   b_pos b + length l ≤ TKS_BUFFER_SIZE ∧
   b_num_cmd b + count_pipes l + tee_stages g < MAX_CMDS ∧
   match segments l with
   | s0 :: ss =>
       b_offset b + length (kept prev s0) < ARG_CELLS ∧
       Forall (λ seg, length (kept None seg) < ARG_CELLS) ss
   | [] => False
   end).
Proof.
  induction l as [|t r IH]; intros prev b Hpos.
  - simpl. rewrite finish_fits_iff. rewrite !Nat.add_0_r.
    split; [intros [? ?]; by split_and! | intros (? & ? & ? & ?); done].
  - change (fits prev b (t :: r))
      with (in_bounds b && fits (Some t) (step_pure prev b t) r).
    change (run_pure prev b (t :: r))
      with (run_pure (Some t) (step_pure prev b t) r).
    rewrite <- andb_assoc, andb_true_iff, in_bounds_iff.
    pose proof (step_pos prev b t) as Hp.
    pose proof (step_num_cmd prev b t) as Hn.
    pose proof (step_offset prev b t) as Ho.
    pose proof (segments_length r) as Hl.
    pose proof (classify_pipe prev t) as Hk.
    change (segments (t :: r)) with
      (if is_pipe t then [] :: segments r
       else match segments r with
            | s :: ss => (t :: s) :: ss
            | [] => [[t]]
            end).
    change (count_pipes (t :: r)) with
      ((if is_pipe t then 1 else 0) + count_pipes r).
    change (length (t :: r)) with (S (length r)).
    destruct (segments r) as [|s0 ss] eqn:Hseg; [simpl in Hl; lia|].
    split.
    + intros [(Hb1 & Hb2 & Hb3) Hrest].
      apply IH in Hrest; [|lia]. rewrite ?Hseg in Hrest.
      destruct Hrest as (H1 & H2 & H3 & H4).
      rewrite Hp in H1. rewrite Hn in H2. rewrite Ho in H3.
      destruct (is_pipe t) eqn:Et.
      * rewrite (kept_after_pipe t s0 Et) in H3.
        destruct Hk as [_ Hk]. rewrite (Hk eq_refl) in H3.
        split_and!; [lia|lia|simpl; lia|]. by constructor.
      * rewrite kept_head.
        destruct (classify prev t) eqn:Ec;
          [destruct Hk as [Hk _]; by specialize (Hk eq_refl)|..];
          split_and!; (lia || done).
    + intros (H1 & H2 & H3).
      assert (b_pos (step_pure prev b t) ≤ TKS_BUFFER_SIZE) as Hpos' by lia.
      rewrite (IH (Some t) (step_pure prev b t) Hpos').
      rewrite ?Hseg, Hp, Hn, Ho.
      destruct (is_pipe t) eqn:Et.
      * destruct H3 as [H3 H4]. apply Forall_cons in H4 as [H4 H5].
        rewrite (kept_after_pipe t s0 Et).
        destruct Hk as [_ Hk]. rewrite (Hk eq_refl).
        simpl in H3. split_and!; (lia || done).
      * destruct H3 as [H3 H4]. rewrite kept_head in H3.
        destruct (classify prev t) eqn:Ec;
          [destruct Hk as [Hk _]; by specialize (Hk eq_refl)|..];
          split_and!; (lia || done).
Qed.

Lemma line_fits_capacity g line :
  line_fits g line = true ↔ within_capacity g (tokens line).
Proof.
  unfold line_fits, parsed.
  rewrite (fits_capacity g (tokens line) None builder_init)
    by (simpl; unfold TKS_BUFFER_SIZE; lia).
  unfold within_capacity. simpl.
  pose proof (segments_length (tokens line)) as Hl.
  destruct (segments (tokens line)) as [|s0 ss]; [simpl in Hl; lia|].
  rewrite Forall_cons. naive_solver.
Qed.

(** X8.  [cmd_builder] returns a Pipeline exactly for the lines of at
    most 128 tokens, at most 16 stages (the transcript stage counted)
    and, in every stage, at most 100 tokens other than redirection
    operands; on every other line it writes outside one of its arrays. *)
Theorem cmd_builder_capacity g line :
  if decide (within_capacity g (tokens line))
  then ∃ fc, cmd_builder g line = Ok fc
  else cmd_builder g line = Undefined OutOfBounds.
Proof.
  rewrite cmd_builder_eq.
  pose proof (line_fits_capacity g line) as H.
  destruct (decide (within_capacity g (tokens line))) as [Hc|Hc].
  - apply H in Hc. rewrite Hc. by eexists.
  - destruct (line_fits g line); [|done]. destruct Hc. by apply H.
Qed.

(** ** The descriptor tables along execute_cmd *)

Lemma next_pipe_dup2 s old new r s' :
  sys_dup2 old new s = Ret r s' → next_pipe s' = next_pipe s.
Proof.
  unfold sys_dup2. destruct (fd_get (fdt s) old); [destruct (new <? 0)%Z|];
    by intros [= _ <-].
Qed.

Lemma next_pipe_close s fd r s' :
  sys_close fd s = Ret r s' → next_pipe s' = next_pipe s.
Proof. unfold sys_close. destruct (fd_get (fdt s) fd); by intros [= _ <-]. Qed.

Lemma next_pipe_dup s old r s' :
  sys_dup old s = Ret r s' → next_pipe s' = next_pipe s.
Proof.
  unfold sys_dup. destruct (fd_get (fdt s) old) as [d|]; [|by intros [= _ <-]].
  destruct (fd_alloc (fdt s) d). by intros [= _ <-].
Qed.

Lemma next_pipe_open ok d s r s' :
  sys_open ok d s = Ret r s' → next_pipe s' = next_pipe s.
Proof.
  unfold sys_open. destruct ok; [|by intros [= _ <-]].
  destruct (fd_alloc (fdt s) d). by intros [= _ <-].
Qed.

Lemma next_pipe_pipe s x s' :
  sys_pipe s = Ret x s' → next_pipe s' = S (next_pipe s).
Proof.
  unfold sys_pipe. destruct (fd_alloc (fdt s) _) as [r t1].
  destruct (fd_alloc t1 _) as [w t2]. by intros [= _ <-].
Qed.

Lemma next_pipe_open_output env cmd tout fd_in s r s' :
  open_output env cmd tout fd_in s = Ret r s' → next_pipe s' = next_pipe s.
Proof.
  unfold open_output. destruct (file_out cmd) as [f|]; [|apply next_pipe_dup].
  destruct (read_overwrite cmd) as [ow|]; [|done].
  rewrite bind_lift_Ok. unfold mbind, exec_bind.
  destruct (sys_open _ _ s) as [fd_out s1| |] eqn:E; [|done..].
  apply next_pipe_open in E.
  destruct (fd_in <? 0)%Z; [done|]. intros [= _ <-]. done.
Qed.

Lemma next_pipe_open_input env cmd tin s r s' :
  open_input env cmd tin s = Ret r s' → next_pipe s' = next_pipe s.
Proof.
  unfold open_input. destruct (file_in cmd) as [f|]; [|apply next_pipe_dup].
  unfold mbind, exec_bind.
  destruct (sys_open _ _ s) as [fd s1| |] eqn:E; [|done..].
  apply next_pipe_open in E.
  destruct (fd <? 0)%Z; [done|]. intros [= _ <-]. done.
Qed.

(** A named output file that does not open: [fd_out] is -1 and nothing
    else happens, the test being on [fd_in]. *)
Lemma open_output_fail env cmd tout fd_in s f :
  file_out cmd = Some f → can_write env (str f) = false →
  is_Some (overwrite cmd) → (0 ≤ fd_in)%Z →
  open_output env cmd tout fd_in s = Ret (-1)%Z s.
Proof.
  intros Hf Hw [ow How] Hfd. unfold open_output, read_overwrite.
  rewrite Hf, How, Hw, bind_lift_Ok. unfold mbind, exec_bind, sys_open.
  by assert ((fd_in <? 0)%Z = false) as -> by (apply Z.ltb_ge; lia).
Qed.

(** Redirecting the output to [fd_out], which may not be open, and
    forking one stage. *)
Lemma spawn_any {A : Type} (k : Z → exec A) s fd_out av :
  fd_out ≠ 1%Z →
  ∃ s' p,
    (sys_dup2 fd_out 1%Z ≫= λ _, sys_close fd_out ≫= λ _,
       lift (Ok av) ≫= λ av0, sys_fork av0 ≫= k) s = k (next_pid s) s' ∧
    procs s' = procs s ++ [p] ∧ p_fds p = fdt s' ∧ events s' = events s ∧
    next_pipe s' = next_pipe s ∧
    ∀ m, fd_get (fdt s') m =
         match fd_get (fdt s) fd_out with
         | Some dl => if decide (m = fd_out) then None
                      else if decide (m = 1%Z) then Some dl
                      else fd_get (fdt s) m
         | None => fd_get (fdt s) m
         end.
Proof.
  intros Hne. destruct (fd_get (fdt s) fd_out) as [dl|] eqn:Hfd.
  - destruct (sys_dup2_spec s fd_out 1%Z dl Hfd) as (s1 & E1 & F1 & U1); [done|].
    rewrite (bind_Ret _ _ _ _ _ E1).
    assert (fd_get (fdt s1) fd_out = Some dl) as Hfd1.
    { rewrite U1. by fd_case. }
    destruct (sys_close_spec s1 fd_out dl Hfd1) as (s2 & E2 & F2 & U2).
    rewrite (bind_Ret _ _ _ _ _ E2).
    apply next_pipe_dup2 in E1. apply next_pipe_close in E2.
    destruct F1 as (P1 & V1 & Q1), F2 as (P2 & V2 & Q2).
    rewrite bind_lift_Ok.
    exists {| fdt := fdt s2;
              procs := procs s2 ++ [{| p_pid := next_pid s2; p_fds := fdt s2;
                                       p_argv := av |}];
              next_pid := (next_pid s2 + 1)%Z; next_pipe := next_pipe s2;
              events := events s2 |},
           {| p_pid := next_pid s2; p_fds := fdt s2; p_argv := av |}.
    split.
    { replace (next_pid s) with (next_pid s2) by congruence. done. }
    simpl. split_and!; try done; try congruence.
    intros m. rewrite U2. destruct (decide (m = fd_out)); [done|]. apply U1.
  - exists {| fdt := fdt s;
              procs := procs s ++ [{| p_pid := next_pid s; p_fds := fdt s;
                                      p_argv := av |}];
              next_pid := (next_pid s + 1)%Z; next_pipe := next_pipe s;
              events := events s |},
           {| p_pid := next_pid s; p_fds := fdt s; p_argv := av |}.
    split; [|by split_and!].
    unfold mbind at 1, exec_bind at 1, sys_dup2 at 1. rewrite Hfd.
    unfold mbind at 1, exec_bind at 1, sys_close at 1. rewrite Hfd.
    by rewrite bind_lift_Ok.
Qed.

Lemma chain_ext base base' final cs : ∀ d_in d_cur id,
  (∀ m, m ≠ 0%Z → m ≠ 1%Z → base m = base' m) →
  chain base final d_in d_cur id cs → chain base' final d_in d_cur id cs.
Proof.
  induction cs as [|p rest IH]; intros d_in d_cur id Hb; [done|].
  simpl. intros [H0 H]. split; [done|].
  destruct rest as [|q rest].
  - destruct H as [H1 H2]. split; [done|].
    intros m M0 M1. rewrite H2 by done. by apply Hb.
  - destruct H as (H1 & (r & R0 & R1 & Hr & H2) & H3). split_and!; [done| |].
    + exists r. split_and!; [done|done|by rewrite <- Hb|].
      intros m M0 M1. rewrite H2 by done.
      destruct (decide (m = r)); [done|]. by apply Hb.
    + by apply IH.
Qed.

Lemma stage_loop_chain env cmd tout d_out :
  (is_Some (file_out cmd) → is_Some (overwrite cmd)) →
  stages_readable cmd →
  ∀ n i fd_in pid s d_in d_cur,
    i + n = num_cmds cmd → 0 < n →
    fd_get (fdt s) fd_in = Some d_in → fd_get (fdt s) tout = Some d_out →
    fd_get (fdt s) 1%Z = Some d_cur →
    fd_in ≠ 0%Z → fd_in ≠ 1%Z → fd_in ≠ tout → tout ≠ 0%Z → tout ≠ 1%Z →
    ∃ pid' s' (cs : list proc),
      stage_loop env cmd tout n i fd_in pid s = Ret (Some pid') s' ∧
      procs s' = procs s ++ cs ∧ length cs = n ∧ events s' = events s ∧
      next_pipe s' = next_pipe s + (n - 1) ∧
      (∀ m, m ≠ 0%Z → m ≠ 1%Z →
            fd_get (fdt s') m =
              if decide (m = fd_in) then None else fd_get (fdt s) m) ∧
      chain (λ m, if decide (m = fd_in) then None else fd_get (fdt s) m)
            (last_stdout env cmd d_out) d_in d_cur (next_pipe s) cs.
Proof.
  intros How Hargs. induction n as [|n IH];
    intros i fd_in pid s d_in d_cur Hn Hpos Hin Htout Hcur N1 N2 N3 N4 N5; [lia|].
  destruct (Hargs i) as [av Hav]; [lia|].
  simpl.
  destruct (sys_dup2_spec s fd_in 0%Z d_in Hin) as (s1 & E1 & F1 & U1); [done|].
  rewrite (bind_Ret _ _ _ _ _ E1).
  assert (fd_get (fdt s1) fd_in = Some d_in) as Hin1.
  { rewrite U1. by fd_case. }
  destruct (sys_close_spec s1 fd_in d_in Hin1) as (s2 & E2 & F2 & U2).
  rewrite (bind_Ret _ _ _ _ _ E2).
  apply next_pipe_dup2 in E1. apply next_pipe_close in E2.
  assert (∀ m, fd_get (fdt s2) m =
               if decide (m = fd_in) then None
               else if decide (m = 0%Z) then Some d_in
               else fd_get (fdt s) m) as T2.
  { intros m. rewrite U2. destruct (decide (m = fd_in)); [done|]. apply U1. }
  assert (fd_get (fdt s2) 0%Z = Some d_in) as H02.
  { rewrite T2. by do 2 fd_case. }
  assert (fd_get (fdt s2) 1%Z = Some d_cur) as H12.
  { rewrite T2. by do 2 fd_case. }
  assert (fd_get (fdt s2) tout = Some d_out) as Ht2.
  { rewrite T2. by do 2 fd_case. }
  assert (fds_only s s2) as (P2 & V2 & Q2) by (by eapply fds_only_trans).
  assert (next_pipe s2 = next_pipe s) as K2 by congruence.
  assert (0 ≤ fd_in)%Z as Hfdpos by (by eapply fd_get_nonneg).
  rewrite Hav.
  destruct (i =? num_cmds cmd - 1) eqn:Hlast.
  - apply Nat.eqb_eq in Hlast. assert (n = 0) as -> by lia.
    assert (∃ fd_out s3,
               open_output env cmd tout fd_in s2 = Ret fd_out s3 ∧
               fd_out ≠ 1%Z ∧ fd_out ≠ 0%Z ∧ fds_only s2 s3 ∧
               next_pipe s3 = next_pipe s2 ∧
               ((fd_get (fdt s2) fd_out = None ∧
                 last_stdout env cmd d_out d_cur ≠ d_cur ∨
                 fd_get (fdt s2) fd_out = None) ∧
                (∀ m, fd_get (fdt s3) m =
                      if decide (m = fd_out)
                      then Some (last_stdout env cmd d_out d_cur)
                      else fd_get (fdt s2) m) ∨
                (fd_get (fdt s3) fd_out = None ∧
                 last_stdout env cmd d_out d_cur = d_cur ∧
                 ∀ m, fd_get (fdt s3) m = fd_get (fdt s2) m)))
      as (fd_out & s3 & E3 & Hne1 & Hne0 & (P3 & V3 & Q3) & K3 & Hcase).
    { destruct (file_out cmd) as [f|] eqn:Hf.
      - destruct (can_write env (str f)) eqn:Hw.
        + assert (output_ready env cmd) as Hout.
          { unfold output_ready. rewrite Hf. split; [done|]. by apply How. }
          destruct (open_output_spec env cmd tout fd_in s2 d_out Hout Ht2 Hfdpos)
            as (fd_out & s3 & E3 & Hfree & F3 & U3).
          exists fd_out, s3. pose proof (next_pipe_open_output _ _ _ _ _ _ _ E3).
          split_and!; [done|congruence|congruence|done|done|].
          left. split; [by right|].
          unfold last_stdout. rewrite Hf, Hw.
          unfold sink_desc in U3. by rewrite Hf in U3.
        + exists (-1)%Z, s2.
          rewrite (open_output_fail env cmd tout fd_in s2 f) by (done || eauto).
          split_and!; [done|done|done|done|done|].
          right. unfold last_stdout. rewrite Hf, Hw. by split_and!.
      - assert (output_ready env cmd) as Hout.
        { unfold output_ready. by rewrite Hf. }
        destruct (open_output_spec env cmd tout fd_in s2 d_out Hout Ht2 Hfdpos)
          as (fd_out & s3 & E3 & Hfree & F3 & U3).
        exists fd_out, s3. pose proof (next_pipe_open_output _ _ _ _ _ _ _ E3).
        split_and!; [done|congruence|congruence|done|done|].
        left. split; [by right|].
        unfold last_stdout. rewrite Hf.
        unfold sink_desc in U3. by rewrite Hf in U3. }
    rewrite (bind_Ret _ (λ '(fd_in', fd_out), _) s2 (fd_in, fd_out) s3)
      by (by rewrite (bind_Ret _ _ _ _ _ E3)).
    destruct (spawn_any
                (λ pid'0, stage_loop env cmd tout 0 (S i) fd_in (Some pid'0))
                s3 fd_out av Hne1)
      as (s6 & p & E6 & P6 & Hfds & V6 & K6 & U6).
    rewrite E6. simpl.
    exists (next_pid s3), s6, [p].
    assert (∀ m, fd_get (fdt s6) m =
                 if decide (m = 1%Z) then Some (last_stdout env cmd d_out d_cur)
                 else if decide (m = fd_in) then None
                 else if decide (m = 0%Z) then Some d_in
                 else fd_get (fdt s) m) as T6.
    { intros m. rewrite U6.
      destruct Hcase as [[Hfree U3]|(Hnone & Hsame & U3)].
      - assert (fd_get (fdt s2) fd_out = None) as Hfree' by (by destruct Hfree as [[? _]|?]).
        rewrite (U3 fd_out). fd_case.
        destruct (decide (m = fd_out)) as [->|Hm].
        + rewrite T2 in Hfree'.
          destruct (decide (fd_out = 1%Z)); [done|].
          destruct (decide (fd_out = fd_in)); [done|].
          destruct (decide (fd_out = 0%Z)); done.
        + destruct (decide (m = 1%Z)); [done|].
          rewrite U3. fd_case. apply T2.
      - rewrite Hnone, U3, Hsame.
        destruct (decide (m = 1%Z)) as [->|]; [done|]. apply T2. }
    split_and!; try done; try congruence.
    + rewrite K6, K3, K2. simpl. lia.
    + intros m M0 M1. rewrite T6. do 1 fd_case.
      destruct (decide (m = fd_in)); [done|]. by fd_case.
    + simpl. rewrite Hfds. split_and!.
      * rewrite T6. by do 3 fd_case.
      * rewrite T6. by fd_case.
      * intros m M0 M1. rewrite T6. fd_case.
        destruct (decide (m = fd_in)); [done|]. by fd_case.
  - apply Nat.eqb_neq in Hlast.
    destruct (sys_pipe_spec s2)
      as (r & w & s3 & E3 & Hr & Hw & Hrw & Fr & Fw & (P3 & V3 & Q3) & U3).
    pose proof (next_pipe_pipe _ _ _ E3) as K3.
    assert (w ≠ 1%Z) as Hw1 by congruence.
    assert (w ≠ 0%Z) as Hw0 by congruence.
    assert (r ≠ 1%Z) as Hr1 by congruence.
    assert (r ≠ 0%Z) as Hr0 by congruence.
    assert (r ≠ tout) as Hrt by congruence.
    assert (w ≠ tout) as Hwt by congruence.
    assert (fd_get (fdt s3) w = Some (PipeWr (next_pipe s2))) as Hfd3.
    { rewrite U3. by fd_case. }
    rewrite (bind_Ret _ (λ '(fd_in', fd_out), _) s2 (r, w) s3)
      by (by rewrite (bind_Ret _ _ _ _ _ E3)).
    destruct (spawn_any
                (λ pid'0, stage_loop env cmd tout n (S i) r (Some pid'0))
                s3 w av Hw1)
      as (s6 & p & E6 & P6 & Hfds & V6 & K6 & U6).
    rewrite E6. rewrite Hfd3 in U6.
    assert (∀ m, m ≠ 0%Z → m ≠ 1%Z →
                 fd_get (fdt s6) m =
                   if decide (m = r) then Some (PipeRd (next_pipe s))
                   else if decide (m = fd_in) then None
                   else fd_get (fdt s) m) as T6.
    { intros m M0 M1. rewrite U6.
      destruct (decide (m = w)) as [->|Hmw].
      - rewrite (decide_False (P := w = r)) by congruence.
        rewrite T2 in Fw. destruct (decide (w = fd_in)); [done|].
        by rewrite decide_False in Fw by done.
      - fd_case. rewrite U3. fd_case.
        destruct (decide (m = r)); [by rewrite K2|].
        rewrite T2. destruct (decide (m = fd_in)); [done|]. by fd_case. }
    assert ((if decide (r = fd_in) then None else fd_get (fdt s) r) = None)
      as Hbase.
    { rewrite T2 in Fr. destruct (decide (r = fd_in)); [done|].
      by rewrite decide_False in Fr by done. }
    destruct (IH (S i) r (Some (next_pid s3)) s6 (PipeRd (next_pipe s))
                (PipeWr (next_pipe s)))
      as (pid' & s' & cs & E & P & L & V & K & T & W); try done; try lia.
    { rewrite T6 by done. by fd_case. }
    { rewrite T6 by done. do 2 fd_case. done. }
    { rewrite U6. do 2 fd_case. by rewrite K2. }
    exists pid', s', (p :: cs).
    split_and!; try done.
    + rewrite P, P6, P3, P2. by rewrite <- app_assoc.
    + simpl. by rewrite L.
    + congruence.
    + rewrite K, K6, K3, K2. lia.
    + intros m M0 M1. rewrite T by done.
      destruct (decide (m = r)) as [->|Hmr]; [by rewrite Hbase|].
      rewrite T6 by done. by fd_case.
    + change (chain ?b ?f ?a ?c ?k (p :: cs)) with
        (fd_get (p_fds p) 0%Z = Some a ∧
         match cs with
         | [] => fd_get (p_fds p) 1%Z = Some (f c) ∧
                 ∀ m, m ≠ 0%Z → m ≠ 1%Z → fd_get (p_fds p) m = b m
         | _ :: _ =>
             fd_get (p_fds p) 1%Z = Some (PipeWr k) ∧
             (∃ r, r ≠ 0%Z ∧ r ≠ 1%Z ∧ b r = None ∧
                   ∀ m, m ≠ 0%Z → m ≠ 1%Z →
                        fd_get (p_fds p) m =
                          if decide (m = r) then Some (PipeRd k) else b m) ∧
             chain b f (PipeRd k) (PipeWr k) (S k) cs
         end).
      rewrite Hfds. split.
      * rewrite U6. do 2 fd_case. rewrite U3. by do 2 fd_case.
      * destruct cs as [|c cs']; [simpl in L; lia|].
        split_and!.
        -- rewrite U6. do 2 fd_case. by rewrite K2.
        -- exists r. split_and!; [done|done|done|]. apply T6.
        -- rewrite K6, K3, K2 in W. eapply chain_ext; [|exact W].
           intros m M0 M1. simpl.
           destruct (decide (m = r)) as [->|Hmr]; [by rewrite Hbase|].
           rewrite T6 by done. by fd_case.
Qed.

Lemma wait_step env bg_flag pid s :
  ∃ r s',
    (if (bg_flag =? 0)%Z then sys_waitpid env (Some pid) else mret None) s
      = Ret r s' ∧
    fdt s' = fdt s ∧ procs s' = procs s ∧ next_pipe s' = next_pipe s ∧
    (events s' = events s ∨ ∃ st, events s' = events s ++ [EvWait pid st]).
Proof.
  destruct (bg_flag =? 0)%Z.
  - unfold sys_waitpid. destruct (find_proc (procs s) pid) as [c|].
    + do 2 eexists. split; [done|]. simpl. split_and!; try done.
      right. by eexists.
    + do 2 eexists. split; [done|]. split_and!; try done. by left.
  - do 2 eexists. split; [done|]. split_and!; try done. by left.
Qed.

(** [execute_cmd] on a Pipeline that is not [quit] and whose input
    opens: what it leaves in the shell and in each child. *)
Lemma execute_cmd_chain env cmd bg_flag s name d0 d1 :
  first_arg cmd = Ok name → name ≠ "quit" →
  fd_get (fdt s) 0%Z = Some d0 → fd_get (fdt s) 1%Z = Some d1 →
  input_ready env cmd →
  (is_Some (file_out cmd) → is_Some (overwrite cmd)) →
  stages_readable cmd → 0 < num_cmds cmd →
  ∃ s' (cs : list proc) tin tout,
    execute_cmd env cmd bg_flag s = Ret 1%Z s' ∧
    procs s' = procs s ++ cs ∧ length cs = num_cmds cmd ∧
    (∀ m, fd_get (fdt s') m = fd_get (fdt s) m) ∧
    next_pipe s' = next_pipe s + (num_cmds cmd - 1) ∧
    (events s' = events s ∨ ∃ pid st, events s' = events s ++ [EvWait pid st]) ∧
    tin ≠ 0%Z ∧ tin ≠ 1%Z ∧ tout ≠ 0%Z ∧ tout ≠ 1%Z ∧ tin ≠ tout ∧
    fd_get (fdt s) tin = None ∧ fd_get (fdt s) tout = None ∧
    chain (saved_table s tin tout d0 d1) (last_stdout env cmd d1)
          (source_desc cmd d0) d1 (next_pipe s) cs.
Proof.
  intros Hname Hq H0 H1 Hin How Hargs Hn.
  unfold execute_cmd. rewrite Hname, bind_lift_Ok.
  assert (streq name "quit" = false) as ->.
  { destruct (streq name "quit") eqn:E; [|done]. by apply streq_eq in E. }
  destruct (sys_dup_spec s 0%Z d0 H0)
    as (tin & s1 & E1 & _ & Ftin & (P1 & V1 & Q1) & U1).
  rewrite (bind_Ret _ _ _ _ _ E1). apply next_pipe_dup in E1.
  assert (tin ≠ 0%Z) as T0 by congruence.
  assert (tin ≠ 1%Z) as T1 by congruence.
  assert (fd_get (fdt s1) 1%Z = Some d1) as H11.
  { rewrite U1. by fd_case. }
  destruct (sys_dup_spec s1 1%Z d1 H11)
    as (tout & s2 & E2 & _ & Ftout & (P2 & V2 & Q2) & U2).
  rewrite (bind_Ret _ _ _ _ _ E2). apply next_pipe_dup in E2.
  assert (fd_get (fdt s1) tin = Some d0) as Htin1.
  { rewrite U1. by fd_case. }
  assert (fd_get (fdt s1) 0%Z = Some d0) as H01.
  { rewrite U1. by fd_case. }
  assert (tout ≠ 0%Z) as O0 by congruence.
  assert (tout ≠ 1%Z) as O1 by congruence.
  assert (tout ≠ tin) as Ot by congruence.
  assert (fd_get (fdt s) tout = None) as Ftout0.
  { rewrite U1 in Ftout. by rewrite decide_False in Ftout by done. }
  assert (fd_get (fdt s2) tin = Some d0) as Htin2.
  { rewrite U2. by fd_case. }
  assert (fd_get (fdt s2) tout = Some d1) as Htout2.
  { rewrite U2. by fd_case. }
  assert (fd_get (fdt s2) 0%Z = Some d0) as H02.
  { rewrite U2. by fd_case. }
  assert (fd_get (fdt s2) 1%Z = Some d1) as H12.
  { rewrite U2. by fd_case. }
  destruct (open_input_spec env cmd tin s2 d0 Hin Htin2)
    as (fd_in & s3 & E3 & Ffd & (P3 & V3 & Q3) & U3).
  rewrite (bind_Ret _ _ _ _ _ E3). apply next_pipe_open_input in E3.
  assert (fd_in ≠ 0%Z) as I0 by congruence.
  assert (fd_in ≠ 1%Z) as I1 by congruence.
  assert (fd_in ≠ tout) as It by congruence.
  assert (fd_in ≠ tin) as Ii by congruence.
  assert (fd_get (fdt s) fd_in = None) as Ffd0.
  { rewrite U2 in Ffd. rewrite decide_False in Ffd by done.
    rewrite U1 in Ffd. by rewrite decide_False in Ffd by done. }
  assert (∀ m, m ≠ fd_in →
               fd_get (fdt s3) m = saved_table s tin tout d0 d1 m) as T3.
  { intros m Hm. rewrite U3. fd_case. rewrite U2. unfold saved_table.
    destruct (decide (m = tout)) as [->|Hmt]; [by fd_case|].
    rewrite U1. by destruct (decide (m = tin)). }
  destruct (stage_loop_chain env cmd tout d1 How Hargs (num_cmds cmd) 0 fd_in
              None s3 (source_desc cmd d0) d1)
    as (pid & s4 & cs & E4 & P4 & L4 & V4 & K4 & T4 & W); try done.
  { rewrite U3. by fd_case. }
  { rewrite U3. by fd_case. }
  { rewrite U3. by fd_case. }
  rewrite (bind_Ret _ _ _ _ _ E4).
  assert (fd_get (fdt s4) tin = Some d0) as Htin4.
  { rewrite T4 by done. fd_case. rewrite U3. by fd_case. }
  destruct (sys_dup2_spec s4 tin 0%Z d0 Htin4) as (s5 & E5 & F5 & U5); [done|].
  rewrite (bind_Ret _ _ _ _ _ E5). apply next_pipe_dup2 in E5.
  assert (fd_get (fdt s5) tout = Some d1) as Htout5.
  { rewrite U5. fd_case. rewrite T4 by done. fd_case. rewrite U3. by fd_case. }
  destruct (sys_dup2_spec s5 tout 1%Z d1 Htout5) as (s6 & E6 & F6 & U6); [done|].
  rewrite (bind_Ret _ _ _ _ _ E6). apply next_pipe_dup2 in E6.
  assert (fd_get (fdt s6) tin = Some d0) as Htin6.
  { rewrite U6. fd_case. rewrite U5. by fd_case. }
  destruct (sys_close_spec s6 tin d0 Htin6) as (s7 & E7 & F7 & U7).
  rewrite (bind_Ret _ _ _ _ _ E7). apply next_pipe_close in E7.
  assert (fd_get (fdt s7) tout = Some d1) as Htout7.
  { rewrite U7. fd_case. rewrite U6. fd_case. done. }
  destruct (sys_close_spec s7 tout d1 Htout7) as (s8 & E8 & F8 & U8).
  rewrite (bind_Ret _ _ _ _ _ E8). apply next_pipe_close in E8.
  assert (fds_only s4 s8) as (P8 & V8 & Q8).
  { eapply fds_only_trans; [|done]. eapply fds_only_trans; [|done].
    by eapply fds_only_trans. }
  destruct (wait_step env bg_flag pid s8) as (r9 & s9 & E9 & F9 & P9 & K9 & V9).
  rewrite (bind_Ret _ _ _ _ _ E9).
  exists s9, cs, tin, tout.
  split_and!; try done.
  - congruence.
  - intros m. rewrite F9, U8.
    destruct (decide (m = tout)) as [->|Hmo]; [done|].
    rewrite U7. destruct (decide (m = tin)) as [->|Hmi]; [done|].
    rewrite U6. destruct (decide (m = 1%Z)) as [->|Hm1]; [done|].
    rewrite U5. destruct (decide (m = 0%Z)) as [->|Hm0]; [done|].
    rewrite T4 by done.
    destruct (decide (m = fd_in)) as [->|Hmf]; [done|].
    rewrite T3 by done. unfold saved_table. by do 2 fd_case.
  - congruence.
  - assert (events s8 = events s) as V by congruence.
    destruct V9 as [V9|[st V9]]; [left|right; exists pid, st]; congruence.
  - replace (next_pipe s3) with (next_pipe s) in W by congruence.
    eapply chain_ext; [|exact W].
    intros m M0 M1. simpl.
    destruct (decide (m = fd_in)) as [->|Hmf]; [|by apply T3].
    unfold saved_table. by do 2 fd_case.
Qed.

(** What the chain says of the child at position [j]. *)
Lemma chain_lookup base final cs : ∀ d_in d_cur id j p,
  chain base final d_in d_cur id cs → cs !! j = Some p →
  fd_get (p_fds p) 0%Z
    = Some (match j with
            | O => d_in
            | S j' => PipeRd (id + j')
            end) ∧
  (S j < length cs →
   fd_get (p_fds p) 1%Z = Some (PipeWr (id + j)) ∧
   ∃ r, r ≠ 0%Z ∧ r ≠ 1%Z ∧ base r = None ∧
        ∀ m, m ≠ 0%Z → m ≠ 1%Z →
             fd_get (p_fds p) m =
               if decide (m = r) then Some (PipeRd (id + j)) else base m) ∧
  (S j = length cs →
   fd_get (p_fds p) 1%Z
     = Some (final (match j with
                    | O => d_cur
                    | S j' => PipeWr (id + j')
                    end)) ∧
   ∀ m, m ≠ 0%Z → m ≠ 1%Z → fd_get (p_fds p) m = base m).
Proof.
  induction cs as [|q rest IH]; intros d_in d_cur id j p Hc Hj; [done|].
  destruct Hc as [H0 H]. destruct j as [|j].
  - injection Hj as <-. split; [done|]. rewrite Nat.add_0_r.
    destruct rest as [|q' rest].
    + split; [simpl; lia|]. by intros _.
    + destruct H as (H1 & H2 & _). split; [by intros _|]. simpl. lia.
  - destruct rest as [|q' rest]; [done|].
    destruct H as (_ & _ & H).
    destruct (IH (PipeRd id) (PipeWr id) (S id) j p H Hj) as (I0 & I1 & I2).
    replace (id + S j) with (S id + j) by lia.
    split_and!.
    + destruct j as [|j]; [by rewrite Nat.add_0_r|].
      by replace (id + S j) with (S id + j) by lia.
    + intros Hl. apply I1. simpl in *. lia.
    + intros Hl. destruct I2 as [I2 I3]; [simpl in *; lia|]. split; [|done].
      destruct j as [|j]; [by rewrite Nat.add_0_r|].
      by replace (id + S j) with (S id + j) by lia.
Qed.



(** X10.  Every stage but the last is forked while the shell still holds
    the read end of the pipe that stage writes: the child has, besides
    the write end on its descriptor 1, the read end of the same pipe
    open on a descriptor other than 0 and 1. *)
Theorem writer_holds_read_end env cmd bg_flag s name d0 d1 :
  first_arg cmd = Ok name → name ≠ "quit" →
  fd_get (fdt s) 0%Z = Some d0 → fd_get (fdt s) 1%Z = Some d1 →
  input_ready env cmd →
  (is_Some (file_out cmd) → is_Some (overwrite cmd)) →
  stages_readable cmd → 0 < num_cmds cmd →
  ∃ s' (cs : list proc),
    execute_cmd env cmd bg_flag s = Ret 1%Z s' ∧
    procs s' = procs s ++ cs ∧ length cs = num_cmds cmd ∧
    ∀ j p, cs !! j = Some p → S j < num_cmds cmd →
           ∃ k r, r ≠ 0%Z ∧ r ≠ 1%Z ∧
                  stdout_of p = Some (PipeWr k) ∧
                  fd_get (p_fds p) r = Some (PipeRd k).
Proof.
  intros Hname Hq H0 H1 Hin How Hargs Hn.
  destruct (execute_cmd_chain env cmd bg_flag s name d0 d1)
    as (s' & cs & tin & tout & E & P & L & _ & _ & _ & _ & _ & _ & _ & _ & _ & _ & W);
    try done.
  exists s', cs. split_and!; try done.
  intros j p Hj Hlt.
  destruct (chain_lookup _ _ _ _ _ _ j p W Hj) as (_ & I1 & _).
  destruct I1 as (Hw & r & R0 & R1 & _ & Hr); [lia|].
  exists (next_pipe s + j), r. split_and!; try done.
  rewrite Hr by done. by rewrite decide_True.
Qed.

Lemma writer_holds_read_end_witness :
  ∃ s' (cs : list proc),
    execute_cmd env_ok (finish_pure no_backup (parsed "yes | head")) 0%Z boot
      = Ret 1%Z s' ∧
    procs s' = procs boot ++ cs ∧
    length cs = num_cmds (finish_pure no_backup (parsed "yes | head")) ∧
    ∀ j p, cs !! j = Some p →
           S j < num_cmds (finish_pure no_backup (parsed "yes | head")) →
           ∃ k r, r ≠ 0%Z ∧ r ≠ 1%Z ∧
                  stdout_of p = Some (PipeWr k) ∧
                  fd_get (p_fds p) r = Some (PipeRd k).
Proof.
  apply (writer_holds_read_end env_ok _ 0%Z boot "yes"
           (Inherited 0) (Inherited 1)); try by vm_compute.
  - intros [x Hx]. by vm_compute in Hx.
  - intros j Hj. destruct j as [|[|j]]; [by eexists..|].
    vm_compute in Hj. lia.
  - vm_compute. lia.
Defined.

(** X11.  Every stage is forked before the shell closes the copies of
    its standard input and output that it saved: each child, whatever
    its redirections, inherits two more descriptors, other than 0 and 1,
    that hold what the shell's descriptors 0 and 1 held. *)
Theorem children_inherit_saved env cmd bg_flag s name d0 d1 :
  first_arg cmd = Ok name → name ≠ "quit" →
  fd_get (fdt s) 0%Z = Some d0 → fd_get (fdt s) 1%Z = Some d1 →
  input_ready env cmd →
  (is_Some (file_out cmd) → is_Some (overwrite cmd)) →
  stages_readable cmd → 0 < num_cmds cmd →
  ∃ s' (cs : list proc) tin tout,
    execute_cmd env cmd bg_flag s = Ret 1%Z s' ∧
    procs s' = procs s ++ cs ∧ length cs = num_cmds cmd ∧
    tin ≠ 0%Z ∧ tin ≠ 1%Z ∧ tout ≠ 0%Z ∧ tout ≠ 1%Z ∧ tin ≠ tout ∧
    fd_get (fdt s') tin = None ∧ fd_get (fdt s') tout = None ∧
    ∀ p, p ∈ cs → fd_get (p_fds p) tin = Some d0 ∧
                  fd_get (p_fds p) tout = Some d1.
Proof.
  intros Hname Hq H0 H1 Hin How Hargs Hn.
  destruct (execute_cmd_chain env cmd bg_flag s name d0 d1)
    as (s' & cs & tin & tout & E & P & L & T & _ & _ & T0 & T1 & O0 & O1 & Hne
        & Ftin & Ftout & W);
    try done.
  exists s', cs, tin, tout. split_and!; try done; try (by rewrite T).
  intros p Hp. apply list_elem_of_lookup_1 in Hp as [j Hj].
  assert (saved_table s tin tout d0 d1 tin = Some d0) as Si.
  { unfold saved_table. by fd_case. }
  assert (saved_table s tin tout d0 d1 tout = Some d1) as So.
  { unfold saved_table. by do 2 fd_case. }
  destruct (chain_lookup _ _ _ _ _ _ j p W Hj) as (_ & I1 & I2).
  pose proof (lookup_lt_Some _ _ _ Hj) as Hlt.
  destruct (decide (S j = length cs)) as [Hl|Hl].
  - destruct (I2 Hl) as [_ Hb]. by rewrite !Hb.
  - destruct I1 as (_ & r & R0 & R1 & Hr & Hb); [lia|].
    rewrite !Hb by done.
    split.
    + destruct (decide (tin = r)) as [->|]; [congruence|done].
    + destruct (decide (tout = r)) as [->|]; [congruence|done].
Qed.

Lemma children_inherit_saved_witness :
  ∃ s' (cs : list proc) tin tout,
    execute_cmd env_ok (finish_pure no_backup (parsed "sort < in > out"))
      0%Z boot = Ret 1%Z s' ∧
    procs s' = procs boot ++ cs ∧
    length cs = num_cmds (finish_pure no_backup (parsed "sort < in > out")) ∧
    tin ≠ 0%Z ∧ tin ≠ 1%Z ∧ tout ≠ 0%Z ∧ tout ≠ 1%Z ∧ tin ≠ tout ∧
    fd_get (fdt s') tin = None ∧ fd_get (fdt s') tout = None ∧
    ∀ p, p ∈ cs → fd_get (p_fds p) tin = Some (Inherited 0) ∧
                  fd_get (p_fds p) tout = Some (Inherited 1).
Proof.
  apply (children_inherit_saved env_ok _ 0%Z boot "sort"
           (Inherited 0) (Inherited 1)); try by vm_compute.
  - intros _. by eexists.
  - intros j Hj. destruct j as [|j]; [by eexists|].
    vm_compute in Hj. lia.
Defined.



(** X13.  When the redirection files open and the shell holds no write
    end of a pipe yet to be made, the write end of every pipe that
    [execute_cmd] makes is held by one process only, the stage that
    writes it, on descriptor 1, and by the shell no longer on return:
    neither the shell nor another stage keeps a pipe open for writing. *)
Theorem write_end_exclusive env cmd bg_flag s name d0 d1 :
  first_arg cmd = Ok name → name ≠ "quit" →
  fd_get (fdt s) 0%Z = Some d0 → fd_get (fdt s) 1%Z = Some d1 →
  input_ready env cmd → output_ready env cmd →
  stages_readable cmd → 0 < num_cmds cmd →
  pipes_fresh s →
  ∃ s' (cs : list proc),
    execute_cmd env cmd bg_flag s = Ret 1%Z s' ∧
    procs s' = procs s ++ cs ∧ length cs = num_cmds cmd ∧
    (∀ m k, fd_get (fdt s') m = Some (PipeWr k) → k < next_pipe s) ∧
    ∀ j p m k, cs !! j = Some p →
               fd_get (p_fds p) m = Some (PipeWr k) → next_pipe s ≤ k →
               m = 1%Z ∧ k = next_pipe s + j ∧ S j < num_cmds cmd.
Proof.
  intros Hname Hq H0 H1 Hin Hout Hargs Hn Hfresh.
  assert (is_Some (file_out cmd) → is_Some (overwrite cmd)) as How.
  { unfold output_ready in Hout. intros [f Hf]. rewrite Hf in Hout. tauto. }
  destruct (execute_cmd_chain env cmd bg_flag s name d0 d1)
    as (s' & cs & tin & tout & E & P & L & T & _ & _ & T0 & T1 & O0 & O1 & Hne
        & Ftin & Ftout & W);
    try done.
  exists s', cs. split_and!; try done.
  { intros m k Hm. rewrite T in Hm. by apply (Hfresh m). }
  assert (∀ m k, saved_table s tin tout d0 d1 m = Some (PipeWr k) →
                 k < next_pipe s) as Hsaved.
  { intros m k. unfold saved_table.
    destruct (decide (m = tin)); [intros [= ->]; by apply (Hfresh 0%Z)|].
    destruct (decide (m = tout)); [intros [= ->]; by apply (Hfresh 1%Z)|].
    apply Hfresh. }
  assert (∀ dc k, last_stdout env cmd d1 dc = PipeWr k → k < next_pipe s)
    as Hfinal.
  { intros dc k. unfold last_stdout, output_ready in *.
    destruct (file_out cmd) as [f|].
    - destruct Hout as [-> _]. done.
    - intros ->. by apply (Hfresh 1%Z). }
  assert (∀ k, source_desc cmd d0 = PipeWr k → k < next_pipe s) as Hsrc.
  { intros k. unfold source_desc. destruct (file_in cmd); [done|].
    intros ->. by apply (Hfresh 0%Z). }
  intros j p m k Hj Hm Hk.
  destruct (chain_lookup _ _ _ _ _ _ j p W Hj) as (I0 & I1 & I2).
  pose proof (lookup_lt_Some _ _ _ Hj) as Hlt.
  destruct (decide (m = 0%Z)) as [->|M0].
  { rewrite I0 in Hm. destruct j as [|j'].
    - injection Hm as Hm. apply Hsrc in Hm. lia.
    - done. }
  destruct (decide (S j = length cs)) as [Hl|Hl].
  - destruct (I2 Hl) as [Ho Hb].
    destruct (decide (m = 1%Z)) as [->|M1].
    + rewrite Ho in Hm. injection Hm as Hm. apply Hfinal in Hm. lia.
    + rewrite Hb in Hm by done. apply Hsaved in Hm. lia.
  - destruct I1 as (Ho & r & R0 & R1 & Hr & Hb); [lia|].
    destruct (decide (m = 1%Z)) as [->|M1].
    + rewrite Ho in Hm. injection Hm as <-. split_and!; [done|done|lia].
    + rewrite Hb in Hm by done.
      destruct (decide (m = r)); [done|]. apply Hsaved in Hm. lia.
Qed.

Lemma write_end_exclusive_witness :
  ∃ s' (cs : list proc),
    execute_cmd env_ok (finish_pure no_backup (parsed "ls | sort | wc")) 0%Z boot
      = Ret 1%Z s' ∧
    procs s' = procs boot ++ cs ∧
    length cs = num_cmds (finish_pure no_backup (parsed "ls | sort | wc")) ∧
    (∀ m k, fd_get (fdt s') m = Some (PipeWr k) → k < next_pipe boot) ∧
    ∀ j p m k, cs !! j = Some p →
               fd_get (p_fds p) m = Some (PipeWr k) → next_pipe boot ≤ k →
               m = 1%Z ∧ k = next_pipe boot + j ∧
               S j < num_cmds (finish_pure no_backup (parsed "ls | sort | wc")).
Proof.
  apply (write_end_exclusive env_ok _ 0%Z boot "ls"
           (Inherited 0) (Inherited 1)); try by vm_compute.
  - intros j Hj. destruct j as [|[|[|j]]]; [by eexists..|].
    vm_compute in Hj. lia.
  - vm_compute. lia.
  - intros m k Hm. unfold boot, fd_get in Hm. simpl in Hm.
    destruct (m <? 0)%Z; [done|].
    destruct (Z.to_nat m) as [|[|[|n]]]; simpl in Hm; done.
Defined.

(** ** Leaving the loop *)

Lemma bind_Ret_inv {A B : Type} (m : exec A) (k : A → exec B) s b s' :
  (m ≫= k) s = Ret b s' → ∃ a s1, m s = Ret a s1 ∧ k a s1 = Ret b s'.
Proof.
  unfold mbind, exec_bind. destruct (m s) as [a s1| |]; [|done..].
  intros H. by exists a, s1.
Qed.

Lemma lift_Ret_inv {A : Type} (m : outcome A) s a s' :
  lift m s = Ret a s' → m = Ok a ∧ s' = s.
Proof. unfold lift. destruct m; [|done]. by intros [= -> ->]. Qed.

(** [execute_cmd] returns 0 for [quit] only. *)
Lemma execute_cmd_zero env cmd bg_flag s s' :
  execute_cmd env cmd bg_flag s = Ret 0%Z s' → first_arg cmd = Ok "quit".
Proof.
  unfold execute_cmd. intros H.
  apply bind_Ret_inv in H as (name & s1 & Hn & H).
  apply lift_Ret_inv in Hn as [Hn ->].
  destruct (streq name "quit") eqn:E.
  { apply streq_eq in E. by rewrite Hn, E. }
  exfalso.
  do 9 (apply bind_Ret_inv in H as (? & ? & _ & H)).
  done.
Qed.

Lemma loop_turn_inv env g raw s st g1 s1 :
  loop_turn env g raw s = Ret (st, g1) s1 →
  ∃ line cmd s0,
    get_cmd g raw = Ok (line, g1) ∧ cmd_builder g1 line = Ok cmd ∧
    execute_cmd env cmd (bg g1) s0 = Ret st s1.
Proof.
  unfold loop_turn. intros H.
  apply bind_Ret_inv in H as (? & sa & _ & H).
  apply bind_Ret_inv in H as ([line g'] & sb & Hg & H).
  apply lift_Ret_inv in Hg as [Hg ->].
  apply bind_Ret_inv in H as (? & sc & _ & H).
  apply bind_Ret_inv in H as (cmd & sd & Hc & H).
  apply lift_Ret_inv in Hc as [Hc ->].
  apply bind_Ret_inv in H as (st' & se & He & H).
  injection H as -> -> ->. by exists line, cmd, sc.
Qed.

Lemma head_visible seg t : head (visible seg) = Some t → head seg = Some t.
Proof.
  destruct seg as [|x r]; [done|]. simpl.
  destruct (is_redirect x); [|done]. by destruct r.
Qed.

Lemma head_segments l seg t :
  segments l !! 0 = Some seg → head seg = Some t → head l = Some t.
Proof.
  destruct l as [|x r]; simpl.
  - by intros [= <-].
  - destruct (is_pipe x); [by intros [= <-]|].
    destruct (segments r); by intros [= <-].
Qed.

(** The program name [execute_cmd] compares with [quit] is the first
    token of the line. *)
Lemma first_arg_head g line fc name :
  cmd_builder g line = Ok fc → first_arg fc = Ok name →
  str <$> head (tokens line) = Some name.
Proof.
  intros Hb Hname.
  pose proof (segments_length (tokens line)) as Hl.
  destruct (segments (tokens line)) as [|seg0 ss] eqn:Hseg; [simpl in Hl; lia|].
  assert (segments (tokens line) !! 0 = Some seg0) as H0 by (by rewrite Hseg).
  pose proof (stage_argv_segments g line fc 0 seg0 Hb H0) as Hargv.
  unfold first_arg in Hname. unfold stage_argv in Hargv.
  destruct (cmds fc !! 0) as [cm|]; [|done].
  unfold deref in Hname.
  destruct (args cm) as [|x a]; [done|]. simpl in Hname, Hargv.
  destruct x as [| |p]; [done|done|]. injection Hname as <-.
  destruct (argv a) as [r|]; [|done]. simpl in Hargv. injection Hargv as Hv.
  destruct (visible seg0) as [|t v] eqn:Ev; [done|].
  injection Hv as Ht _.
  rewrite (head_segments (tokens line) seg0 t H0); [by rewrite Ht|].
  apply head_visible. by rewrite Ev.
Qed.

Lemma loop_returns env input : ∀ g s g' s',
  loop env g input s = Ret g' s' → Exists quits input.
Proof.
  induction input as [|raw rest IH]; intros g s g' s' H.
  - simpl in H. apply bind_Ret_inv in H as (? & ? & _ & H). done.
  - simpl in H. apply bind_Ret_inv in H as ([st g1] & s1 & Ht & H).
    apply loop_turn_inv in Ht as (line & cmd & s0 & Hg & Hc & He).
    destruct (st =? 0)%Z eqn:Est.
    + apply Z.eqb_eq in Est. subst st. left.
      exists g, line, g1. split; [done|].
      apply (first_arg_head g1 line cmd); [done|].
      by apply (execute_cmd_zero env cmd (bg g1) s0 s1).
    + right. by apply (IH g1 s1 g' s').
Qed.

(** X14.  [loop] returns to its caller only when a line has [quit] for
    its first word: on every other input it runs until the input is
    used up, where [get_cmd] reads the buffer [getline] did not fill, or
    ends before in an exit or an undefined operation. *)
Theorem loop_returns_on_quit env g input s g' s' :
  loop env g input s = Ret g' s' → Exists quits input.
Proof. apply loop_returns. Qed.

Lemma loop_returns_on_quit_witness :
  Exists quits ["ls" +:+ nl; "quit now" +:+ nl; "ls" +:+ nl].
Proof.
  eapply (loop_returns_on_quit env_ok no_backup
            ["ls" +:+ nl; "quit now" +:+ nl; "ls" +:+ nl] boot).
  vm_compute. reflexivity.
Defined.

(** X15.  [main] returns in two ways only.  It returns [EXIT_FAILURE]
    when it is given more than one argument, or a transcript file that
    does not open, and has then printed one message and no prompt.  It
    returns [EXIT_SUCCESS] when it reached the command loop and a line
    had [quit] for its first word. *)
Theorem main_returns env args input s code s' :
  main env args input s = Ret code s' →
  (code = EXIT_FAILURE ∧ ¬ startable env args ∧
   ∃ e, events s' = events s ++ [e] ∧
        (e = EvPerror ∨ e = EvWrite 2 usage (String.length usage))) ∨
  (code = EXIT_SUCCESS ∧ startable env args ∧ Exists quits input).
Proof.
  assert (∀ g s1, main_exit g s1 = Ret code s' → code = EXIT_SUCCESS) as Hexit.
  { intros g s1 H. unfold main_exit in H.
    apply bind_Ret_inv in H as (? & ? & _ & H). by injection H as <- _. }
  assert (∀ s1, (emit (EvWrite 2 usage (String.length usage)) ≫=
                   λ _, mret EXIT_FAILURE) s1 = Ret code s' →
                code = EXIT_FAILURE ∧
                ∃ e, events s' = events s1 ++ [e] ∧
                     (e = EvPerror ∨ e = EvWrite 2 usage (String.length usage)))
    as Husage.
  { intros s1 H. injection H as <- <-. split; [done|]. eexists. split; [done|].
    by right. }
  unfold main. intros H.
  destruct args as [|a [|path [|b args]]].
  - left. apply Husage in H as [-> He]. split_and!; [done|by intros []|done].
  - right. apply bind_Ret_inv in H as (g' & s1 & Hl & H).
    split_and!; [by eapply Hexit|done|by eapply loop_returns].
  - apply bind_Ret_inv in H as (n & s1 & Ho & H).
    unfold sys_open in Ho. destruct (can_write env path) eqn:Hw.
    + right. destruct (fd_alloc (fdt s) (FileWr path false)) as [k t].
      injection Ho as <- <-.
      assert ((Z.of_nat k =? -1)%Z = false) as Hk by (apply Z.eqb_neq; lia).
      rewrite Hk in H.
      apply bind_Ret_inv in H as (g' & s1 & Hl & H).
      split_and!; [by eapply Hexit|done|by eapply loop_returns].
    + left. injection Ho as <- <-. simpl in H. injection H as <- <-.
      split_and!; [done|simpl; congruence|]. eexists. split; [done|]. by left.
  - left. apply Husage in H as [-> He]. split_and!; [done|by intros []|done].
Qed.

Lemma main_returns_witness :
  (∃ s', main env_ok ["nsh"; "log"] ["quit" +:+ nl] boot = Ret 0%Z s') ∧
  startable env_ok ["nsh"; "log"] ∧ Exists quits ["quit" +:+ nl].
Proof.
  assert (∃ s', main env_ok ["nsh"; "log"] ["quit" +:+ nl] boot = Ret 0%Z s')
    as [s' E] by (eexists; vm_compute; reflexivity).
  destruct (main_returns _ _ _ _ _ _ E) as [(Hc & _)|(_ & Hs & Hq)].
  - vm_compute in Hc. discriminate Hc.
  - split_and!; [by exists s'|done|done].
Defined.

(** ** The transcript *)

(** X16.  With the transcript on, every turn of the loop writes three
    pieces to the transcript descriptor before the line is parsed and
    executed: the prompt, the line as [get_cmd] returned it (without its
    newline and without a final [&]), and a newline.  Each [write] passes
    one byte more than the text it writes, the [NUL] that ends the
    string, so that the transcript holds a [NUL] byte after each piece. *)
Theorem transcript_record env g raw s line g' cmd :
  get_cmd g raw = Ok (line, g') → cmd_builder g' line = Ok cmd →
  backup g ≠ 0%Z →
  ∃ s1,
    events s1 = events s ++ [EvPrompt;
                             EvWrite (fd g) "> " 3;
                             EvWrite (fd g) line (String.length line + 1);
                             EvWrite (fd g) nl 2] ∧
    events_only s s1 ∧
    loop_turn env g raw s =
      (execute_cmd env cmd (bg g') ≫= λ st, mret (st, g')) s1.
Proof.
  intros Hget Hb Hbk. unfold loop_turn.
  set (s0 := {| fdt := fdt s; procs := procs s; next_pid := next_pid s;
                next_pipe := next_pipe s; events := events s ++ [EvPrompt] |}).
  rewrite (bind_Ret _ _ s tt s0) by done.
  rewrite Hget, bind_lift_Ok.
  assert (backup g' = backup g ∧ fd g' = fd g) as [Eb Ef].
  { by destruct (get_cmd_globals g raw line g' Hget) as [->| ->]. }
  unfold write_transcript. rewrite Eb, Ef.
  assert ((backup g =? 0)%Z = false) as -> by (by apply Z.eqb_neq).
  set (s3 := {| fdt := fdt s; procs := procs s; next_pid := next_pid s;
                next_pipe := next_pipe s;
                events := events s ++ [EvPrompt;
                                       EvWrite (fd g) "> " 3;
                                       EvWrite (fd g) line (String.length line + 1);
                                       EvWrite (fd g) nl 2] |}).
  exists s3. split; [done|]. split; [done|].
  rewrite (bind_Ret _ _ s0 tt s3).
  - by rewrite Hb, bind_lift_Ok.
  - unfold mbind, exec_bind, emit, s0, s3. simpl.
    by rewrite <- !app_assoc.
Qed.

Lemma transcript_record_witness :
  ∃ s1,
    events s1 = events boot ++ [EvPrompt;
                                EvWrite 3 "> " 3;
                                EvWrite 3 "ls -l" (String.length "ls -l" + 1);
                                EvWrite 3 nl 2] ∧
    events_only boot s1 ∧
    loop_turn env_ok with_backup ("ls -l&" +:+ nl) boot =
      (execute_cmd env_ok (finish_pure with_backup (parsed "ls -l")) 1%Z
         ≫= λ st, mret (st, set_bg with_backup 1%Z)) s1.
Proof.
  apply (transcript_record env_ok with_backup ("ls -l&" +:+ nl) boot "ls -l"
           (set_bg with_backup 1%Z)); by vm_compute.
Defined.

Lemma wired_last d_last cs : ∀ d_in lp,
  wired d_in cs d_last → last cs = Some lp →
  stdout_of lp = Some d_last ∧
  (2 ≤ length cs → ∃ k, stdin_of lp = Some (PipeRd k)).
Proof.
  induction cs as [|p rest IH]; intros d_in lp W Hl; [done|].
  destruct rest as [|q rest].
  - injection Hl as <-. destruct W as [_ W]. split; [done|]. simpl. lia.
  - destruct W as [_ (k & Hk & W)].
    change (last (p :: q :: rest)) with (last (q :: rest)) in Hl.
    destruct (IH (PipeRd k) lp W Hl) as [Ho Hi]. split; [done|].
    intros _. destruct rest as [|q' rest'].
    + injection Hl as <-. destruct W as [Hin _]. by exists k.
    + apply Hi. simpl. lia.
Qed.

(** X17.  With the transcript on, the last process that [execute_cmd]
    forks for a parsed line is [tee -a] on the transcript file: it reads
    a pipe, the one the last command of the line writes, and it is this
    process, not a command of the line, that writes the shell's standard
    output or the output file of the line. *)
Theorem transcript_process env g line fc bg_flag s name0 d0 d1 name :
  cmd_builder g line = Ok fc →
  backup g ≠ 0%Z → fname g = Some name →
  first_arg fc = Ok name0 → name0 ≠ "quit" →
  fd_get (fdt s) 0%Z = Some d0 → fd_get (fdt s) 1%Z = Some d1 →
  Forall (λ p, (p_pid p < next_pid s)%Z) (procs s) →
  files_open env fc →
  ∃ s' (cs : list proc) lp,
    execute_cmd env fc bg_flag s = Ret 1%Z s' ∧
    procs s' = procs s ++ cs ∧ last cs = Some lp ∧
    p_argv lp = ["tee"; "-a"; name] ∧
    (∃ k, stdin_of lp = Some (PipeRd k)) ∧
    stdout_of lp = Some (sink_desc fc d1).
Proof.
  intros Hb Hbk Hname Hfirst Hq H0 H1 Hp Hopen.
  destruct (execute_parsed env g line fc bg_flag s name0 d0 d1)
    as (s' & cs & lp & E & P & L & St & W & Hlast & _); try done.
  exists s', cs, lp. split_and!; try done.
  - pose proof Hlast as Hl. rewrite last_lookup in Hl.
    destruct (St _ _ Hl) as [_ Hargv]. simpl in Hargv.
    pose proof (tee_stage_argv g line fc name Hb Hbk Hname) as Htee.
    replace (num_cmds fc - 1) with (pred (length cs)) in Htee by lia.
    congruence.
  - apply (wired_last _ cs _ lp W Hlast).
    destruct (cmd_builder_well_formed g line fc Hb) as (Hfc & _).
    rewrite L, Hfc. unfold finish_pure, tee_stages, backup_on. simpl.
    destruct (Z.eqb_spec (backup g) 0); [done|]. simpl. lia.
  - by apply (wired_last _ cs _ lp W Hlast).
Qed.

Lemma transcript_process_witness :
  ∃ s' (cs : list proc) lp,
    execute_cmd env_ok (finish_pure with_backup (parsed "ls > out")) 0%Z boot
      = Ret 1%Z s' ∧
    procs s' = procs boot ++ cs ∧ last cs = Some lp ∧
    p_argv lp = ["tee"; "-a"; "log"] ∧
    (∃ k, stdin_of lp = Some (PipeRd k)) ∧
    stdout_of lp
      = Some (sink_desc (finish_pure with_backup (parsed "ls > out"))
                (Inherited 1)).
Proof.
  apply (transcript_process env_ok with_backup "ls > out" _ 0%Z boot "ls"
           (Inherited 0) (Inherited 1) "log"); by vm_compute.
Defined.

(** ** From the line to the processes *)

(** X18.  For a parsed line whose first word is not [quit] and whose
    redirection files open, [execute_cmd] forks one process for each
    stage of the line, in the order of the line, and the process of each
    stage is given for arguments the tokens of that stage up to its
    first redirection operator. *)
Theorem forked_arguments env g line fc bg_flag s name d0 d1 :
  cmd_builder g line = Ok fc →
  first_arg fc = Ok name → name ≠ "quit" →
  fd_get (fdt s) 0%Z = Some d0 → fd_get (fdt s) 1%Z = Some d1 →
  Forall (λ p, (p_pid p < next_pid s)%Z) (procs s) →
  files_open env fc →
  ∃ s' (cs : list proc),
    execute_cmd env fc bg_flag s = Ret 1%Z s' ∧
    procs s' = procs s ++ cs ∧
    length cs = length (segments (tokens line)) + tee_stages g ∧
    ∀ j seg, segments (tokens line) !! j = Some seg →
             ∃ p, cs !! j = Some p ∧ p_argv p = str <$> visible seg.
Proof.
  intros Hb Hfirst Hq H0 H1 Hp Hopen.
  destruct (execute_parsed env g line fc bg_flag s name d0 d1)
    as (s' & cs & lp & E & P & L & St & _); try done.
  destruct (cmd_builder_well_formed g line fc Hb) as (Hfc & _).
  assert (length cs = length (segments (tokens line)) + tee_stages g) as Hlen.
  { rewrite L, Hfc, segments_length. unfold finish_pure. simpl.
    by rewrite parsed_num_cmd. }
  exists s', cs. split_and!; try done.
  intros j seg Hseg.
  assert (j < length cs) as Hj.
  { apply lookup_lt_Some in Hseg. lia. }
  destruct (lookup_lt_is_Some_2 cs j Hj) as [p Hpj].
  exists p. destruct (St j p Hpj) as [_ Hargv]. simpl in Hargv.
  split; [done|].
  rewrite (stage_argv_segments g line fc j seg Hb Hseg) in Hargv.
  by injection Hargv.
Qed.

Lemma forked_arguments_witness :
  ∃ s' (cs : list proc),
    execute_cmd env_ok (finish_pure no_backup (parsed "cat -n < in | wc > out x"))
      0%Z boot = Ret 1%Z s' ∧
    procs s' = procs boot ++ cs ∧
    length cs = length (segments (tokens "cat -n < in | wc > out x"))
                + tee_stages no_backup ∧
    ∀ j seg, segments (tokens "cat -n < in | wc > out x") !! j = Some seg →
             ∃ p, cs !! j = Some p ∧ p_argv p = str <$> visible seg.
Proof.
  apply (forked_arguments env_ok no_backup "cat -n < in | wc > out x" _ 0%Z
           boot "cat" (Inherited 0) (Inherited 1)); by vm_compute.
Defined.
